(** * TrustBuild governance guardrail: policy knowledge base and audit stage

    A shallow embedding of [policy_kb.py] (the policy registry, its check
    and correction functions, the framework selector) and of
    [governance_agent.py] (the audit, correction and re-validation passes,
    the scorer and the stage result), followed by the properties of the
    specification that concern them.

    The Python code works on loosely typed nested dictionaries that are
    shared by reference, so the embedding has an explicit object store:
    dictionaries and lists live at locations, values may be references,
    and the correction functions are store transformers.  Faults are the
    Python exceptions the operations raise. *)

From Stdlib Require Import ZArith String List SpecFloat.
From stdpp Require Import base option list gmap strings.

Local Open Scope string_scope.
Local Open Scope Z_scope.

(** ** Values, objects and the store *)

Abbreviation loc := nat.

(** Immediate values and references to mutable objects.  Numbers are
    integers; dictionary keys are strings. *)
Inductive val :=
  | VNone
  | VBool (b : bool)
  | VInt (n : Z)
  | VStr (s : string)
  | VRef (l : loc).

Inductive obj :=
  | ODict (d : gmap string val)
  | OList (xs : list val).

(** The store: object [l] is the [l]-th entry; allocation appends. *)
Abbreviation heap := (list obj).

#[global] Instance val_eq_dec : EqDecision val.
Proof. solve_decision. Defined.

(** ** Exceptions and the two effect types *)

(** The built-in exception classes that the operations below raise, all
    of them subclasses of [Exception], and the three built-in classes that
    derive from [BaseException] without deriving from [Exception]. *)
Inductive exn_class :=
  | AttributeError | TypeError | KeyError | ValueError
  | KeyboardInterrupt | SystemExit | GeneratorExit.

(** [isinstance(e, Exception)] for an exception of class [c]: what an
    [except Exception] clause catches. *)
Definition is_Exception (c : exn_class) : bool :=
  match c with
  | AttributeError | TypeError | KeyError | ValueError => true
  | KeyboardInterrupt | SystemExit | GeneratorExit => false
  end.

Record exn := Exn { exn_kind : exn_class; exn_msg : string }.

(** [str(e)] *)
Definition str_exn (e : exn) : string := exn_msg e.

Inductive res (A : Type) :=
  | Ok (a : A)
  | Raise (e : exn).
Arguments Ok {A} a.
Arguments Raise {A} e.

(** Code that only reads the store. *)
Definition res_bind {A B} (m : res A) (k : A -> res B) : res B :=
  match m with
  | Ok a => k a
  | Raise e => Raise e
  end.

(** Code that may write the store; the writes made before an exception
    stay in the store. *)
Definition M (A : Type) : Type := heap -> res A * heap.

Definition ret {A} (a : A) : M A := fun h => (Ok a, h).
Definition throw {A} (e : exn) : M A := fun h => (Raise e, h).
Definition bind {A B} (m : M A) (k : A -> M B) : M B :=
  fun h => match m h with
           | (Ok a, h') => k a h'
           | (Raise e, h') => (Raise e, h')
           end.
(** Run a reader in the current store. *)
Definition read {A} (r : heap -> res A) : M A := fun h => (r h, h).

Declare Scope res_scope.
Declare Scope M_scope.
Delimit Scope res_scope with res.
Delimit Scope M_scope with M.
Notation "'let*' x ':=' m 'in' k" := (res_bind m (fun x => k))
  (at level 10, x name, m at level 100, k at level 200,
   only parsing) : res_scope.
Notation "'let*' x ':=' m 'in' k" := (bind m (fun x => k))
  (at level 10, x name, m at level 100, k at level 200,
   only parsing) : M_scope.
Notation "'let*' ' p ':=' m 'in' k" :=
  (bind m (fun x => match x with p => k end))
  (at level 10, p pattern, m at level 100, k at level 200,
   only parsing) : M_scope.

(** ** Python primitives on values *)

Definition type_name (h : heap) (v : val) : string :=
  match v with
  | VNone => "NoneType"
  | VBool _ => "bool"
  | VInt _ => "int"
  | VStr _ => "str"
  | VRef l => match h !! l with
              | Some (ODict _) => "dict"
              | Some (OList _) => "list"
              | None => "object"
              end
  end.

Definition no_attribute (h : heap) (v : val) (attr : string) : exn :=
  Exn AttributeError
      ("'" ++ type_name h v ++ "' object has no attribute '" ++ attr ++ "'").

(** The dictionary behind a value, when it is one. *)
Definition as_dict (h : heap) (v : val) : option (gmap string val) :=
  match v with
  | VRef l => match h !! l with
              | Some (ODict d) => Some d
              | _ => None
              end
  | _ => None
  end.

(** [recv.get(k)] before a default is applied: only dictionaries have
    the method. *)
Definition get (h : heap) (recv : val) (k : string) : res (option val) :=
  match as_dict h recv with
  | Some d => Ok (d !! k)
  | None => Raise (no_attribute h recv "get")
  end.

(** [recv.get(k, dflt)] for an immediate default ([recv.get(k)] is
    [get_or h recv k VNone]). *)
Definition get_or (h : heap) (recv : val) (k : string) (dflt : val) : res val :=
  (let* o := get h recv k in Ok (default dflt o))%res.

(** [recv.get(k, {})] and [recv.get(k, [])] in code that only reads the
    result: [None] stands for the fresh empty container that was passed
    as the default and is reachable from nowhere else. *)
Definition get_new (h : heap) (recv : val) (k : string) : res (option val) :=
  get h recv k.

(** [sub.get(k, dflt)] where [sub] came from [get_new]. *)
Definition sub_get_or (h : heap) (sub : option val) (k : string) (dflt : val)
  : res val :=
  match sub with
  | Some v => get_or h v k dflt
  | None => Ok dflt
  end.

(** Truth value of an object ([not x] is its negation). *)
Definition truthy (h : heap) (v : val) : bool :=
  match v with
  | VNone => false
  | VBool b => b
  | VInt n => negb (n =? 0)
  | VStr s => negb (String.eqb s "")
  | VRef l => match h !! l with
              | Some (ODict d) => negb (bool_decide (d = ∅))
              | Some (OList xs) => negb (bool_decide (xs = []))
              | None => false
              end
  end.

(** [v == s] for a string literal [s]. *)
Definition eq_str (v : val) (s : string) : bool :=
  match v with
  | VStr s' => String.eqb s' s
  | _ => false
  end.

(** [v in (s1, ..., sn)] for a tuple of string literals. *)
Definition in_strs (v : val) (ss : list string) : bool :=
  existsb (eq_str v) ss.
Arguments in_strs : simpl never.

Fixpoint chars (s : string) : list val :=
  match s with
  | EmptyString => []
  | String c s' => VStr (String c EmptyString) :: chars s'
  end.

Definition not_iterable (h : heap) (v : val) : exn :=
  Exn TypeError ("'" ++ type_name h v ++ "' object is not iterable").

(** The elements [for x in v] goes through: the items of a list, the keys
    of a dictionary (in the order of the map, not of insertion), the
    characters of a string. *)
Definition iter (h : heap) (v : val) : res (list val) :=
  match v with
  | VStr s => Ok (chars s)
  | VRef l => match h !! l with
              | Some (OList xs) => Ok xs
              | Some (ODict d) => Ok (VStr <$> (map_to_list d).*1)
              | None => Raise (not_iterable h v)
              end
  | _ => Raise (not_iterable h v)
  end.

Definition iter_sub (h : heap) (sub : option val) : res (list val) :=
  match sub with
  | Some v => iter h v
  | None => Ok []
  end.

(** [s in v] for a string literal [s]: an equal item of a list, a key of a
    dictionary, a substring of a string. *)
Definition contains (h : heap) (v : val) (s : string) : res bool :=
  match v with
  | VStr t => Ok (match String.index 0 s t with
                  | Some _ => true
                  | None => false
                  end)
  | VRef l => match h !! l with
              | Some (OList xs) => Ok (existsb (fun x => eq_str x s) xs)
              | Some (ODict d) => Ok (bool_decide (is_Some (d !! s)))
              | None =>
                  Raise (Exn TypeError ("argument of type '" ++ type_name h v
                                        ++ "' is not iterable"))
              end
  | _ => Raise (Exn TypeError ("argument of type '" ++ type_name h v
                               ++ "' is not iterable"))
  end.

Definition contains_sub (h : heap) (sub : option val) (s : string) : res bool :=
  match sub with
  | Some v => contains h v s
  | None => Ok false
  end.

(** ** Policy check functions ([policy_kb.py], lines 28-102)

    Each returns [true] when the policy passes.  A Python [a and b]
    evaluates [b] only when [a] is true, so the lookup in [b] can only
    raise then. *)

Section Checks.
Local Open Scope res_scope.

Definition check_vpc_isolation (h : heap) (manifest : val) : res bool :=
  let* sensitivity := get_or h manifest "detected_sensitivity" (VStr "public") in
  let* networking := get_new h manifest "networking" in
  let* failing :=
    if in_strs sensitivity ["PHI"; "PII"] then
      let* vpc := sub_get_or h networking "vpc_enabled" (VBool false) in
      Ok (negb (truthy h vpc))
    else Ok false in
  if failing then Ok false else Ok true.

(** [any(s.get("role") == "database" for s in services)]: stops at the
    first database service. *)
Fixpoint any_database (h : heap) (services : list val) : res bool :=
  match services with
  | [] => Ok false
  | s :: rest =>
      let* role := get_or h s "role" VNone in
      if eq_str role "database" then Ok true else any_database h rest
  end.

Definition check_encryption_at_rest (h : heap) (manifest : val) : res bool :=
  let* security := get_new h manifest "security_config" in
  let* services := get_new h manifest "services" in
  let* items := iter_sub h services in
  let* has_db := any_database h items in
  let* failing :=
    if has_db then
      let* enc := sub_get_or h security "encryption_at_rest" (VBool false) in
      Ok (negb (truthy h enc))
    else Ok false in
  if failing then Ok false else Ok true.

Definition check_encryption_in_transit (h : heap) (manifest : val) : res bool :=
  let* security := get_new h manifest "security_config" in
  let* enc := sub_get_or h security "encryption_in_transit" (VBool false) in
  if negb (truthy h enc) then Ok false else Ok true.

Definition check_audit_logging_for_phi (h : heap) (manifest : val) : res bool :=
  let* sensitivity := get_or h manifest "detected_sensitivity" (VStr "public") in
  let* security := get_new h manifest "security_config" in
  let* failing :=
    if eq_str sensitivity "PHI" then
      let* logging := sub_get_or h security "audit_logging" (VBool false) in
      Ok (negb (truthy h logging))
    else Ok false in
  if failing then Ok false else Ok true.

Definition check_private_endpoints (h : heap) (manifest : val) : res bool :=
  let* sensitivity := get_or h manifest "detected_sensitivity" (VStr "public") in
  let* networking := get_new h manifest "networking" in
  let* failing :=
    if in_strs sensitivity ["PHI"; "PCI"] then
      let* pe := sub_get_or h networking "private_endpoints" (VBool false) in
      Ok (negb (truthy h pe))
    else Ok false in
  if failing then Ok false else Ok true.

Definition check_no_public_api_for_sensitive_data (h : heap) (manifest : val)
  : res bool :=
  let* sensitivity := get_or h manifest "detected_sensitivity" (VStr "public") in
  let* networking := get_new h manifest "networking" in
  if in_strs sensitivity ["PHI"; "PII"; "PCI"] then
    let* vpc := sub_get_or h networking "vpc_enabled" (VBool false) in
    if negb (truthy h vpc) then Ok false
    else
      let* subnet := sub_get_or h networking "subnet_isolation" (VBool false) in
      if negb (truthy h subnet) then Ok false else Ok true
  else Ok true.

Definition check_iam_policies_present (h : heap) (manifest : val) : res bool :=
  let* sensitivity := get_or h manifest "detected_sensitivity" (VStr "public") in
  let* security := get_new h manifest "security_config" in
  let* failing :=
    if in_strs sensitivity ["PHI"; "PCI"] then
      let* iam := sub_get_or h security "iam_policies" (VBool false) in
      Ok (negb (truthy h iam))
    else Ok false in
  if failing then Ok false else Ok true.

(** The loop of [check_region_compliance]: the first database service
    outside the EU regions makes the check fail. *)
Fixpoint region_loop (h : heap) (services : list val) : res bool :=
  match services with
  | [] => Ok true
  | svc :: rest =>
      let* role := get_or h svc "role" VNone in
      let* outside :=
        if eq_str role "database" then
          let* region := get_or h svc "region" (VStr "") in
          Ok (negb (in_strs region ["eu-gb"; "eu-de"; "eu-fr"]))
        else Ok false in
      if outside then Ok false else region_loop h rest
  end.

Definition check_region_compliance (h : heap) (manifest : val) : res bool :=
  let* frameworks := get_new h manifest "applicable_frameworks" in
  let* services := get_new h manifest "services" in
  let* gdpr := contains_sub h frameworks "GDPR" in
  if gdpr then
    let* items := iter_sub h services in
    region_loop h items
  else Ok true.

End Checks.

(** ** Writing the store *)

Definition not_subscriptable (h : heap) (v : val) : exn :=
  Exn TypeError ("'" ++ type_name h v ++ "' object is not subscriptable").

(** [recv[k]] for a string key. *)
Definition getitem (h : heap) (recv : val) (k : string) : res val :=
  match recv with
  | VStr _ => Raise (Exn TypeError "string indices must be integers, not 'str'")
  | VRef l => match h !! l with
              | Some (ODict d) =>
                  match d !! k with
                  | Some v => Ok v
                  | None => Raise (Exn KeyError ("'" ++ k ++ "'"))
                  end
              | Some (OList _) =>
                  Raise (Exn TypeError
                             "list indices must be integers or slices, not str")
              | None => Raise (not_subscriptable h recv)
              end
  | _ => Raise (not_subscriptable h recv)
  end.

Definition no_item_assignment (h : heap) (v : val) : exn :=
  Exn TypeError
      ("'" ++ type_name h v ++ "' object does not support item assignment").

(** [recv[k] = v] for a string key: the dictionary at [recv] is updated
    in place, so every holder of the reference sees the new entry. *)
Definition setitem (recv : val) (k : string) (v : val) : M unit :=
  fun h =>
    match recv with
    | VRef l => match h !! l with
                | Some (ODict d) => (Ok tt, <[l := ODict (<[k := v]> d)]> h)
                | Some (OList _) =>
                    (Raise (Exn TypeError
                                "list indices must be integers or slices, not str"),
                     h)
                | None => (Raise (no_item_assignment h recv), h)
                end
    | _ => (Raise (no_item_assignment h recv), h)
    end.

(** [x = {}]: a new empty dictionary. *)
Definition new_dict (d : gmap string val) : M val :=
  fun h => (Ok (VRef (length h)), (h ++ [ODict d])%list).

Definition new_list (xs : list val) : M val :=
  fun h => (Ok (VRef (length h)), (h ++ [OList xs])%list).

(** [recv.setdefault(k, {})]: the fresh dictionary is stored under [k]
    only when [k] is absent. *)
Definition setdefault_dict (recv : val) (k : string) : M unit :=
  fun h =>
    match as_dict h recv with
    | Some d =>
        match d !! k with
        | Some _ => (Ok tt, h)
        | None => bind (new_dict ∅) (fun fresh => setitem recv k fresh) h
        end
    | None => (Raise (no_attribute h recv "setdefault"), h)
    end.

(** [recv[k1][k2] = v] *)
Definition setitem2 (recv : val) (k1 k2 : string) (v : val) : M unit :=
  (let* sub := read (fun h => getitem h recv k1) in setitem sub k2 v)%M.

(** ** Auto-correction functions ([policy_kb.py], lines 109-164) *)

Section Corrections.
Local Open Scope M_scope.

Definition correct_vpc_isolation (manifest : val) : M val :=
  let* _ := setdefault_dict manifest "networking" in
  let* _ := setitem2 manifest "networking" "vpc_enabled" (VBool true) in
  let* _ := setitem2 manifest "networking" "subnet_isolation" (VBool true) in
  let* _ := setitem2 manifest "networking" "private_endpoints" (VBool true) in
  ret manifest.

(** The loop of [correct_encryption_at_rest]. *)
Fixpoint upgrade_plans (services : list val) : M unit :=
  match services with
  | [] => ret tt
  | svc :: rest =>
      let* role := read (fun h => get_or h svc "role" VNone) in
      let* _ := if eq_str role "database"
                then setitem svc "plan" (VStr "dedicated")
                else ret tt in
      upgrade_plans rest
  end.

Definition correct_encryption_at_rest (manifest : val) : M val :=
  let* _ := setdefault_dict manifest "security_config" in
  let* _ := setitem2 manifest "security_config" "encryption_at_rest" (VBool true) in
  let* sensitivity := read (fun h => get_or h manifest "detected_sensitivity" VNone) in
  let* _ :=
    if eq_str sensitivity "PHI" then
      let* services := read (fun h => get_new h manifest "services") in
      let* items := read (fun h => iter_sub h services) in
      upgrade_plans items
    else ret tt in
  ret manifest.

Definition correct_encryption_in_transit (manifest : val) : M val :=
  let* _ := setdefault_dict manifest "security_config" in
  let* _ := setitem2 manifest "security_config" "encryption_in_transit" (VBool true) in
  ret manifest.

Definition correct_audit_logging (manifest : val) : M val :=
  let* _ := setdefault_dict manifest "security_config" in
  let* _ := setitem2 manifest "security_config" "audit_logging" (VBool true) in
  ret manifest.

Definition correct_private_endpoints (manifest : val) : M val :=
  let* _ := setdefault_dict manifest "networking" in
  let* _ := setitem2 manifest "networking" "private_endpoints" (VBool true) in
  ret manifest.

Definition correct_public_api_exposure (manifest : val) : M val :=
  let* _ := setdefault_dict manifest "networking" in
  let* _ := setitem2 manifest "networking" "vpc_enabled" (VBool true) in
  let* _ := setitem2 manifest "networking" "subnet_isolation" (VBool true) in
  let* _ := setitem2 manifest "networking" "private_endpoints" (VBool true) in
  ret manifest.

Definition correct_iam_policies (manifest : val) : M val :=
  let* _ := setdefault_dict manifest "security_config" in
  let* _ := setitem2 manifest "security_config" "iam_policies" (VBool true) in
  ret manifest.

(** The loop of [correct_region_gdpr]. *)
Fixpoint move_to_eu (services : list val) : M unit :=
  match services with
  | [] => ret tt
  | svc :: rest =>
      let* role := read (fun h => get_or h svc "role" VNone) in
      let* _ := if eq_str role "database"
                then setitem svc "region" (VStr "eu-gb")
                else ret tt in
      move_to_eu rest
  end.

Definition correct_region_gdpr (manifest : val) : M val :=
  let* services := read (fun h => get_new h manifest "services") in
  let* items := read (fun h => iter_sub h services) in
  let* _ := move_to_eu items in
  ret manifest.

End Corrections.

(** ** The policy knowledge base ([policy_kb.py], lines 11-252) *)

Record GovernancePolicy := {
  policy_id : string;
  policy_name : string;
  framework : string;
  severity : string;
  description : string;
  check_fn : heap -> val -> res bool;
  correction_fn : val -> M val;
  correction_description : string;
}.

Definition POL_HIPAA_001 : GovernancePolicy := {|
  policy_id := "POL-HIPAA-001";
  policy_name := "Database VPC Isolation Required";
  framework := "HIPAA";
  severity := "critical";
  description := "All PHI data stores must be isolated within a Virtual Private Cloud with private endpoints only. Public access is strictly prohibited.";
  check_fn := check_vpc_isolation;
  correction_fn := correct_vpc_isolation;
  correction_description := "Enabled VPC isolation and configured private endpoints for all database services."
|}.

Definition POL_HIPAA_002 : GovernancePolicy := {|
  policy_id := "POL-HIPAA-002";
  policy_name := "Encryption at Rest Required for PHI";
  framework := "HIPAA";
  severity := "critical";
  description := "All Protected Health Information must be encrypted at rest using AES-256 or equivalent. Database plan must be 'dedicated' tier minimum.";
  check_fn := check_encryption_at_rest;
  correction_fn := correct_encryption_at_rest;
  correction_description := "Enabled encryption at rest and upgraded database to dedicated tier for PHI compliance."
|}.

Definition POL_HIPAA_003 : GovernancePolicy := {|
  policy_id := "POL-HIPAA-003";
  policy_name := "Audit Logging Required for PHI Access";
  framework := "HIPAA";
  severity := "critical";
  description := "All access to PHI must be logged for audit trail compliance. Logging must be enabled at the infrastructure level.";
  check_fn := check_audit_logging_for_phi;
  correction_fn := correct_audit_logging;
  correction_description := "Enabled infrastructure-level audit logging for all PHI access points."
|}.

Definition POL_IBM_001 : GovernancePolicy := {|
  policy_id := "POL-IBM-001";
  policy_name := "Encryption in Transit Required";
  framework := "IBM_BASELINE";
  severity := "critical";
  description := "All data in transit between services must be encrypted using TLS 1.2 or higher. This is a baseline requirement for all IBM Cloud deployments.";
  check_fn := check_encryption_in_transit;
  correction_fn := correct_encryption_in_transit;
  correction_description := "Enabled TLS encryption for all service-to-service communication."
|}.

Definition POL_IBM_002 : GovernancePolicy := {|
  policy_id := "POL-IBM-002";
  policy_name := "Private Endpoints for Sensitive Data";
  framework := "IBM_BASELINE";
  severity := "warning";
  description := "Services handling sensitive data (PHI, PCI, PII) should use private endpoints to avoid routing traffic over the public internet.";
  check_fn := check_private_endpoints;
  correction_fn := correct_private_endpoints;
  correction_description := "Configured private endpoints for all sensitive data services."
|}.

Definition POL_SEC_001 : GovernancePolicy := {|
  policy_id := "POL-SEC-001";
  policy_name := "No Public API Exposure for Sensitive Data";
  framework := "IBM_BASELINE";
  severity := "critical";
  description := "Services processing PHI, PII, or PCI data must not be publicly accessible. VPC and subnet isolation are mandatory.";
  check_fn := check_no_public_api_for_sensitive_data;
  correction_fn := correct_public_api_exposure;
  correction_description := "Enabled VPC isolation and subnet segregation to prevent public API exposure."
|}.

Definition POL_SEC_002 : GovernancePolicy := {|
  policy_id := "POL-SEC-002";
  policy_name := "IAM Policies Required for Enterprise Workloads";
  framework := "IBM_BASELINE";
  severity := "warning";
  description := "Enterprise workloads handling regulated data must have explicit IAM policies defined for role-based access control.";
  check_fn := check_iam_policies_present;
  correction_fn := correct_iam_policies;
  correction_description := "Added IAM role-based access control policies for all regulated data services."
|}.

Definition POL_GDPR_001 : GovernancePolicy := {|
  policy_id := "POL-GDPR-001";
  policy_name := "EU Data Residency for GDPR";
  framework := "GDPR";
  severity := "critical";
  description := "Data subject to GDPR must be stored and processed within EU regions only. Acceptable regions: eu-gb, eu-de, eu-fr.";
  check_fn := check_region_compliance;
  correction_fn := correct_region_gdpr;
  correction_description := "Migrated all database services to EU region (eu-gb) for GDPR compliance."
|}.

Definition POLICY_KNOWLEDGE_BASE : list GovernancePolicy :=
  [ POL_HIPAA_001; POL_HIPAA_002; POL_HIPAA_003;
    POL_IBM_001; POL_IBM_002; POL_SEC_001; POL_SEC_002;
    POL_GDPR_001 ].

(** ** The framework selector ([policy_kb.py], lines 255-268) *)

(** [frameworks_set = set(frameworks); frameworks_set.add("IBM_BASELINE")],
    then one pass over the registry appending the relevant policies. *)
Definition get_policies_for_frameworks (frameworks : list string)
  : list GovernancePolicy :=
  let frameworks_set : gset string := list_to_set frameworks in
  let frameworks_set := frameworks_set ∪ {["IBM_BASELINE"]} in
  foldl (fun relevant policy =>
           if bool_decide (framework policy ∈ frameworks_set)
           then (relevant ++ [policy])%list
           else relevant)
        [] POLICY_KNOWLEDGE_BASE.

(** ** The schema records used by the guardrail

    [governance_agent.py] imports its result types from [models/schemas.py].
    Their constructors are taken as record builders: a field keeps the
    value it is given. *)

(** Modelled from the spec: the [SeverityLevel] enumeration of
    [models/schemas.py], with the three severities of the data model
    (critical, warning, info) as its values. *)
Inductive SeverityLevel := CRITICAL | WARNING | INFO.

#[global] Instance SeverityLevel_eq_dec : EqDecision SeverityLevel.
Proof. solve_decision. Defined.

(** [SeverityLevel(s)]: the member whose value is [s], a [ValueError]
    when there is none. *)
Definition SeverityLevel_of (s : string) : res SeverityLevel :=
  if String.eqb s "critical" then Ok CRITICAL
  else if String.eqb s "warning" then Ok WARNING
  else if String.eqb s "info" then Ok INFO
  else Raise (Exn ValueError ("'" ++ s ++ "' is not a valid SeverityLevel")).

(** Modelled from the spec: the [StageStatus] enumeration of
    [models/schemas.py], restricted to the three statuses this stage
    produces. *)
Inductive StageStatus := PASSED | CORRECTED | FAILED.

(** What the stage takes from its surroundings: the values of the
    [ComplianceFramework] enumeration of [models/schemas.py], the model
    name [watsonx.MODEL_INSTRUCT], and the two readings of [time.time()]
    (in seconds, as the doubles Python has: a sign, a mantissa and a
    binary exponent), at entry and when the result is built. *)
Record env := {
  ComplianceFramework_values : list string;
  MODEL_INSTRUCT : string;
  start_time : spec_float;
  end_time : spec_float;
}.

(** [ComplianceFramework(s)] *)
Definition ComplianceFramework_of (E : env) (s : string) : res string :=
  if bool_decide (s ∈ ComplianceFramework_values E) then Ok s
  else Raise (Exn ValueError ("'" ++ s ++ "' is not a valid ComplianceFramework")).

Record PolicyViolation := {
  v_policy_id : string;
  v_policy_name : string;
  v_severity : SeverityLevel;
  v_framework : string;
  v_description : string;
  detected_issue : string;
  auto_correction : option string;
}.

Record IBMCloudService := {
  service_name : val;
  service_id : val;
  role : val;
  region : val;
  plan : val;
}.

Record ArchitectureManifest := {
  project_name : val;
  m_description : val;
  services : list IBMCloudService;
  networking : val;
  security_config : val;
  estimated_monthly_cost : val;
  diagram_ascii : val;
}.

Record GovernanceReport := {
  status : StageStatus;
  violations_found : list PolicyViolation;
  violations_corrected : list PolicyViolation;
  final_compliance_score : Z;
  applicable_frameworks : list string;
  corrected_manifest : ArchitectureManifest;
  model_used : string;
  tokens_used : Z;
}.

Record StageResult := {
  stage_id : Z;
  stage_name : string;
  stage_status : StageStatus;
  duration_ms : Z;
  result : option GovernanceReport;
  error : option string;
}.

(** ** The guardrail stage ([governance_agent.py]) *)

(** Subtraction and multiplication of doubles: the exact result rounded
    to binary64 (53 bits of precision), to nearest, ties to even. *)
Definition double_sub : spec_float -> spec_float -> spec_float := SFsub 53 1024.
Definition double_mul : spec_float -> spec_float -> spec_float := SFmul 53 1024.

(** [int(x)] for a double: truncation towards zero.  A finite double is
    [m * 2^e] with a sign; [time.time()] gives finite readings, and the
    infinities and NaN, on which [int] raises, are given 0. *)
Definition py_int (x : spec_float) : Z :=
  match x with
  | S754_finite negative m e =>
      let magnitude := if 0 <=? e then Z.pos m * 2 ^ e
                       else Z.pos m / 2 ^ (- e) in
      if negative then - magnitude else magnitude
  | _ => 0
  end.

(** [int((time.time() - start_time) * 1000)], in double arithmetic;
    1000 is [125 * 2^3]. *)
Definition elapsed_ms (E : env) : Z :=
  py_int (double_mul (double_sub (end_time E) (start_time E))
                     (S754_finite false 125 3)).

(** [{**manifest_data}]: the entries of a mapping. *)
Definition unpack (h : heap) (sub : option val) : res (gmap string val) :=
  match sub with
  | None => Ok ∅
  | Some v => match as_dict h v with
              | Some d => Ok d
              | None => Raise (Exn TypeError
                                   ("'" ++ type_name h v ++ "' object is not a mapping"))
              end
  end.

(** [recv.copy()]: a new dictionary with the same entries; the values,
    references included, are shared with the original. *)
Definition dict_copy (recv : val) : M val :=
  fun h => match as_dict h recv with
           | Some d => new_dict d h
           | None => (Raise (no_attribute h recv "copy"), h)
           end.

(** [recv.get(k, {})] where the result is kept. *)
Definition get_or_new_dict (recv : val) (k : string) : M val :=
  (let* o := read (fun h => get h recv k) in
   match o with
   | Some v => ret v
   | None => new_dict ∅
   end)%M.

(** The strings among the members of [set(v)]; building the set needs
    every element to be hashable, which dictionaries and lists are not. *)
Fixpoint hashable_strings (h : heap) (items : list val) : res (list string) :=
  match items with
  | [] => Ok []
  | x :: rest =>
      match x with
      | VRef _ => Raise (Exn TypeError ("unhashable type: '" ++ type_name h x ++ "'"))
      | VStr s => (let* ss := hashable_strings h rest in Ok (s :: ss))%res
      | _ => hashable_strings h rest
      end
  end.

(** [get_policies_for_frameworks(frameworks)] called on whatever value
    the intent result holds. *)
Definition select_policies (h : heap) (frameworks : val)
  : res (list GovernancePolicy) :=
  (let* items := iter h frameworks in
   let* names := hashable_strings h items in
   Ok (get_policies_for_frameworks names))%res.

Definition make_violation (E : env) (policy : GovernancePolicy)
  : res PolicyViolation :=
  (let* sev := SeverityLevel_of (severity policy) in
   let* fw := ComplianceFramework_of E (framework policy) in
   Ok {| v_policy_id := policy_id policy;
         v_policy_name := policy_name policy;
         v_severity := sev;
         v_framework := fw;
         v_description := description policy;
         detected_issue := "Policy '" ++ policy_name policy
                           ++ "' failed validation on the proposed architecture.";
         auto_correction := None |})%res.

(** Audit pass 1 (lines 64-79): the violations, in policy order. *)
Fixpoint audit_pass (E : env) (h : heap) (audit_manifest : val)
    (policies : list GovernancePolicy) : res (list PolicyViolation) :=
  match policies with
  | [] => Ok []
  | policy :: rest =>
      (let* passed := check_fn policy h audit_manifest in
       if negb passed then
         let* violation := make_violation E policy in
         let* found := audit_pass E h audit_manifest rest in
         Ok (violation :: found)
       else audit_pass E h audit_manifest rest)%res
  end.

(** [next((p for p in policies if p.policy_id == id), None)] *)
Definition matching (policies : list GovernancePolicy) (id : string)
  : option GovernancePolicy :=
  find (fun p => String.eqb (policy_id p) id) policies.

(** The correction loop (lines 88-102): the working manifest after the
    corrections, and the corrected violations. *)
Fixpoint correction_pass (policies : list GovernancePolicy)
    (found : list PolicyViolation) (corrected_manifest : val)
  : M (val * list PolicyViolation) :=
  match found with
  | [] => ret (corrected_manifest, [])
  | violation :: rest =>
      match matching policies (v_policy_id violation) with
      | Some matching_policy =>
          (let* corrected_manifest :=
             correction_fn matching_policy corrected_manifest in
           let corrected_violation :=
             {| v_policy_id := v_policy_id violation;
                v_policy_name := v_policy_name violation;
                v_severity := v_severity violation;
                v_framework := v_framework violation;
                v_description := v_description violation;
                detected_issue := detected_issue violation;
                auto_correction :=
                  Some (correction_description matching_policy) |} in
           let* '(final, corrected) :=
             correction_pass policies rest corrected_manifest in
           ret (final, corrected_violation :: corrected))%M
      | None => correction_pass policies rest corrected_manifest
      end
  end.

(** Audit pass 2 (lines 106-110): the ids of the policies still failing. *)
Fixpoint revalidate (h : heap) (corrected_manifest : val)
    (policies : list GovernancePolicy) : res (list string) :=
  match policies with
  | [] => Ok []
  | policy :: rest =>
      (let* passed := check_fn policy h corrected_manifest in
       let* remaining := revalidate h corrected_manifest rest in
       Ok (if negb passed then policy_id policy :: remaining else remaining))%res
  end.

(** Lines 117-126. *)
Fixpoint build_services (h : heap) (items : list val) : res (list IBMCloudService) :=
  match items with
  | [] => Ok []
  | svc :: rest =>
      (let* name := get_or h svc "service_name" (VStr "Unknown") in
       let* id := get_or h svc "service_id" (VStr "unknown") in
       let* ro := get_or h svc "role" (VStr "hosting") in
       let* re := get_or h svc "region" (VStr "us-south") in
       let* pl := get_or h svc "plan" (VStr "standard") in
       let* others := build_services h rest in
       Ok ({| service_name := name; service_id := id; role := ro;
              region := re; plan := pl |} :: others))%res
  end.

(** [sum(1 for v in violations if v.severity == s)] *)
Definition count_severity (s : SeverityLevel) (violations : list PolicyViolation) : Z :=
  Z.of_nat (length (filter (fun v => v_severity v = s) violations)).

(** Lines 139-150.  The scores are the floats 100.0, 40.0 and
    [max(60.0, 100.0 - 8c - 3w)]; all are whole numbers far below 2^53,
    where float arithmetic is exact, so they are integers here. *)
Definition determine_status (found corrected : list PolicyViolation)
  : StageStatus * Z :=
  match found with
  | [] => (PASSED, 100)
  | _ :: _ =>
      if (length corrected =? length found)%nat then
        let critical_count := count_severity CRITICAL found in
        let warning_count := count_severity WARNING found in
        (CORRECTED, Z.max 60 (100 - critical_count * 8 - warning_count * 3))
      else (FAILED, 40)
  end.

(** [[ComplianceFramework(f) for f in frameworks if f in values]] *)
Fixpoint recognized_frameworks (E : env) (items : list val) : list string :=
  match items with
  | [] => []
  | VStr s :: rest =>
      if bool_decide (s ∈ ComplianceFramework_values E)
      then s :: recognized_frameworks E rest
      else recognized_frameworks E rest
  | _ :: rest => recognized_frameworks E rest
  end.

Section Guardrail.
Local Open Scope M_scope.

(** Lines 81-162: everything after pass 1.  Besides the report, the
    result carries the local [remaining_violations], which the source
    only logs; it is [None] when there was no violation and pass 2 is
    skipped. *)
Definition correct_and_report (E : env) (manifest_data : option val)
    (frameworks audit_manifest : val) (policies : list GovernancePolicy)
    (found : list PolicyViolation)
  : M (GovernanceReport * option (list string)) :=
  let* corrected_manifest := dict_copy audit_manifest in
  let* '(corrected_manifest, corrected, remaining) :=
    match found with
    | [] => ret (corrected_manifest, [], None)
    | _ :: _ =>
        let* '(final, corrected) :=
          correction_pass policies found corrected_manifest in
        let* remaining := read (fun h => revalidate h final policies) in
        ret (final, corrected, Some remaining)
    end in
  let* svcs := read (fun h => get_new h corrected_manifest "services") in
  let* items := read (fun h => iter_sub h svcs) in
  let* corrected_services := read (fun h => build_services h items) in
  let* pname := read (fun h => get_or h corrected_manifest "project_name"
                                      (VStr "trustbuild-app")) in
  let* descr := read (fun h => get_or h corrected_manifest "description" (VStr "")) in
  let* net := get_or_new_dict corrected_manifest "networking" in
  let* sec := get_or_new_dict corrected_manifest "security_config" in
  let* cost := read (fun h => get_or h corrected_manifest
                                     "estimated_monthly_cost" VNone) in
  let* diagram := read (fun h => sub_get_or h manifest_data "diagram_ascii" VNone) in
  let final_manifest :=
    {| project_name := pname; m_description := descr;
       services := corrected_services; networking := net;
       security_config := sec; estimated_monthly_cost := cost;
       diagram_ascii := diagram |} in
  let '(st, compliance_score) := determine_status found corrected in
  let* fws := read (fun h => iter h frameworks) in
  ret ({| status := st;
          violations_found := found;
          violations_corrected := corrected;
          final_compliance_score := compliance_score;
          applicable_frameworks := recognized_frameworks E fws;
          corrected_manifest := final_manifest;
          model_used := MODEL_INSTRUCT E;
          tokens_used := Z.of_nat (length policies) * 50 |},
       remaining).

(** The body of the [try] block (lines 47-162). *)
Definition guardrail_body (E : env) (architect_result intent_result : val)
  : M (GovernanceReport * option (list string)) :=
  let* manifest_data := read (fun h => get_new h architect_result "manifest") in
  let* sensitivity := read (fun h => get_or h intent_result "detected_sensitivity"
                                            (VStr "public")) in
  let* asked := read (fun h => get h intent_result "applicable_frameworks") in
  let* frameworks := match asked with
                     | Some v => ret v
                     | None => new_list [VStr "IBM_BASELINE"]
                     end in
  let* entries := read (fun h => unpack h manifest_data) in
  let* audit_manifest :=
    new_dict (<["applicable_frameworks" := frameworks]>
                (<["detected_sensitivity" := sensitivity]> entries)) in
  let* policies := read (fun h => select_policies h frameworks) in
  let* found := read (fun h => audit_pass E h audit_manifest policies) in
  correct_and_report E manifest_data frameworks audit_manifest policies found.

(** The [try] statement of lines 46-189 with its clause
    [except Exception]: the handler is entered for an exception of class
    [Exception] or of a subclass, and any other exception leaves the
    function. *)
Definition guardrail_try (E : env) (architect_result intent_result : val)
  : M StageResult :=
  fun h =>
    match guardrail_body E architect_result intent_result h with
    | (Ok (report, _), h') =>
        (Ok {| stage_id := 3;
               stage_name := "Governance Guardrail";
               stage_status := status report;
               duration_ms := elapsed_ms E;
               result := Some report;
               error := None |}, h')
    | (Raise e, h') =>
        if is_Exception (exn_kind e) then
          (Ok {| stage_id := 3;
                 stage_name := "Governance Guardrail";
                 stage_status := FAILED;
                 duration_ms := elapsed_ms E;
                 result := None;
                 error := Some (str_exn e) |}, h')
        else (Raise e, h')
    end.

(** [run_governance_guardrail]: the [try] block and its handler. *)
Definition run_governance_guardrail (E : env) (architect_result intent_result : val)
  : heap -> StageResult * heap :=
  fun h =>
    match guardrail_body E architect_result intent_result h with
    | (Ok (report, _), h') =>
        ({| stage_id := 3;
            stage_name := "Governance Guardrail";
            stage_status := status report;
            duration_ms := elapsed_ms E;
            result := Some report;
            error := None |}, h')
    | (Raise e, h') =>
        ({| stage_id := 3;
            stage_name := "Governance Guardrail";
            stage_status := FAILED;
            duration_ms := elapsed_ms E;
            result := None;
            error := Some (str_exn e) |}, h')
    end.

End Guardrail.

(** ** How the corrections may change the store

    The corrections write a fixed set of keys: the seven control flags
    (always to [True]), [region] (to [eu-gb]) and [plan] (to
    [dedicated]) of a service, and the two blocks [networking] and
    [security_config], which [setdefault] fills in with a new dictionary
    when absent.  Lists are never written.  [evolves h h'] says that
    [h'] differs from [h] by such writes and by allocations only. *)

Definition flag_keys : list string :=
  ["vpc_enabled"; "subnet_isolation"; "private_endpoints";
   "encryption_at_rest"; "encryption_in_transit"; "audit_logging";
   "iam_policies"].

Definition block_keys : list string := ["networking"; "security_config"].

Definition is_dict (h : heap) (l : loc) : Prop := ∃ d, h !! l = Some (ODict d).

Definition key_evolves (h' : heap) (d d' : gmap string val) (k : string) : Prop :=
  d' !! k = d !! k
  ∨ (k ∈ flag_keys ∧ d' !! k = Some (VBool true))
  ∨ (k = "region" ∧ d' !! k = Some (VStr "eu-gb"))
  ∨ (k = "plan" ∧ d' !! k = Some (VStr "dedicated"))
  ∨ (k ∈ block_keys ∧ d !! k = None ∧ ∃ n, d' !! k = Some (VRef n) ∧ is_dict h' n).

Definition dict_evolves (h' : heap) (d d' : gmap string val) : Prop :=
  ∀ k, key_evolves h' d d' k.

Definition obj_evolves (h' : heap) (o o' : obj) : Prop :=
  match o, o' with
  | OList xs, OList xs' => xs' = xs
  | ODict d, ODict d' => dict_evolves h' d d'
  | _, _ => False
  end.

Definition evolves (h h' : heap) : Prop :=
  ∀ l o, h !! l = Some o → ∃ o', h' !! l = Some o' ∧ obj_evolves h' o o'.

(** A key no correction writes. *)
Definition stable_key (k : string) : bool :=
  bool_decide ((k ∉ flag_keys) ∧ (k ≠ "region") ∧ (k ≠ "plan") ∧ (k ∉ block_keys)).

(** A write the corrections make: a flag to [True], [region] to [eu-gb],
    [plan] to [dedicated]. *)
Definition write_ok (k : string) (v : val) : Prop :=
  (k ∈ flag_keys ∧ v = VBool true)
  ∨ (k = "region" ∧ v = VStr "eu-gb")
  ∨ (k = "plan" ∧ v = VStr "dedicated").

(** ** What each check looks for

    The conditions under which the checks pass, as properties of the
    store and of the entries [d] of the manifest. *)

(** The sensitivity the checks read. *)
Definition sens_of (d : gmap string val) : val :=
  default (VStr "public") (d !! "detected_sensitivity").

(** The manifest has a block [block] that is a dictionary in which
    [flag] holds a true value. *)
Definition flag_on (h : heap) (d : gmap string val) (block flag : string) : Prop :=
  ∃ n nd v, d !! block = Some n ∧ as_dict h n = Some nd
            ∧ nd !! flag = Some v ∧ truthy h v = true.

(** An item of the services that is a reference is a dictionary with
    property [P]. *)
Definition item_ok (P : gmap string val -> Prop) (h : heap) (v : val) : Prop :=
  match v with
  | VRef l => ∃ dv, h !! l = Some (ODict dv) ∧ P dv
  | _ => True
  end.

Definition services_ok (P : gmap string val -> Prop) (h : heap)
    (d : gmap string val) : Prop :=
  ∃ items, iter_sub h (d !! "services") = Ok items ∧ Forall (item_ok P h) items.

Definition is_database (dv : gmap string val) : bool :=
  eq_str (default VNone (dv !! "role")) "database".

Definition not_database (dv : gmap string val) : Prop := is_database dv = false.

Definition in_eu (dv : gmap string val) : Prop :=
  is_database dv = true →
  in_strs (default (VStr "") (dv !! "region")) ["eu-gb"; "eu-de"; "eu-fr"] = true.

(** For the five checks of one flag: the check does not apply to the
    sensitivity, or the flag is on. *)
Definition sat_flag (applies : val -> bool) (block flag : string)
    (h : heap) (d : gmap string val) : Prop :=
  applies (sens_of d) = false ∨ flag_on h d block flag.

Definition sat_public_api (h : heap) (d : gmap string val) : Prop :=
  in_strs (sens_of d) ["PHI"; "PII"; "PCI"] = false
  ∨ (flag_on h d "networking" "vpc_enabled"
     ∧ flag_on h d "networking" "subnet_isolation").

Definition sat_at_rest (h : heap) (d : gmap string val) : Prop :=
  services_ok not_database h d
  ∨ flag_on h d "security_config" "encryption_at_rest".

Definition sat_region (h : heap) (d : gmap string val) : Prop :=
  contains_sub h (d !! "applicable_frameworks") "GDPR" = Ok false
  ∨ services_ok in_eu h d.

(** A policy whose correction is sufficient and whose check is monotone:
    there is a condition [sat] that the check decides, that the store
    keeps under the writes of any correction, and that the policy's own
    correction establishes. *)
Record sound_policy (p : GovernancePolicy)
    (sat : heap -> gmap string val -> Prop) : Prop := {
  sat_of_pass : ∀ h m d,
    as_dict h m = Some d → check_fn p h m = Ok true → sat h d;
  sat_mono : ∀ h h' d d',
    evolves h h' → dict_evolves h' d d' → sat h d → sat h' d';
  pass_of_sat : ∀ h m d b,
    as_dict h m = Some d → sat h d → check_fn p h m = Ok b → b = true;
  sat_of_fix : ∀ h h' m r,
    correction_fn p m h = (Ok r, h') →
    r = m ∧ evolves h h' ∧ ∃ d', as_dict h' m = Some d' ∧ sat h' d';
}.

Definition correctable (p : GovernancePolicy) : Prop := ∃ sat, sound_policy p sat.

(** The common shape of the checks of one flag. *)
Definition flag_check (applies : val -> bool) (block flag : string)
    (h : heap) (manifest : val) : res bool :=
  (let* sensitivity := get_or h manifest "detected_sensitivity" (VStr "public") in
   let* sub := get_new h manifest block in
   let* failing :=
     if applies sensitivity then
       let* x := sub_get_or h sub flag (VBool false) in
       Ok (negb (truthy h x))
     else Ok false in
   if failing then Ok false else Ok true)%res.

(** A value that refers to a dictionary of the store. *)
Definition dict_ref (h : heap) (v : val) : Prop :=
  ∃ l dv, v = VRef l ∧ h !! l = Some (ODict dv).

(** The score of a fully corrected, non-empty list of violations. *)
Definition corrected_score (found : list PolicyViolation) : Z :=
  Z.max 60 (100 - count_severity CRITICAL found * 8
                - count_severity WARNING found * 3).

(** ** The shape of a manifest

    The manifest of the data model, as far as the checks and corrections
    look into it: the [networking] and [security_config] blocks, when
    present, are dictionaries; [services], when present, is a list of
    service dictionaries; [applicable_frameworks], when present, is a
    list.  Nothing is asked of the other entries, and any two of these
    objects may be one and the same. *)

Definition block_wf (h : heap) (o : option val) : Prop :=
  match o with
  | None => True
  | Some v => dict_ref h v
  end.

Definition services_wf (h : heap) (o : option val) : Prop :=
  match o with
  | None => True
  | Some v => ∃ s svcs, v = VRef s ∧ h !! s = Some (OList svcs)
                        ∧ Forall (dict_ref h) svcs
  end.

Definition frameworks_wf (h : heap) (o : option val) : Prop :=
  match o with
  | None => True
  | Some v => ∃ f fws, v = VRef f ∧ h !! f = Some (OList fws)
  end.

Definition manifest_wf (h : heap) (d : gmap string val) : Prop :=
  block_wf h (d !! "networking")
  ∧ block_wf h (d !! "security_config")
  ∧ services_wf h (d !! "services")
  ∧ frameworks_wf h (d !! "applicable_frameworks").

(** The [ComplianceFramework] enumeration has the frameworks the
    registry uses. *)
Definition frameworks_known (E : env) : Prop :=
  ∀ p, p ∈ POLICY_KNOWLEDGE_BASE → framework p ∈ ComplianceFramework_values E.

(** On a manifest of that shape the check and the correction of the
    policy return. *)
Definition total_policy (p : GovernancePolicy) : Prop :=
  (∀ h m d, h !! m = Some (ODict d) → manifest_wf h d →
            ∃ b, check_fn p h (VRef m) = Ok b)
  ∧ (∀ h m d, h !! m = Some (ODict d) → manifest_wf h d →
              ∃ h', correction_fn p (VRef m) h = (Ok (VRef m), h')).

(** ** Example data *)

(** An environment for the examples: the framework names of the
    registry's comment (HIPAA, SOC2, GDPR, IBM_BASELINE), and a call that
    takes an eighth of a second. *)
Definition example_env : env := {|
  ComplianceFramework_values := ["HIPAA"; "SOC2"; "GDPR"; "IBM_BASELINE"];
  MODEL_INSTRUCT := "ibm/granite-13b-instruct-v2";
  start_time := S754_finite false 5 1;
  end_time := S754_finite false 81 (-3);
|}.


(** The value of a computation that is known to return. *)
Definition res_get {A} (dflt : A) (r : res A) : A :=
  match r with
  | Ok a => a
  | Raise _ => dflt
  end.

(** A store with an architect result (0) whose manifest (1) has a
    networking block (2) without VPC, an empty security block (3) and one
    database service (5) in us-south, and an intent result (6) for PHI
    data under HIPAA and GDPR (7). *)
Definition example_heap : heap :=
  [ ODict {[ "manifest" := VRef 1%nat ]};
    ODict (list_to_map
             [("project_name", VStr "clinic-portal");
              ("description", VStr "Patient portal");
              ("services", VRef 4%nat);
              ("networking", VRef 2%nat);
              ("security_config", VRef 3%nat)]);
    ODict {[ "vpc_enabled" := VBool false ]};
    ODict ∅;
    OList [VRef 5%nat];
    ODict (list_to_map
             [("service_name", VStr "Databases for PostgreSQL");
              ("service_id", VStr "databases-for-postgresql");
              ("role", VStr "database");
              ("region", VStr "us-south");
              ("plan", VStr "standard")]);
    ODict (list_to_map
             [("detected_sensitivity", VStr "PHI");
              ("applicable_frameworks", VRef 7%nat)]);
    OList [VStr "HIPAA"; VStr "GDPR"] ].

Definition example_architect_result : val := VRef 0%nat.
Definition example_manifest : val := VRef 1%nat.
Definition example_intent_result : val := VRef 6%nat.

(** The same store with the audit manifest (8) the stage builds from
    the manifest and the intent result. *)
Definition example_audit_heap : heap :=
  (example_heap ++
   [ ODict (list_to_map
              [("project_name", VStr "clinic-portal");
               ("description", VStr "Patient portal");
               ("services", VRef 4%nat);
               ("networking", VRef 2%nat);
               ("security_config", VRef 3%nat);
               ("detected_sensitivity", VStr "PHI");
               ("applicable_frameworks", VRef 7%nat)]) ])%list.

Definition example_audit_manifest : val := VRef 8%nat.

Definition example_policies : list GovernancePolicy :=
  get_policies_for_frameworks ["HIPAA"; "GDPR"].

(** A report to stand for the result of a computation that raised. *)
Definition blank_report : GovernanceReport := {|
  status := FAILED;
  violations_found := [];
  violations_corrected := [];
  final_compliance_score := 0;
  applicable_frameworks := [];
  corrected_manifest :=
    {| project_name := VNone; m_description := VNone; services := [];
       networking := VNone; security_config := VNone;
       estimated_monthly_cost := VNone; diagram_ascii := VNone |};
  model_used := "";
  tokens_used := 0;
|}.

(** The violation pass 1 reports for the VPC-isolation policy. *)
Definition example_critical : PolicyViolation := {|
  v_policy_id := "POL-HIPAA-001";
  v_policy_name := "Database VPC Isolation Required";
  v_severity := CRITICAL;
  v_framework := "HIPAA";
  v_description := description POL_HIPAA_001;
  detected_issue := "Policy 'Database VPC Isolation Required' failed validation on the proposed architecture.";
  auto_correction := None;
|}.

(** A violation that names no policy of the registry. *)
Definition ghost_violation : PolicyViolation := {|
  v_policy_id := "POL-NONE-000";
  v_policy_name := "No such policy";
  v_severity := WARNING;
  v_framework := "IBM_BASELINE";
  v_description := "";
  detected_issue := "";
  auto_correction := None;
|}.

(** The example call, and its report. *)
Definition example_run : res (GovernanceReport * option (list string)) * heap :=
  guardrail_body example_env example_architect_result example_intent_result
    example_heap.

Definition example_report : GovernanceReport :=
  (res_get (blank_report, None) example_run.1).1.

(** The store the example call leaves behind. *)
Definition example_after : heap :=
  (run_governance_guardrail example_env example_architect_result
     example_intent_result example_heap).2.

(** A structural picture of what a value denotes in a store, to depth
    [fuel]: what Python's [==] compares. *)
Unset Elimination Schemes.
Inductive tree :=
  | TNone
  | TBool (b : bool)
  | TInt (n : Z)
  | TStr (s : string)
  | TDict (entries : list (string * tree))
  | TList (items : list tree)
  | TCut.
Set Elimination Schemes.

Fixpoint snapshot (fuel : nat) (h : heap) (v : val) : tree :=
  match fuel with
  | O => TCut
  | S fuel' =>
      match v with
      | VNone => TNone
      | VBool b => TBool b
      | VInt n => TInt n
      | VStr s => TStr s
      | VRef l =>
          match h !! l with
          | Some (ODict d) =>
              TDict (map (fun kv => (kv.1, snapshot fuel' h kv.2)) (map_to_list d))
          | Some (OList xs) => TList (map (snapshot fuel' h) xs)
          | None => TCut
          end
      end
  end.

(** ** Declarative readings of the two loops over services *)

(** The entries of a service item (none when it is not a dictionary). *)
Definition svc_entries (h : heap) (v : val) : gmap string val :=
  default ∅ (as_dict h v).

(** A service that is no database, or is in one of the EU regions. *)
Definition region_ok (dv : gmap string val) : bool :=
  negb (is_database dv)
  || in_strs (default (VStr "") (dv !! "region")) ["eu-gb"; "eu-de"; "eu-fr"].

(** The value of a flag of a block of the manifest, [False] when the
    block or the flag is absent. *)
Definition flag_value (h : heap) (d : gmap string val) (block flag : string) : val :=
  match d !! block with
  | Some v => default (VBool false) (svc_entries h v !! flag)
  | None => VBool false
  end.

(** ** Exact results of the corrections *)

(** The manifest has a block [block] that is a dictionary in which
    [flag] is exactly [True]. *)
Definition flag_true (h : heap) (d : gmap string val) (block flag : string) : Prop :=
  ∃ n nd, d !! block = Some n ∧ as_dict h n = Some nd
          ∧ nd !! flag = Some (VBool true).

(** The item is a service dictionary in which, when it is a database,
    [k] holds [v]. *)
Definition written (k : string) (v : val) (h : heap) (x : val) : Prop :=
  ∃ l dv, x = VRef l ∧ h !! l = Some (ODict dv)
          ∧ (is_database dv = true → dv !! k = Some v).

(** A store with a compliant manifest: an architect result (0) whose
    manifest (1) has encryption in transit on (2), and an intent result
    (3) for public data that names no framework. *)
Definition clean_heap : heap :=
  [ ODict {[ "manifest" := VRef 1%nat ]};
    ODict {[ "security_config" := VRef 2%nat ]};
    ODict {[ "encryption_in_transit" := VBool true ]};
    ODict {[ "detected_sensitivity" := VStr "public" ]} ].

Definition clean_run : res (GovernanceReport * option (list string)) * heap :=
  guardrail_body example_env (VRef 0%nat) (VRef 3%nat) clean_heap.

(** The violation [v] with its correction note filled in, as the
    correction loop re-emits it. *)
Definition with_correction (v : PolicyViolation) (note : string) : PolicyViolation :=
  {| v_policy_id := v_policy_id v;
     v_policy_name := v_policy_name v;
     v_severity := v_severity v;
     v_framework := v_framework v;
     v_description := v_description v;
     detected_issue := detected_issue v;
     auto_correction := Some note |}.

(** An intent result whose frameworks entry is present and null. *)
Definition null_heap : heap :=
  [ ODict {[ "manifest" := VRef 1%nat ]};
    ODict ∅;
    ODict {[ "applicable_frameworks" := VNone ]} ].

(** A computation raises only what [except Exception] catches. *)
Definition catchable {A} (r : res A) : Prop :=
  match r with
  | Ok _ => True
  | Raise e => is_Exception (exn_kind e) = true
  end.

Definition catchable_M {A} (m : M A) : Prop := ∀ h, catchable (m h).1.

(** The checks and corrections of a policy raise only what the handler
    catches. *)
Definition raises_caught (p : GovernancePolicy) : Prop :=
  (∀ h m, catchable (check_fn p h m)) ∧ (∀ m, catchable_M (correction_fn p m)).

(** * Properties *)

(** ** The framework selector *)

Lemma foldl_select_filter (fs : gset string) (l acc : list GovernancePolicy) :
  foldl (fun relevant policy =>
           if bool_decide (framework policy ∈ fs)
           then (relevant ++ [policy])%list
           else relevant) acc l
  = (acc ++ filter (fun p => framework p ∈ fs) l)%list.
Proof.
  revert acc. induction l as [|p l IH]; intros acc; simpl.
  - by rewrite app_nil_r.
  - rewrite IH. case_bool_decide.
    + rewrite filter_cons_True by done. by rewrite <- app_assoc.
    + by rewrite filter_cons_False.
Qed.

Lemma get_policies_filter (frameworks : list string) :
  get_policies_for_frameworks frameworks
  = filter (fun p => framework p ∈ frameworks ∨ framework p = "IBM_BASELINE")
           POLICY_KNOWLEDGE_BASE.
Proof.
  unfold get_policies_for_frameworks. rewrite foldl_select_filter. simpl app.
  apply list_filter_iff. intros p.
  rewrite elem_of_union, elem_of_list_to_set, elem_of_singleton. tauto.
Qed.

(** C4. For every list of requested frameworks (empty, or naming unknown
    frameworks), [get_policies_for_frameworks] returns exactly the registry
    policies whose framework is requested or is the baseline framework, in
    the registry's declaration order: it is the registry filtered, hence a
    sublist of it.  With an empty request the result is exactly the four
    baseline policies. *)
Theorem get_policies_for_frameworks_spec :
  (∀ frameworks : list string,
      get_policies_for_frameworks frameworks
      = filter (fun p => framework p ∈ frameworks ∨ framework p = "IBM_BASELINE")
               POLICY_KNOWLEDGE_BASE
      ∧ sublist (get_policies_for_frameworks frameworks) POLICY_KNOWLEDGE_BASE
      ∧ ∀ p, p ∈ get_policies_for_frameworks frameworks ↔
             p ∈ POLICY_KNOWLEDGE_BASE
             ∧ (framework p ∈ frameworks ∨ framework p = "IBM_BASELINE"))
  ∧ get_policies_for_frameworks []
    = filter (fun p => framework p = "IBM_BASELINE") POLICY_KNOWLEDGE_BASE
  ∧ get_policies_for_frameworks []
    = [POL_IBM_001; POL_IBM_002; POL_SEC_001; POL_SEC_002].
Proof.
  split; [|split].
  - intros frameworks. rewrite get_policies_filter. split; [done|]. split.
    + apply sublist_filter.
    + intros p. rewrite list_elem_of_filter. tauto.
  - rewrite get_policies_filter. apply list_filter_iff. intros p.
    rewrite elem_of_nil. tauto.
  - reflexivity.
Qed.

(** ** The scorer *)

Lemma count_severity_cons s v vs :
  count_severity s (v :: vs)
  = (if decide (v_severity v = s) then 1 else 0) + count_severity s vs.
Proof.
  unfold count_severity. rewrite filter_cons.
  destruct (decide (v_severity v = s)); simpl length; lia.
Qed.

Lemma count_severity_nonneg s vs : 0 <= count_severity s vs.
Proof. unfold count_severity. lia. Qed.

Lemma count_severity_submseteq s (V1 V2 : list PolicyViolation) :
  V1 ⊆+ V2 → count_severity s V1 <= count_severity s V2.
Proof.
  induction 1 as [|x l1 l2 _ IH|x y l|x l1 l2 _ IH|l1 l2 l3 _ IH1 _ IH2];
    rewrite ?count_severity_cons; try lia.
  - pose proof (count_severity_nonneg s l2).
    destruct (decide (v_severity x = s)); lia.
Qed.

Lemma determine_status_corrected found corrected :
  found ≠ [] → length corrected = length found →
  determine_status found corrected = (CORRECTED, corrected_score found).
Proof.
  intros Hne Hlen. destruct found as [|v vs]; [done|].
  unfold determine_status. rewrite Hlen, Nat.eqb_refl. reflexivity.
Qed.

Lemma score_antitone (V1 V2 C1 C2 : list PolicyViolation) :
  V1 ⊆+ V2 → length C1 = length V1 → length C2 = length V2 →
  (determine_status V2 C2).2 <= (determine_status V1 C1).2
  ∧ (V2 ≠ [] → 60 <= (determine_status V2 C2).2).
Proof.
  intros Hsub H1 H2.
  pose proof (count_severity_submseteq CRITICAL _ _ Hsub).
  pose proof (count_severity_submseteq WARNING _ _ Hsub).
  pose proof (count_severity_nonneg CRITICAL V2).
  pose proof (count_severity_nonneg WARNING V2).
  destruct (decide (V2 = [])) as [->|Hne2].
  - apply submseteq_nil_r in Hsub as ->. simpl. split; [lia|done].
  - rewrite (determine_status_corrected V2 C2) by done.
    destruct (decide (V1 = [])) as [->|Hne1]; simpl.
    + unfold corrected_score. split; lia.
    + rewrite (determine_status_corrected V1 C1) by done. simpl.
      unfold corrected_score. split; lia.
Qed.

(** C3. The status and score state machine: no violation on pass 1 gives
    PASSED and 100; violations all of which were corrected give CORRECTED
    and [max 60 (100 - 8 * critical - 3 * warning)], counted over the
    pass-1 violations, an info-severity violation changing nothing; fewer
    corrected than found gives FAILED and 40.  One critical violation
    scores 92, three critical and two warnings score 70. *)
Theorem status_score_state_machine :
  (∀ corrected, determine_status [] corrected = (PASSED, 100))
  ∧ (∀ found corrected,
        found ≠ [] → length corrected = length found →
        determine_status found corrected
        = (CORRECTED,
           Z.max 60 (100 - 8 * count_severity CRITICAL found
                         - 3 * count_severity WARNING found)))
  ∧ (∀ found corrected,
        (length corrected < length found)%nat →
        determine_status found corrected = (FAILED, 40))
  ∧ (∀ v found,
        v_severity v = INFO →
        count_severity CRITICAL (v :: found) = count_severity CRITICAL found
        ∧ count_severity WARNING (v :: found) = count_severity WARNING found)
  ∧ (∀ found corrected,
        length corrected = length found →
        count_severity CRITICAL found = 1 → count_severity WARNING found = 0 →
        determine_status found corrected = (CORRECTED, 92))
  ∧ (∀ found corrected,
        length corrected = length found →
        count_severity CRITICAL found = 3 → count_severity WARNING found = 2 →
        determine_status found corrected = (CORRECTED, 70)).
Proof.
  repeat split.
  - intros found corrected Hne Hlen.
    rewrite determine_status_corrected by done. unfold corrected_score.
    do 2 f_equal. lia.
  - intros found corrected Hlt. destruct found as [|v vs]; simpl in *; [lia|].
    destruct (Nat.eqb_spec (length corrected) (S (length vs))); [lia|done].
  - rewrite count_severity_cons, H. by destruct (decide (INFO = CRITICAL)).
  - rewrite count_severity_cons, H. by destruct (decide (INFO = WARNING)).
  - intros found corrected Hlen Hc Hw.
    assert (found ≠ []) by (intros ->; discriminate Hc).
    rewrite determine_status_corrected by done.
    unfold corrected_score. rewrite Hc, Hw. reflexivity.
  - intros found corrected Hlen Hc Hw.
    assert (found ≠ []) by (intros ->; discriminate Hc).
    rewrite determine_status_corrected by done.
    unfold corrected_score. rewrite Hc, Hw. reflexivity.
Qed.

(** C8. The score is monotone in the violation set: for fully corrected
    violation sets [V1] and [V2], listed without repetition, with every
    violation of [V1] in [V2], the score for [V1] is at least the score
    for [V2]; and the score for a non-empty, fully corrected set is at
    least 60. *)
Theorem score_monotone (V1 V2 C1 C2 : list PolicyViolation) :
  NoDup V1 → V1 ⊆ V2 →
  length C1 = length V1 → length C2 = length V2 →
  (determine_status V2 C2).2 <= (determine_status V1 C1).2
  ∧ (V2 ≠ [] → 60 <= (determine_status V2 C2).2)
  ∧ (V1 ≠ [] → 60 <= (determine_status V1 C1).2).
Proof.
  intros Hnd Hsub H1 H2.
  assert (HS : V1 ⊆+ V2) by (by apply NoDup_submseteq).
  destruct (score_antitone V1 V2 C1 C2 HS H1 H2) as [Hle Hfloor].
  split; [done|]. split; [done|].
  intros Hne. by apply (score_antitone V1 V1 C1 C1).
Qed.

(** One critical violation, fully corrected, scores 92 with status
    CORRECTED. *)
Lemma status_score_state_machine_witness :
  determine_status [example_critical] [example_critical] = (CORRECTED, 92).
Proof.
  destruct status_score_state_machine as (_ & _ & _ & _ & H92 & _).
  apply H92; reflexivity.
Defined.

(** The score for one critical violation against the score for that
    violation and a warning. *)
Lemma score_monotone_witness :
  (determine_status [example_critical; ghost_violation]
                    [example_critical; ghost_violation]).2
  <= (determine_status [example_critical] [example_critical]).2
  ∧ 60 <= (determine_status [example_critical; ghost_violation]
                            [example_critical; ghost_violation]).2.
Proof.
  destruct (score_monotone [example_critical]
              [example_critical; ghost_violation]
              [example_critical] [example_critical; ghost_violation])
    as (Hle & Hfloor & _).
  - apply NoDup_singleton.
  - intros x Hx. apply elem_of_cons. left.
    by apply list_elem_of_singleton in Hx.
  - reflexivity.
  - reflexivity.
  - split; [exact Hle|]. apply Hfloor. discriminate.
Defined.

(** ** Running the effect types *)

Lemma res_bind_Ok {A B} (m : res A) (k : A -> res B) (b : B) :
  res_bind m k = Ok b → ∃ a, m = Ok a ∧ k a = Ok b.
Proof. destruct m as [a|e]; simpl; [eauto|discriminate]. Qed.

Lemma bind_Ok {A B} (m : M A) (k : A -> M B) (h h' : heap) (b : B) :
  bind m k h = (Ok b, h') → ∃ a h1, m h = (Ok a, h1) ∧ k a h1 = (Ok b, h').
Proof.
  unfold bind. destruct (m h) as [[a|e] h1]; [eauto|discriminate].
Qed.

Lemma read_Ok {A} (r : heap -> res A) (h h' : heap) (a : A) :
  read r h = (Ok a, h') → r h = Ok a ∧ h' = h.
Proof. unfold read. intros [= -> ->]. done. Qed.

Lemma ret_Ok {A} (a b : A) (h h' : heap) :
  ret a h = (Ok b, h') → b = a ∧ h' = h.
Proof. unfold ret. intros [= -> ->]. done. Qed.

Ltac inv_run :=
  repeat match goal with
    | H : bind _ _ _ = (Ok _, _) |- _ =>
        let a := fresh "a" in let h := fresh "h" in let Ha := fresh "Hrun" in
        apply bind_Ok in H as (a & h & Ha & H)
    | H : read _ _ = (Ok _, _) |- _ => apply read_Ok in H as [H ->]
    | H : ret _ _ = (Ok _, _) |- _ => apply ret_Ok in H as [-> ->]
    | H : res_bind _ _ = Ok _ |- _ =>
        let a := fresh "a" in let Ha := fresh "Hres" in
        apply res_bind_Ok in H as (a & Ha & H)
    | H : Ok _ = Ok _ |- _ => injection H as H
    end.

(** ** The exception boundary *)

Lemma catchable_res_bind {A B} (m : res A) (k : A -> res B) :
  catchable m → (∀ a, catchable (k a)) → catchable (res_bind m k).
Proof. destruct m as [a|e]; simpl; auto. Qed.

Lemma catchable_bind {A B} (m : M A) (k : A -> M B) :
  catchable_M m → (∀ a, catchable_M (k a)) → catchable_M (bind m k).
Proof.
  intros Hm Hk h. unfold bind. specialize (Hm h).
  destruct (m h) as [[a|e] h']; simpl in *; [apply Hk|done].
Qed.

Lemma catchable_bind_Ok {A B} (m : M A) (k : A -> M B) :
  catchable_M m →
  (∀ a h h', m h = (Ok a, h') → catchable (k a h').1) →
  catchable_M (bind m k).
Proof.
  intros Hm Hk h. unfold bind. specialize (Hm h).
  destruct (m h) as [[a|e] h'] eqn:Hrun; simpl in *; [by eapply Hk|done].
Qed.

Lemma catchable_read {A} (r : heap -> res A) :
  (∀ h, catchable (r h)) → catchable_M (read r).
Proof. intros Hr h. apply Hr. Qed.

Lemma catchable_ret {A} (a : A) : catchable_M (ret a).
Proof. intros h. exact I. Qed.

Create HintDb raises discriminated.

Ltac raises_step :=
  match goal with
  | |- catchable (res_bind _ _) => apply catchable_res_bind; [|intros ?]
  | |- catchable_M (bind _ _) => apply catchable_bind; [|intros ?]
  | |- catchable_M (read _) => apply catchable_read; intros ?
  | |- catchable_M (ret _) => apply catchable_ret
  | |- catchable (Ok _) => exact I
  | |- catchable (Raise _) => reflexivity
  | |- catchable (_, _).1 => simpl
  | |- catchable (if ?b then _ else _) => destruct b
  | |- catchable_M (if ?b then _ else _) => destruct b
  | |- catchable (match ?x with _ => _ end) => destruct x
  | |- catchable_M (match ?x with _ => _ end) => destruct x
  | |- catchable (match ?x with _ => _ end).1 => destruct x
  | |- _ => solve [auto with raises]
  end.

Ltac raises := repeat raises_step.

Lemma get_raises h recv k : catchable (get h recv k).
Proof. unfold get. raises. Qed.
#[local] Hint Resolve get_raises : raises.

Lemma get_or_raises h recv k dflt : catchable (get_or h recv k dflt).
Proof. unfold get_or. raises. Qed.
#[local] Hint Resolve get_or_raises : raises.

Lemma get_new_raises h recv k : catchable (get_new h recv k).
Proof. apply get_raises. Qed.
#[local] Hint Resolve get_new_raises : raises.

Lemma sub_get_or_raises h sub k dflt : catchable (sub_get_or h sub k dflt).
Proof. unfold sub_get_or. raises. Qed.
#[local] Hint Resolve sub_get_or_raises : raises.

Lemma iter_raises h v : catchable (iter h v).
Proof. unfold iter. raises. Qed.
#[local] Hint Resolve iter_raises : raises.

Lemma iter_sub_raises h sub : catchable (iter_sub h sub).
Proof. unfold iter_sub. raises. Qed.
#[local] Hint Resolve iter_sub_raises : raises.

Lemma contains_raises h v s : catchable (contains h v s).
Proof. unfold contains. raises. Qed.
#[local] Hint Resolve contains_raises : raises.

Lemma contains_sub_raises h sub s : catchable (contains_sub h sub s).
Proof. unfold contains_sub. raises. Qed.
#[local] Hint Resolve contains_sub_raises : raises.

Lemma getitem_raises h recv k : catchable (getitem h recv k).
Proof. unfold getitem. raises. Qed.
#[local] Hint Resolve getitem_raises : raises.

Lemma setitem_raises recv k v : catchable_M (setitem recv k v).
Proof. intros h. unfold setitem. raises. Qed.
#[local] Hint Resolve setitem_raises : raises.

Lemma new_dict_raises d : catchable_M (new_dict d).
Proof. intros h. exact I. Qed.
#[local] Hint Resolve new_dict_raises : raises.

Lemma new_list_raises xs : catchable_M (new_list xs).
Proof. intros h. exact I. Qed.
#[local] Hint Resolve new_list_raises : raises.

Lemma setdefault_dict_raises recv k : catchable_M (setdefault_dict recv k).
Proof.
  intros h. unfold setdefault_dict.
  destruct (as_dict h recv) as [d|]; [|reflexivity].
  destruct (d !! k); [exact I|].
  apply (catchable_bind (new_dict ∅) (fun fresh => setitem recv k fresh));
    auto with raises.
Qed.
#[local] Hint Resolve setdefault_dict_raises : raises.

Lemma setitem2_raises recv k1 k2 v : catchable_M (setitem2 recv k1 k2 v).
Proof. unfold setitem2. raises. Qed.
#[local] Hint Resolve setitem2_raises : raises.

Lemma unpack_raises h sub : catchable (unpack h sub).
Proof. unfold unpack. raises. Qed.
#[local] Hint Resolve unpack_raises : raises.

Lemma dict_copy_raises recv : catchable_M (dict_copy recv).
Proof. intros h. unfold dict_copy. destruct (as_dict h recv); [exact I|reflexivity]. Qed.
#[local] Hint Resolve dict_copy_raises : raises.

Lemma get_or_new_dict_raises recv k : catchable_M (get_or_new_dict recv k).
Proof. unfold get_or_new_dict. raises. Qed.
#[local] Hint Resolve get_or_new_dict_raises : raises.

Lemma hashable_strings_raises h items : catchable (hashable_strings h items).
Proof. induction items as [|x rest IH]; simpl; raises. Qed.
#[local] Hint Resolve hashable_strings_raises : raises.

Lemma select_policies_raises h fw : catchable (select_policies h fw).
Proof. unfold select_policies. raises. Qed.
#[local] Hint Resolve select_policies_raises : raises.

Lemma make_violation_raises E p : catchable (make_violation E p).
Proof.
  unfold make_violation, SeverityLevel_of, ComplianceFramework_of. raises.
Qed.
#[local] Hint Resolve make_violation_raises : raises.

Lemma any_database_raises h services : catchable (any_database h services).
Proof. induction services as [|s rest IH]; simpl; raises. Qed.
#[local] Hint Resolve any_database_raises : raises.

Lemma region_loop_raises h services : catchable (region_loop h services).
Proof. induction services as [|s rest IH]; simpl; raises. Qed.
#[local] Hint Resolve region_loop_raises : raises.

Lemma upgrade_plans_raises services : catchable_M (upgrade_plans services).
Proof. induction services as [|s rest IH]; simpl; raises. Qed.
#[local] Hint Resolve upgrade_plans_raises : raises.

Lemma move_to_eu_raises services : catchable_M (move_to_eu services).
Proof. induction services as [|s rest IH]; simpl; raises. Qed.
#[local] Hint Resolve move_to_eu_raises : raises.

Lemma build_services_raises h items : catchable (build_services h items).
Proof. induction items as [|x rest IH]; simpl; raises. Qed.
#[local] Hint Resolve build_services_raises : raises.

Lemma registry_raises_caught : Forall raises_caught POLICY_KNOWLEDGE_BASE.
Proof.
  unfold POLICY_KNOWLEDGE_BASE.
  repeat apply Forall_cons_2; [..|apply Forall_nil_2];
    (split; [intros h m|intros m]); simpl;
    unfold check_vpc_isolation, check_encryption_at_rest,
      check_encryption_in_transit, check_audit_logging_for_phi,
      check_private_endpoints, check_no_public_api_for_sensitive_data,
      check_iam_policies_present, check_region_compliance,
      correct_vpc_isolation, correct_encryption_at_rest,
      correct_encryption_in_transit, correct_audit_logging,
      correct_private_endpoints, correct_public_api_exposure,
      correct_iam_policies, correct_region_gdpr;
    raises.
Qed.

Lemma selected_raises_caught names :
  Forall raises_caught (get_policies_for_frameworks names).
Proof.
  rewrite get_policies_filter. apply Forall_forall. intros p Hp.
  apply list_elem_of_filter in Hp as [_ Hp].
  pose proof registry_raises_caught as H. rewrite Forall_forall in H. auto.
Qed.

Lemma audit_pass_raises E h m policies :
  Forall raises_caught policies → catchable (audit_pass E h m policies).
Proof.
  induction 1 as [|p rest [Hp _] _ IH]; simpl; [exact I|].
  apply catchable_res_bind; [apply Hp|]. intros passed. raises.
Qed.

Lemma revalidate_raises h m policies :
  Forall raises_caught policies → catchable (revalidate h m policies).
Proof.
  induction 1 as [|p rest [Hp _] _ IH]; simpl; [exact I|].
  apply catchable_res_bind; [apply Hp|]. intros passed. raises.
Qed.

Lemma correction_pass_raises policies found cm :
  Forall raises_caught policies →
  catchable_M (correction_pass policies found cm).
Proof.
  intros Hall. revert cm. induction found as [|v rest IH]; intros cm; simpl.
  - apply catchable_ret.
  - destruct (matching policies (v_policy_id v)) as [p|] eqn:Hm; [|apply IH].
    assert (Hp : raises_caught p).
    { rewrite Forall_forall in Hall. apply Hall.
      unfold matching in Hm. apply find_some in Hm as [Hin _].
      by apply list_elem_of_In. }
    apply catchable_bind; [apply Hp|]. intros cm'.
    apply catchable_bind; [apply IH|]. intros [final corrected].
    apply catchable_ret.
Qed.

Lemma correct_and_report_raises E md fw am policies found :
  Forall raises_caught policies →
  catchable_M (correct_and_report E md fw am policies found).
Proof.
  intros Hall. unfold correct_and_report.
  apply catchable_bind; [apply dict_copy_raises|]. intros working.
  apply catchable_bind.
  { destruct found as [|v rest]; [apply catchable_ret|].
    apply catchable_bind; [by apply correction_pass_raises|].
    intros [final corrected].
    apply catchable_bind; [|intros remaining; apply catchable_ret].
    apply catchable_read. intros h. by apply revalidate_raises. }
  intros [[final corrected] remaining].
  do 9 (apply catchable_bind; [raises|intros ?]).
  destruct (determine_status found corrected) as [st score].
  raises.
Qed.

(** Every exception that the body of the stage raises is of a class the
    handler catches. *)
Lemma guardrail_body_raises E architect_result intent_result :
  catchable_M (guardrail_body E architect_result intent_result).
Proof.
  unfold guardrail_body.
  do 3 (apply catchable_bind; [raises|intros ?]).
  apply catchable_bind; [raises|intros frameworks].
  apply catchable_bind; [raises|intros entries].
  apply catchable_bind; [raises|intros audit_manifest].
  apply catchable_bind_Ok; [raises|]. intros policies h h' Hsel.
  apply read_Ok in Hsel as [Hsel ->]. unfold select_policies in Hsel.
  apply res_bind_Ok in Hsel as (items & _ & Hsel).
  apply res_bind_Ok in Hsel as (names & _ & Hsel). injection Hsel as <-.
  apply catchable_bind.
  - apply catchable_read. intros h0.
    apply audit_pass_raises, selected_raises_caught.
  - intros found. apply correct_and_report_raises, selected_raises_caught.
Qed.

(** The duration is computed as the code computes it.  For the readings
    0.0 and 0.009 (the double nearest to it) the product by 1000 rounds to
    9.0 and nine milliseconds are reported, where exact arithmetic on the
    same readings gives less than nine. *)
Example elapsed_ms_rounds_as_doubles :
  elapsed_ms {| ComplianceFramework_values := [];
                MODEL_INSTRUCT := "";
                start_time := S754_zero false;
                end_time := S754_finite false 0x126e978d4fdf3b (-59) |} = 9.
Proof. vm_compute. reflexivity. Qed.

(** C5. The [try] statement never lets an exception through: for every
    input the call returns a stage result, because every exception the
    body can raise is of a class that [except Exception] catches.  When
    the body raises, wherever it does, the result returned has status
    FAILED and carries the elapsed duration and the message of the
    exception, with no report. *)
Theorem exceptions_become_failed_results
    (E : env) (architect_result intent_result : val) (h : heap) :
  (∃ sr h',
      guardrail_try E architect_result intent_result h = (Ok sr, h')
      ∧ run_governance_guardrail E architect_result intent_result h = (sr, h'))
  ∧ (∀ e h',
        guardrail_body E architect_result intent_result h = (Raise e, h') →
        is_Exception (exn_kind e) = true
        ∧ guardrail_try E architect_result intent_result h
          = (Ok {| stage_id := 3;
                   stage_name := "Governance Guardrail";
                   stage_status := FAILED;
                   duration_ms := elapsed_ms E;
                   result := None;
                   error := Some (str_exn e) |}, h')).
Proof.
  pose proof (guardrail_body_raises E architect_result intent_result h) as Hc.
  unfold guardrail_try, run_governance_guardrail.
  destruct (guardrail_body E architect_result intent_result h)
    as [[[report rem]|e] h0]; simpl in Hc.
  - split; [eauto|]. intros e h' [=].
  - rewrite Hc. split; [eauto|]. intros e' h' [= <- <-]. by rewrite Hc.
Qed.

(** A call whose architect result is [None]: the first lookup of the
    body raises an [AttributeError], and the call returns the FAILED
    result with its message. *)
Lemma exceptions_become_failed_results_witness :
  guardrail_body example_env VNone VNone [] =
    (Raise (Exn AttributeError "'NoneType' object has no attribute 'get'"), [])
  ∧ guardrail_try example_env VNone VNone []
    = (Ok {| stage_id := 3;
             stage_name := "Governance Guardrail";
             stage_status := FAILED;
             duration_ms := 125;
             result := None;
             error := Some "'NoneType' object has no attribute 'get'" |}, []).
Proof.
  split; [reflexivity|].
  destruct (exceptions_become_failed_results example_env VNone VNone [])
    as [_ Hraise].
  destruct (Hraise (Exn AttributeError "'NoneType' object has no attribute 'get'")
              []) as [_ Hres]; [reflexivity|].
  exact Hres.
Defined.

(** ** The store under corrections *)

Lemma key_evolves_refl h' d k : key_evolves h' d d k.
Proof. by left. Qed.

Lemma evolves_refl h : evolves h h.
Proof.
  intros l o Hl. exists o. split; [done|].
  destruct o; simpl; [intros k; apply key_evolves_refl|done].
Qed.

Lemma evolves_is_dict h h' l : evolves h h' → is_dict h l → is_dict h' l.
Proof.
  intros He [d Hd]. destruct (He _ _ Hd) as (o' & Ho' & Hoo).
  destruct o'; simpl in Hoo; [by eexists|done].
Qed.

Lemma key_evolves_trans h' h'' d d' d'' k :
  evolves h' h'' →
  key_evolves h' d d' k → key_evolves h'' d' d'' k → key_evolves h'' d d'' k.
Proof.
  intros He H1 H2. unfold key_evolves in *.
  destruct H2 as [H2|[H2|[H2|[H2|(Hk & Hnone & n & Hn & Hd)]]]]; try tauto.
  - rewrite H2.
    destruct H1 as [H1|[H1|[H1|[H1|(Hk & Hnone & n & Hn & Hd)]]]]; try tauto.
    do 4 right. split; [done|]. split; [done|]. exists n. split; [done|].
    by eapply evolves_is_dict.
  - destruct H1 as [H1|[[_ H1]|[[_ H1]|[[_ H1]|(_ & _ & n' & H1 & _)]]]];
      try congruence.
    do 4 right. split; [done|]. split; [congruence|]. by exists n.
Qed.

Lemma evolves_trans h h' h'' : evolves h h' → evolves h' h'' → evolves h h''.
Proof.
  intros H1 H2 l o Hl.
  destruct (H1 _ _ Hl) as (o' & Ho' & Hoo').
  destruct (H2 _ _ Ho') as (o'' & Ho'' & Hoo'').
  exists o''. split; [done|].
  destruct o, o', o''; simpl in *; try done; [|congruence].
  intros k. by eapply key_evolves_trans.
Qed.

Lemma evolves_alloc h o : evolves h (h ++ [o]).
Proof.
  intros l o0 Hl. exists o0. split.
  - by apply lookup_app_l_Some.
  - destruct o0; simpl; [intros k; apply key_evolves_refl|done].
Qed.

(** One write to a dictionary, of a kind the corrections make. *)
Lemma evolves_write h l d d' :
  h !! l = Some (ODict d) →
  dict_evolves (<[l := ODict d']> h) d d' →
  evolves h (<[l := ODict d']> h).
Proof.
  intros Hl Hd l0 o0 Hl0.
  assert (l < length h)%nat by (by eapply lookup_lt_Some).
  destruct (decide (l0 = l)) as [->|Hne].
  - exists (ODict d'). split; [by apply list_lookup_insert_eq|].
    rewrite Hl in Hl0. injection Hl0 as <-. done.
  - exists o0. split; [by rewrite list_lookup_insert_ne|].
    destruct o0; simpl; [intros k; apply key_evolves_refl|done].
Qed.

Lemma stable_lookup h' d d' k :
  stable_key k = true → dict_evolves h' d d' → d' !! k = d !! k.
Proof.
  unfold stable_key. intros Hs Hd. apply bool_decide_eq_true in Hs.
  destruct Hs as (Hf & Hr & Hp & Hb).
  destruct (Hd k) as [H|[[? _]|[[? _]|[[? _]|[? _]]]]]; done.
Qed.

Lemma as_dict_evolves h h' v d :
  evolves h h' → as_dict h v = Some d →
  ∃ d', as_dict h' v = Some d' ∧ dict_evolves h' d d'.
Proof.
  intros He Hd. destruct v as [| | | |l]; try done. unfold as_dict in *.
  destruct (h !! l) as [[d0|]|] eqn:Hl; try done. injection Hd as ->.
  destruct (He _ _ Hl) as (o' & Ho' & Hoo). rewrite Ho'.
  destruct o'; simpl in Hoo; [eauto|done].
Qed.

Lemma dict_evolves_is_Some h' d d' k :
  dict_evolves h' d d' → is_Some (d !! k) → is_Some (d' !! k).
Proof.
  intros Hd [x Hx].
  destruct (Hd k) as [H|[[_ H]|[[_ H]|[[_ H]|(_ & H & _)]]]];
    rewrite ?H; try done; congruence.
Qed.

Lemma truthy_evolves h h' v :
  evolves h h' → truthy h v = true → truthy h' v = true.
Proof.
  intros He. destruct v as [| | | |l]; unfold truthy; try done.
  destruct (h !! l) as [o|] eqn:Hl; [|done].
  destruct (He _ _ Hl) as (o' & -> & Hoo).
  destruct o as [d|xs], o' as [d'|xs']; simpl in Hoo; try done.
  - rewrite !negb_true_iff, !bool_decide_eq_false. intros Hne Hempty.
    apply Hne. apply map_eq. intros k. rewrite lookup_empty.
    destruct (d !! k) eqn:Hk; [|done].
    assert (is_Some (d' !! k)) as [x Hx]
        by (eapply dict_evolves_is_Some; eauto).
    rewrite Hempty, lookup_empty in Hx. done.
  - by subst.
Qed.

Ltac absurd_key :=
  match goal with
  | H : _ ∈ _ |- _ =>
      solve [apply list_elem_of_In in H; simpl in H; intuition discriminate]
  | H : @eq string _ _ |- _ => discriminate H
  | H : @eq (option val) _ _ |- _ => discriminate H
  end.

Lemma setitem_Ok recv k v h h' u :
  setitem recv k v h = (Ok u, h') →
  ∃ l d, recv = VRef l ∧ h !! l = Some (ODict d)
         ∧ h' = <[l := ODict (<[k := v]> d)]> h.
Proof.
  unfold setitem. destruct recv as [| | | |l]; try discriminate.
  destruct (h !! l) as [[d|xs]|] eqn:Hl; try discriminate.
  intros [= _ <-]. eauto.
Qed.

Lemma get_Ok h recv k o :
  get h recv k = Ok o → ∃ d, as_dict h recv = Some d ∧ o = d !! k.
Proof.
  unfold get. destruct (as_dict h recv) as [d|]; [|discriminate].
  intros [= <-]. eauto.
Qed.

Lemma get_or_Ok h recv k dflt v :
  get_or h recv k dflt = Ok v →
  ∃ d, as_dict h recv = Some d ∧ v = default dflt (d !! k).
Proof.
  unfold get_or. intros H. inv_run.
  apply get_Ok in Hres as (d & Hd & ->). eauto.
Qed.

Lemma get_dict h recv k d : as_dict h recv = Some d → get h recv k = Ok (d !! k).
Proof. unfold get. by intros ->. Qed.

Lemma get_or_dict h recv k dflt d :
  as_dict h recv = Some d → get_or h recv k dflt = Ok (default dflt (d !! k)).
Proof. unfold get_or. intros Hd. by rewrite (get_dict _ _ _ _ Hd). Qed.

Lemma getitem_Ok h recv k v :
  getitem h recv k = Ok v → ∃ d, as_dict h recv = Some d ∧ d !! k = Some v.
Proof.
  unfold getitem, as_dict. destruct recv as [| | | |l]; try discriminate.
  destruct (h !! l) as [[d|xs]|]; try discriminate.
  destruct (d !! k) eqn:Hk; [|discriminate]. intros [= <-]. eauto.
Qed.

Lemma as_dict_insert_eq h l d' :
  (l < length h)%nat → as_dict (<[l := ODict d']> h) (VRef l) = Some d'.
Proof. intros Hl. unfold as_dict. by rewrite list_lookup_insert_eq. Qed.

Lemma as_dict_insert_ne h l o v :
  v ≠ VRef l → as_dict (<[l := o]> h) v = as_dict h v.
Proof.
  intros Hne. destruct v as [| | | |l0]; try done. unfold as_dict.
  rewrite list_lookup_insert_ne; [done|congruence].
Qed.

Lemma write_ok_evolves h' d k v :
  write_ok k v → dict_evolves h' d (<[k := v]> d).
Proof.
  intros Hw k0. destruct (decide (k0 = k)) as [->|Hne].
  - unfold key_evolves. rewrite lookup_insert_eq.
    destruct Hw as [[? ->]|[[? ->]|[? ->]]]; tauto.
  - left. by rewrite lookup_insert_ne.
Qed.

Lemma setitem_evolves recv k v h h' u :
  setitem recv k v h = (Ok u, h') → write_ok k v →
  evolves h h' ∧ ∃ d', as_dict h' recv = Some d' ∧ d' !! k = Some v.
Proof.
  intros Hs Hw. apply setitem_Ok in Hs as (l & d & -> & Hl & ->).
  assert (l < length h)%nat by (by eapply lookup_lt_Some).
  split.
  - apply evolves_write with d; [done|]. by apply write_ok_evolves.
  - exists (<[k := v]> d). rewrite as_dict_insert_eq by done.
    by rewrite lookup_insert_eq.
Qed.

Lemma setitem2_evolves m k1 k2 v h h' u :
  setitem2 m k1 k2 v h = (Ok u, h') → write_ok k2 v → k1 ≠ k2 →
  evolves h h'
  ∧ ∃ d n nd, as_dict h' m = Some d ∧ d !! k1 = Some n
              ∧ as_dict h' n = Some nd ∧ nd !! k2 = Some v.
Proof.
  unfold setitem2. intros Hs Hw Hne. inv_run.
  apply getitem_Ok in Hrun as (d & Hd & Hk1).
  pose proof Hs as Hs'. apply setitem_evolves in Hs' as [He (nd & Hnd & Hk2)]; [|done].
  split; [done|].
  apply setitem_Ok in Hs as (l & d0 & -> & Hl & ->).
  destruct (decide (m = VRef l)) as [->|Hm].
  - exists (<[k2 := v]> d0), (VRef l), (<[k2 := v]> d0).
    assert (d = d0) as -> by (unfold as_dict in Hd; rewrite Hl in Hd; congruence).
    assert (l < length h)%nat by (by eapply lookup_lt_Some).
    rewrite as_dict_insert_eq by done.
    rewrite lookup_insert_ne by done. rewrite lookup_insert_eq. done.
  - exists d, (VRef l), nd. rewrite as_dict_insert_ne by done. done.
Qed.

Lemma setdefault_dict_evolves m k h h' u :
  setdefault_dict m k h = (Ok u, h') → k ∈ block_keys → evolves h h'.
Proof.
  unfold setdefault_dict. intros Hs Hk.
  destruct (as_dict h m) as [d|] eqn:Hd; [|discriminate].
  destruct (d !! k) eqn:Hdk.
  - injection Hs as _ <-. apply evolves_refl.
  - apply bind_Ok in Hs as (fresh & h1 & Hnew & Hset).
    unfold new_dict in Hnew. injection Hnew as <- <-.
    apply setitem_Ok in Hset as (l & d0 & -> & Hl & ->).
    eapply evolves_trans; [apply evolves_alloc|].
    assert (Hlt : (l < length h)%nat).
    { unfold as_dict in Hd. destruct (h !! l) eqn:E; [|done].
      by eapply lookup_lt_Some. }
    assert (d0 = d) as ->.
    { unfold as_dict in Hd. rewrite lookup_app_l in Hl by done.
      rewrite Hl in Hd. congruence. }
    apply evolves_write with d; [done|].
    intros k0. destruct (decide (k0 = k)) as [->|Hne].
    + do 4 right. split; [done|]. split; [done|].
      exists (length h). rewrite lookup_insert_eq. split; [done|].
      exists ∅. rewrite list_lookup_insert_ne by lia.
      by rewrite lookup_app_r, Nat.sub_diag by lia.
    + left. by rewrite lookup_insert_ne.
Qed.

(** ** The conditions are kept by every correction *)

Lemma sens_of_evolves h' d d' : dict_evolves h' d d' → sens_of d' = sens_of d.
Proof.
  intros Hd. unfold sens_of. by rewrite (stable_lookup h' d d').
Qed.

Lemma block_kept h' d d' block n :
  block ∈ block_keys → dict_evolves h' d d' →
  d !! block = Some n → d' !! block = Some n.
Proof.
  intros Hb Hd Hn.
  destruct (Hd block) as [H|[[? _]|[[? _]|[[? _]|(_ & H & _)]]]];
    try congruence;
    apply list_elem_of_In in Hb; simpl in Hb;
    destruct Hb as [<-|[<-|[]]]; absurd_key.
Qed.

Lemma flag_kept h h' nd nd' flag v :
  flag ∈ flag_keys → evolves h h' → dict_evolves h' nd nd' →
  nd !! flag = Some v → truthy h v = true →
  ∃ v', nd' !! flag = Some v' ∧ truthy h' v' = true.
Proof.
  intros Hf He Hd Hv Ht.
  destruct (Hd flag) as [H|[[_ H]|[[H _]|[[H _]|(H & _)]]]].
  - exists v. split; [congruence|]. by eapply truthy_evolves.
  - by exists (VBool true).
  - subst. absurd_key.
  - subst. absurd_key.
  - apply list_elem_of_In in Hf, H. simpl in Hf, H.
    destruct H as [<-|[<-|[]]]; intuition discriminate.
Qed.

Lemma flag_on_evolves h h' d d' block flag :
  block ∈ block_keys → flag ∈ flag_keys →
  evolves h h' → dict_evolves h' d d' →
  flag_on h d block flag → flag_on h' d' block flag.
Proof.
  intros Hb Hf He Hd (n & nd & v & Hn & Hnd & Hv & Ht).
  destruct (as_dict_evolves _ _ _ _ He Hnd) as (nd' & Hnd' & Hndd).
  destruct (flag_kept _ _ _ _ _ _ Hf He Hndd Hv Ht) as (v' & Hv' & Ht').
  exists n, nd', v'. split; [by eapply block_kept|done].
Qed.

Lemma item_ok_evolves (P : gmap string val -> Prop) h h' v :
  (∀ dv dv', dict_evolves h' dv dv' → P dv → P dv') →
  evolves h h' → item_ok P h v → item_ok P h' v.
Proof.
  intros HP He. destruct v as [| | | |l]; simpl; try done.
  intros (dv & Hl & Hdv). destruct (He _ _ Hl) as (o' & Ho' & Hoo).
  destruct o' as [dv'|]; simpl in Hoo; [|done]. eauto.
Qed.

Lemma item_ok_strs (P : gmap string val -> Prop) h (ss : list string) :
  Forall (item_ok P h) (VStr <$> ss).
Proof. apply Forall_fmap, Forall_true. done. Qed.

(** The items of a value after corrections: the same, or, for a
    dictionary, its keys. *)
Lemma iter_sub_evolves (P : gmap string val -> Prop) h h' o items :
  evolves h h' → iter_sub h o = Ok items → Forall (item_ok P h') items →
  ∃ items', iter_sub h' o = Ok items' ∧ Forall (item_ok P h') items'.
Proof.
  intros He Hi HF. destruct o as [v|]; [|by exists items].
  destruct v as [| | |s|l]; try discriminate; [by exists items|].
  unfold iter_sub, iter in *.
  destruct (h !! l) as [o|] eqn:Hl; [|discriminate].
  destruct (He _ _ Hl) as (o' & -> & Hoo).
  destruct o as [d|xs], o' as [d'|xs']; simpl in Hoo; try done.
  - eexists. split; [done|]. apply item_ok_strs.
  - subst. by exists items.
Qed.

Lemma services_ok_evolves (P : gmap string val -> Prop) h h' d d' :
  (∀ dv dv', dict_evolves h' dv dv' → P dv → P dv') →
  evolves h h' → dict_evolves h' d d' →
  services_ok P h d → services_ok P h' d'.
Proof.
  intros HP He Hd (items & Hi & HF). unfold services_ok.
  rewrite (stable_lookup h' d d') by done.
  eapply iter_sub_evolves; [done..|].
  eapply Forall_impl; [done|]. intros v. by apply item_ok_evolves.
Qed.

Lemma is_database_evolves h' dv dv' :
  dict_evolves h' dv dv' → is_database dv' = is_database dv.
Proof.
  intros Hd. unfold is_database. by rewrite (stable_lookup h' dv dv').
Qed.

Lemma not_database_evolves h' dv dv' :
  dict_evolves h' dv dv' → not_database dv → not_database dv'.
Proof.
  unfold not_database. intros Hd. by rewrite (is_database_evolves h' dv dv').
Qed.

Lemma in_eu_evolves h' dv dv' :
  dict_evolves h' dv dv' → in_eu dv → in_eu dv'.
Proof.
  unfold in_eu. intros Hd Hin. rewrite (is_database_evolves h' dv dv') by done.
  intros Hdb.
  destruct (Hd "region") as [H|[[H _]|[[_ H]|[[H _]|(H & _)]]]];
    try absurd_key.
  - rewrite H. auto.
  - rewrite H. reflexivity.
Qed.

Lemma contains_sub_evolves h h' d d' g :
  evolves h h' → dict_evolves h' d d' →
  contains_sub h (d !! "applicable_frameworks") "GDPR" = Ok g →
  contains_sub h' (d' !! "applicable_frameworks") "GDPR" = Ok g.
Proof.
  intros He Hd. rewrite (stable_lookup h' d d') by done.
  destruct (d !! "applicable_frameworks") as [v|]; [|done].
  destruct v as [| | |s|l]; try done. unfold contains_sub, contains.
  destruct (h !! l) as [o|] eqn:Hl; [|discriminate].
  destruct (He _ _ Hl) as (o' & -> & Hoo).
  destruct o as [fd|xs], o' as [fd'|xs']; simpl in Hoo; try done.
  - by rewrite (stable_lookup h' fd fd').
  - by subst.
Qed.

(** ** The checks decide their conditions *)

Lemma flag_check_pass applies block flag h m d :
  as_dict h m = Some d →
  flag_check applies block flag h m = Ok true →
  sat_flag applies block flag h d.
Proof.
  intros Hd. unfold flag_check, get_new.
  rewrite (get_or_dict _ _ _ _ _ Hd), (get_dict _ _ _ _ Hd). simpl res_bind.
  fold (sens_of d). unfold sat_flag.
  destruct (applies (sens_of d)); [|by left]. intros Hc. right.
  destruct (d !! block) as [n|] eqn:Hn; [|discriminate Hc]. simpl in Hc.
  destruct (get_or h n flag (VBool false)) as [x|] eqn:Hg; [|discriminate Hc].
  apply get_or_Ok in Hg as (nd & Hnd & ->). simpl in Hc.
  destruct (nd !! flag) as [v|] eqn:Hv; [|discriminate Hc]. simpl in Hc.
  destruct (truthy h v) eqn:Ht; [|discriminate Hc].
  by exists n, nd, v.
Qed.

Lemma flag_check_sat applies block flag h m d b :
  as_dict h m = Some d → sat_flag applies block flag h d →
  flag_check applies block flag h m = Ok b → b = true.
Proof.
  intros Hd Hsat. unfold flag_check, get_new.
  rewrite (get_or_dict _ _ _ _ _ Hd), (get_dict _ _ _ _ Hd). simpl res_bind.
  fold (sens_of d). destruct Hsat as [->|(n & nd & v & Hn & Hnd & Hv & Ht)].
  - simpl. congruence.
  - destruct (applies (sens_of d)); [|simpl; congruence].
    rewrite Hn. simpl. rewrite (get_or_dict _ _ _ _ _ Hnd), Hv. simpl.
    rewrite Ht. simpl. congruence.
Qed.

Lemma sat_flag_evolves applies block flag h h' d d' :
  block ∈ block_keys → flag ∈ flag_keys →
  evolves h h' → dict_evolves h' d d' →
  sat_flag applies block flag h d → sat_flag applies block flag h' d'.
Proof.
  intros Hb Hf He Hd [Ha|Hon]; unfold sat_flag.
  - left. by rewrite (sens_of_evolves h' d d').
  - right. by eapply flag_on_evolves.
Qed.

Lemma check_encryption_in_transit_flag h m :
  check_encryption_in_transit h m
  = flag_check (fun _ => true) "security_config" "encryption_in_transit" h m.
Proof.
  unfold check_encryption_in_transit, flag_check, get_new, get_or, get.
  destruct (as_dict h m) as [d|]; [|done]. simpl.
  destruct (sub_get_or h (d !! "security_config") "encryption_in_transit"
              (VBool false)) as [x|]; [|done].
  simpl. by destruct (truthy h x).
Qed.

(** A flag that is on stays on, whatever is corrected afterwards. *)
Lemma flag_on_later h h' m d block flag :
  block ∈ block_keys → flag ∈ flag_keys →
  as_dict h m = Some d → flag_on h d block flag → evolves h h' →
  ∃ d', as_dict h' m = Some d' ∧ flag_on h' d' block flag.
Proof.
  intros Hb Hf Hd Hon He.
  destruct (as_dict_evolves _ _ _ _ He Hd) as (d' & Hd' & Hdd).
  exists d'. split; [done|]. by eapply flag_on_evolves.
Qed.

(** [setdefault] of a block followed by one flag set to [True]. *)
Lemma set_flag_Ok m block flag h h' u :
  block ∈ block_keys → flag ∈ flag_keys →
  setitem2 m block flag (VBool true) h = (Ok u, h') →
  evolves h h' ∧ ∃ d', as_dict h' m = Some d' ∧ flag_on h' d' block flag.
Proof.
  intros Hb Hf Hs.
  apply setitem2_evolves in Hs as (He & d & n & nd & Hd & Hn & Hnd & Hv).
  - split; [done|]. exists d. split; [done|]. by exists n, nd, (VBool true).
  - left. done.
  - intros ->. apply list_elem_of_In in Hb, Hf. simpl in Hb, Hf.
    destruct Hb as [<-|[<-|[]]]; intuition discriminate.
Qed.

Lemma in_block_keys_networking : "networking" ∈ block_keys.
Proof. apply list_elem_of_In. simpl. tauto. Qed.

Lemma in_block_keys_security : "security_config" ∈ block_keys.
Proof. apply list_elem_of_In. simpl. tauto. Qed.

Create HintDb keys.
#[local] Hint Resolve in_block_keys_networking in_block_keys_security : keys.

Ltac flag_key := apply list_elem_of_In; simpl; tauto.

(** *** The five checks of one flag *)

Lemma flag_policy_sound p applies block flag :
  block ∈ block_keys → flag ∈ flag_keys →
  (∀ h m, check_fn p h m = flag_check applies block flag h m) →
  (∀ h h' m r,
      correction_fn p m h = (Ok r, h') →
      r = m ∧ evolves h h' ∧ ∃ d', as_dict h' m = Some d' ∧ flag_on h' d' block flag) →
  sound_policy p (sat_flag applies block flag).
Proof.
  intros Hb Hf Hcheck Hfix. split.
  - intros h m d Hd. rewrite Hcheck. by apply flag_check_pass.
  - intros h h' d d'. by apply sat_flag_evolves.
  - intros h m d b Hd Hsat. rewrite Hcheck. by eapply flag_check_sat.
  - intros h h' m r Hc. destruct (Hfix _ _ _ _ Hc) as (-> & He & d' & Hd' & Hon).
    split; [done|]. split; [done|]. exists d'. split; [done|]. by right.
Qed.

Lemma correct_vpc_isolation_Ok h h' m r :
  correct_vpc_isolation m h = (Ok r, h') →
  r = m ∧ evolves h h'
  ∧ ∃ d', as_dict h' m = Some d'
          ∧ flag_on h' d' "networking" "vpc_enabled"
          ∧ flag_on h' d' "networking" "subnet_isolation"
          ∧ flag_on h' d' "networking" "private_endpoints".
Proof.
  unfold correct_vpc_isolation. intros H.
  apply bind_Ok in H as (u0 & h0 & S0 & H).
  apply bind_Ok in H as (u1 & h1 & S1 & H).
  apply bind_Ok in H as (u2 & h2 & S2 & H).
  apply bind_Ok in H as (u3 & h3 & S3 & H).
  apply ret_Ok in H as [-> ->].
  apply setdefault_dict_evolves in S0 as E0; [|auto with keys].
  apply set_flag_Ok in S1 as (E1 & d1 & Hd1 & F1); [|auto with keys|flag_key].
  apply set_flag_Ok in S2 as (E2 & d2 & Hd2 & F2); [|auto with keys|flag_key].
  apply set_flag_Ok in S3 as (E3 & d3 & Hd3 & F3); [|auto with keys|flag_key].
  split; [done|]. split; [eauto using evolves_trans|].
  exists d3. split; [done|].
  destruct (flag_on_later h1 h3 m d1 "networking" "vpc_enabled")
    as (d3' & Hd3' & F1'); [auto with keys|flag_key|done|done|eauto using evolves_trans|].
  destruct (flag_on_later h2 h3 m d2 "networking" "subnet_isolation")
    as (d3'' & Hd3'' & F2'); [auto with keys|flag_key|done|done|done|].
  rewrite Hd3 in Hd3', Hd3''. injection Hd3' as <-. injection Hd3'' as <-.
  done.
Qed.

Lemma one_flag_fix_Ok block flag h h' m r :
  block ∈ block_keys → flag ∈ flag_keys →
  bind (setdefault_dict m block)
       (fun _ => bind (setitem2 m block flag (VBool true)) (fun _ => ret m)) h
  = (Ok r, h') →
  r = m ∧ evolves h h' ∧ ∃ d', as_dict h' m = Some d' ∧ flag_on h' d' block flag.
Proof.
  intros Hb Hf H.
  apply bind_Ok in H as (u0 & h0 & S0 & H).
  apply bind_Ok in H as (u1 & h1 & S1 & H).
  apply ret_Ok in H as [-> ->].
  apply setdefault_dict_evolves in S0 as E0; [|done].
  apply set_flag_Ok in S1 as (E1 & d1 & Hd1 & F1); [|done..].
  split; [done|]. split; [eauto using evolves_trans|]. eauto.
Qed.

Lemma POL_HIPAA_001_sound :
  sound_policy POL_HIPAA_001
    (sat_flag (fun s => in_strs s ["PHI"; "PII"]) "networking" "vpc_enabled").
Proof.
  apply flag_policy_sound; [auto with keys|flag_key|done|].
  intros h h' m r Hc. apply correct_vpc_isolation_Ok in Hc.
  destruct Hc as (-> & He & d' & Hd' & F & _). eauto.
Qed.

Lemma POL_HIPAA_003_sound :
  sound_policy POL_HIPAA_003
    (sat_flag (fun s => eq_str s "PHI") "security_config" "audit_logging").
Proof.
  apply flag_policy_sound; [auto with keys|flag_key|done|].
  intros h h' m r. apply one_flag_fix_Ok; [auto with keys|flag_key].
Qed.

Lemma POL_IBM_001_sound :
  sound_policy POL_IBM_001
    (sat_flag (fun _ => true) "security_config" "encryption_in_transit").
Proof.
  apply flag_policy_sound; [auto with keys|flag_key| |].
  - apply check_encryption_in_transit_flag.
  - intros h h' m r. apply one_flag_fix_Ok; [auto with keys|flag_key].
Qed.

Lemma POL_IBM_002_sound :
  sound_policy POL_IBM_002
    (sat_flag (fun s => in_strs s ["PHI"; "PCI"]) "networking" "private_endpoints").
Proof.
  apply flag_policy_sound; [auto with keys|flag_key|done|].
  intros h h' m r. apply one_flag_fix_Ok; [auto with keys|flag_key].
Qed.

Lemma POL_SEC_002_sound :
  sound_policy POL_SEC_002
    (sat_flag (fun s => in_strs s ["PHI"; "PCI"]) "security_config" "iam_policies").
Proof.
  apply flag_policy_sound; [auto with keys|flag_key|done|].
  intros h h' m r. apply one_flag_fix_Ok; [auto with keys|flag_key].
Qed.

(** *** The check of two flags *)

Lemma sub_get_truthy h d block flag x :
  sub_get_or h (d !! block) flag (VBool false) = Ok x → truthy h x = true →
  flag_on h d block flag.
Proof.
  intros Hg Ht. destruct (d !! block) as [n|] eqn:Hn; simpl in Hg.
  - apply get_or_Ok in Hg as (nd & Hnd & ->).
    destruct (nd !! flag) as [v|] eqn:Hv; [|discriminate Ht].
    by exists n, nd, v.
  - injection Hg as <-. discriminate Ht.
Qed.

Lemma flag_on_get h d block flag :
  flag_on h d block flag →
  ∃ x, sub_get_or h (d !! block) flag (VBool false) = Ok x ∧ truthy h x = true.
Proof.
  intros (n & nd & v & Hn & Hnd & Hv & Ht). exists v. rewrite Hn. simpl.
  by rewrite (get_or_dict _ _ _ _ _ Hnd), Hv.
Qed.

Lemma POL_SEC_001_sound : sound_policy POL_SEC_001 sat_public_api.
Proof.
  split.
  - intros h m d Hd. simpl. unfold check_no_public_api_for_sensitive_data, get_new.
    rewrite (get_or_dict _ _ _ _ _ Hd), (get_dict _ _ _ _ Hd). simpl res_bind.
    fold (sens_of d). unfold sat_public_api.
    destruct (in_strs (sens_of d) ["PHI"; "PII"; "PCI"]); [|by left].
    intros Hc. right.
    destruct (sub_get_or h (d !! "networking") "vpc_enabled" (VBool false))
      as [x|] eqn:Hx; [|(simpl in Hc; discriminate Hc)]. simpl in Hc.
    destruct (truthy h x) eqn:Htx; [|(simpl in Hc; discriminate Hc)]. simpl in Hc.
    destruct (sub_get_or h (d !! "networking") "subnet_isolation" (VBool false))
      as [y|] eqn:Hy; [|(simpl in Hc; discriminate Hc)]. simpl in Hc.
    destruct (truthy h y) eqn:Hty; [|(simpl in Hc; discriminate Hc)].
    split; by eapply sub_get_truthy.
  - intros h h' d d' He Hd [Ha|[F1 F2]]; unfold sat_public_api.
    + left. by rewrite (sens_of_evolves h' d d').
    + right. split; (eapply flag_on_evolves; [auto with keys|flag_key|done..]).
  - intros h m d b Hd Hsat. simpl.
    unfold check_no_public_api_for_sensitive_data, get_new.
    rewrite (get_or_dict _ _ _ _ _ Hd), (get_dict _ _ _ _ Hd). simpl res_bind.
    fold (sens_of d). destruct Hsat as [->|[F1 F2]]; [congruence|].
    destruct (in_strs (sens_of d) ["PHI"; "PII"; "PCI"]); [|congruence].
    apply flag_on_get in F1 as (x & -> & Hx), F2 as (y & -> & Hy). simpl.
    rewrite Hx, Hy. simpl. congruence.
  - intros h h' m r Hc. apply correct_vpc_isolation_Ok in Hc.
    destruct Hc as (-> & He & d' & Hd' & F1 & F2 & _).
    split; [done|]. split; [done|]. exists d'. split; [done|]. by right.
Qed.

(** *** Encryption at rest *)

Lemma as_dict_Some h v d :
  as_dict h v = Some d → ∃ l, v = VRef l ∧ h !! l = Some (ODict d).
Proof.
  destruct v as [| | | |l]; try done. unfold as_dict.
  destruct (h !! l) as [[d0|]|] eqn:Hl; try done. intros [= ->]. eauto.
Qed.

Lemma any_database_false h items :
  any_database h items = Ok false → Forall (item_ok not_database h) items.
Proof.
  induction items as [|s rest IH]; simpl; [constructor|].
  intros H. apply res_bind_Ok in H as (ro & Hg & H).
  apply get_or_Ok in Hg as (dv & Hdv & ->).
  destruct (eq_str (default VNone (dv !! "role")) "database") eqn:Hdb;
    [discriminate H|].
  constructor; [|auto].
  apply as_dict_Some in Hdv as (l & -> & Hl). simpl. eauto.
Qed.

Lemma any_database_ok h items b :
  Forall (item_ok not_database h) items → any_database h items = Ok b → b = false.
Proof.
  induction 1 as [|s rest Hs _ IH]; simpl; [congruence|].
  intros H. apply res_bind_Ok in H as (ro & Hg & H).
  apply get_or_Ok in Hg as (dv & Hdv & ->).
  apply as_dict_Some in Hdv as (l & -> & Hl). simpl in Hs.
  destruct Hs as (dv' & Hl' & Hnd). rewrite Hl in Hl'. injection Hl' as <-.
  unfold not_database, is_database in Hnd. rewrite Hnd in H. auto.
Qed.

Lemma upgrade_plans_evolves items h h' u :
  upgrade_plans items h = (Ok u, h') → evolves h h'.
Proof.
  revert h. induction items as [|svc rest IH]; intros h; simpl.
  - intros H. apply ret_Ok in H as [_ ->]. apply evolves_refl.
  - intros H.
    apply bind_Ok in H as (ro & h0 & S0 & H). apply read_Ok in S0 as [_ ->].
    apply bind_Ok in H as (u1 & h1 & S1 & H).
    apply IH in H. eapply evolves_trans; [|done].
    destruct (eq_str ro "database").
    + apply setitem_evolves in S1 as [He _]; [done|]. right. right. done.
    + apply ret_Ok in S1 as [_ ->]. apply evolves_refl.
Qed.

Lemma correct_encryption_at_rest_Ok h h' m r :
  correct_encryption_at_rest m h = (Ok r, h') →
  r = m ∧ evolves h h'
  ∧ ∃ d', as_dict h' m = Some d'
          ∧ flag_on h' d' "security_config" "encryption_at_rest".
Proof.
  unfold correct_encryption_at_rest. intros H.
  apply bind_Ok in H as (u0 & h0 & S0 & H).
  apply bind_Ok in H as (u1 & h1 & S1 & H).
  apply bind_Ok in H as (sens & h2 & S2 & H). apply read_Ok in S2 as [_ ->].
  apply bind_Ok in H as (u3 & h3 & S3 & H).
  apply ret_Ok in H as [-> ->].
  apply setdefault_dict_evolves in S0 as E0; [|auto with keys].
  apply set_flag_Ok in S1 as (E1 & d1 & Hd1 & F1); [|auto with keys|flag_key].
  assert (E3 : evolves h1 h3).
  { destruct (eq_str sens "PHI").
    - apply bind_Ok in S3 as (svcs & h4 & S4 & S3). apply read_Ok in S4 as [_ ->].
      apply bind_Ok in S3 as (items & h5 & S5 & S3). apply read_Ok in S5 as [_ ->].
      by eapply upgrade_plans_evolves.
    - apply ret_Ok in S3 as [_ ->]. apply evolves_refl. }
  split; [done|]. split; [eauto using evolves_trans|].
  eapply flag_on_later; [auto with keys|flag_key|done..].
Qed.

Lemma POL_HIPAA_002_sound : sound_policy POL_HIPAA_002 sat_at_rest.
Proof.
  split.
  - intros h m d Hd. simpl. unfold check_encryption_at_rest, get_new.
    rewrite !(get_dict _ _ _ _ Hd). simpl res_bind. intros Hc.
    destruct (iter_sub h (d !! "services")) as [items|] eqn:Hi; [|(simpl in Hc; discriminate Hc)].
    simpl in Hc.
    destruct (any_database h items) as [[|]|] eqn:Hdb; [| |(simpl in Hc; discriminate Hc)];
      simpl in Hc.
    + right.
      destruct (sub_get_or h (d !! "security_config") "encryption_at_rest"
                  (VBool false)) as [x|] eqn:Hx; [|(simpl in Hc; discriminate Hc)].
      simpl in Hc. destruct (truthy h x) eqn:Htx; [|(simpl in Hc; discriminate Hc)].
      by eapply sub_get_truthy.
    + left. exists items. split; [done|]. by apply any_database_false.
  - intros h h' d d' He Hd [Hs|Hf]; unfold sat_at_rest.
    + left. eapply services_ok_evolves; [|done..].
      intros dv dv'. apply not_database_evolves.
    + right. eapply flag_on_evolves; [auto with keys|flag_key|done..].
  - intros h m d b Hd Hsat. simpl. unfold check_encryption_at_rest, get_new.
    rewrite !(get_dict _ _ _ _ Hd). simpl res_bind. intros Hc.
    destruct (iter_sub h (d !! "services")) as [items|] eqn:Hi; [|(simpl in Hc; discriminate Hc)].
    simpl in Hc.
    destruct (any_database h items) as [hb|] eqn:Hdb; [|(simpl in Hc; discriminate Hc)].
    simpl in Hc. destruct Hsat as [(items' & Hi' & HF)|Hf].
    + assert (items' = items) as -> by congruence.
      apply (any_database_ok _ _ _ HF) in Hdb as ->. simpl in Hc. congruence.
    + destruct hb; [|simpl in Hc; congruence].
      apply flag_on_get in Hf as (x & Hx & Ht). rewrite Hx in Hc. simpl in Hc.
      rewrite Ht in Hc. simpl in Hc. congruence.
  - intros h h' m r Hc. apply correct_encryption_at_rest_Ok in Hc.
    destruct Hc as (-> & He & d' & Hd' & F).
    split; [done|]. split; [done|]. exists d'. split; [done|]. by right.
Qed.

(** *** Region compliance *)

Lemma region_loop_true h items :
  region_loop h items = Ok true → Forall (item_ok in_eu h) items.
Proof.
  induction items as [|svc rest IH]; simpl; [constructor|].
  intros H. apply res_bind_Ok in H as (ro & Hg & H).
  apply get_or_Ok in Hg as (dv & Hdv & ->).
  apply res_bind_Ok in H as (outside & Ho & H).
  destruct outside; [discriminate H|].
  constructor; [|auto].
  pose proof Hdv as Hdv'. apply as_dict_Some in Hdv' as (l & -> & Hl). simpl.
  exists dv. split; [done|]. unfold in_eu, is_database. intros Hdb.
  rewrite Hdb in Ho. rewrite (get_or_dict _ _ _ _ _ Hdv) in Ho. simpl in Ho.
  injection Ho as Ho. by apply negb_false_iff in Ho.
Qed.

Lemma region_loop_ok h items b :
  Forall (item_ok in_eu h) items → region_loop h items = Ok b → b = true.
Proof.
  induction 1 as [|svc rest Hs _ IH]; simpl; [congruence|].
  intros H. apply res_bind_Ok in H as (ro & Hg & H).
  apply get_or_Ok in Hg as (dv & Hdv & ->).
  apply res_bind_Ok in H as (outside & Ho & H).
  pose proof Hdv as Hdv'. apply as_dict_Some in Hdv' as (l & -> & Hl).
  simpl in Hs. destruct Hs as (dv' & Hl' & Heu).
  rewrite Hl in Hl'. injection Hl' as <-.
  unfold in_eu, is_database in Heu.
  destruct (eq_str (default VNone (dv !! "role")) "database").
  - rewrite (get_or_dict _ _ _ _ _ Hdv) in Ho. simpl in Ho.
    rewrite Heu in Ho by done. injection Ho as <-. auto.
  - injection Ho as <-. auto.
Qed.

Lemma move_to_eu_Ok items h h' u :
  move_to_eu items h = (Ok u, h') →
  evolves h h' ∧ Forall (item_ok in_eu h') items.
Proof.
  revert h. induction items as [|svc rest IH]; intros h; simpl.
  - intros H. apply ret_Ok in H as [_ ->]. split; [apply evolves_refl|constructor].
  - intros H.
    apply bind_Ok in H as (ro & h0 & S0 & H). apply read_Ok in S0 as [S0 ->].
    apply get_or_Ok in S0 as (dv & Hdv & ->).
    apply bind_Ok in H as (u1 & h1 & S1 & H).
    apply IH in H as [E1 HF].
    assert (evolves h h1 ∧ item_ok in_eu h1 svc) as [E0 Hsvc].
    { pose proof Hdv as Hdv'. apply as_dict_Some in Hdv' as (l & -> & Hl).
      destruct (eq_str (default VNone (dv !! "role")) "database") eqn:Hdb.
      - apply setitem_evolves in S1 as [He (d' & Hd' & Hr)]; [|right; left; done].
        split; [done|]. apply as_dict_Some in Hd' as (l' & [= <-] & Hl').
        simpl. exists d'. split; [done|]. intros _. by rewrite Hr.
      - apply ret_Ok in S1 as [_ ->]. split; [apply evolves_refl|].
        simpl. exists dv. split; [done|]. unfold in_eu, is_database.
        rewrite Hdb. discriminate. }
    split; [eauto using evolves_trans|]. constructor; [|done].
    eapply item_ok_evolves; [|done..]. intros dv1 dv2. apply in_eu_evolves.
Qed.

Lemma POL_GDPR_001_sound : sound_policy POL_GDPR_001 sat_region.
Proof.
  split.
  - intros h m d Hd. simpl. unfold check_region_compliance, get_new.
    rewrite !(get_dict _ _ _ _ Hd). simpl res_bind. intros Hc.
    destruct (contains_sub h (d !! "applicable_frameworks") "GDPR")
      as [[|]|] eqn:Hg; [| |simpl in Hc; discriminate Hc]; simpl in Hc.
    + right.
      destruct (iter_sub h (d !! "services")) as [items|] eqn:Hi;
        [|simpl in Hc; discriminate Hc].
      simpl in Hc. exists items. split; [done|]. by apply region_loop_true.
    + by left.
  - intros h h' d d' He Hd [Hg|Hs]; unfold sat_region.
    + left. by eapply contains_sub_evolves.
    + right. eapply services_ok_evolves; [|done..].
      intros dv dv'. apply in_eu_evolves.
  - intros h m d b Hd Hsat. simpl. unfold check_region_compliance, get_new.
    rewrite !(get_dict _ _ _ _ Hd). simpl res_bind. intros Hc.
    destruct Hsat as [Hg|(items & Hi & HF)].
    + rewrite Hg in Hc. simpl in Hc. congruence.
    + destruct (contains_sub h (d !! "applicable_frameworks") "GDPR")
        as [[|]|]; simpl in Hc; [|congruence|discriminate Hc].
      rewrite Hi in Hc. simpl in Hc. by eapply region_loop_ok.
  - intros h h' m r. simpl. unfold correct_region_gdpr. intros H.
    apply bind_Ok in H as (svcs & h0 & S0 & H). apply read_Ok in S0 as [S0 ->].
    apply bind_Ok in H as (items & h1 & S1 & H). apply read_Ok in S1 as [S1 ->].
    apply bind_Ok in H as (u & h2 & S2 & H). apply ret_Ok in H as [-> ->].
    apply get_Ok in S0 as (d & Hd & ->).
    apply move_to_eu_Ok in S2 as [He HF].
    split; [done|]. split; [done|].
    destruct (as_dict_evolves _ _ _ _ He Hd) as (d' & Hd' & Hdd).
    exists d'. split; [done|]. right. unfold services_ok.
    rewrite (stable_lookup h2 d d') by done.
    by eapply iter_sub_evolves.
Qed.

(** Every policy of the registry is correctable. *)
Lemma registry_correctable : Forall correctable POLICY_KNOWLEDGE_BASE.
Proof.
  unfold POLICY_KNOWLEDGE_BASE.
  repeat apply Forall_cons_2; [..|apply Forall_nil_2]; eexists.
  - apply POL_HIPAA_001_sound.
  - apply POL_HIPAA_002_sound.
  - apply POL_HIPAA_003_sound.
  - apply POL_IBM_001_sound.
  - apply POL_IBM_002_sound.
  - apply POL_SEC_001_sound.
  - apply POL_SEC_002_sound.
  - apply POL_GDPR_001_sound.
Qed.

(** ** The passes of the guardrail *)

Lemma matching_Some policies id p :
  matching policies id = Some p → p ∈ policies ∧ policy_id p = id.
Proof.
  unfold matching. intros H. apply find_some in H as [Hin Heq].
  split; [by apply list_elem_of_In|]. by apply String.eqb_eq.
Qed.

Lemma matching_elem policies p :
  p ∈ policies → is_Some (matching policies (policy_id p)).
Proof.
  intros Hin. unfold matching.
  destruct (find _ policies) as [q|] eqn:Hf; [by eexists|].
  apply list_elem_of_In in Hin.
  pose proof (find_none _ _ Hf _ Hin) as Hn. simpl in Hn.
  by rewrite String.eqb_refl in Hn.
Qed.

Lemma matching_NoDup policies p :
  NoDup (policy_id <$> policies) → p ∈ policies →
  matching policies (policy_id p) = Some p.
Proof.
  unfold matching. induction policies as [|q rest IH]; intros Hnd Hin.
  - by apply elem_of_nil in Hin.
  - rewrite fmap_cons in Hnd. apply NoDup_cons in Hnd as [Hq Hnd]. simpl.
    destruct (String.eqb_spec (policy_id q) (policy_id p)) as [Heq|Hne].
    + apply elem_of_cons in Hin as [->|Hin]; [done|].
      exfalso. apply Hq. rewrite Heq. apply list_elem_of_fmap. eauto.
    + apply elem_of_cons in Hin as [->|Hin]; [done|]. auto.
Qed.

Lemma make_violation_id E p v : make_violation E p = Ok v → v_policy_id v = policy_id p.
Proof.
  unfold make_violation. intros H.
  apply res_bind_Ok in H as (sev & _ & H). apply res_bind_Ok in H as (fw & _ & H).
  injection H as <-. done.
Qed.

(** Pass 1 reports exactly the policies whose check fails, under
    their own ids. *)
Lemma audit_pass_Ok E h m policies found :
  audit_pass E h m policies = Ok found →
  (∀ v, v ∈ found → ∃ p, p ∈ policies ∧ v_policy_id v = policy_id p)
  ∧ (∀ p, p ∈ policies →
          check_fn p h m = Ok true
          ∨ ∃ v, v ∈ found ∧ v_policy_id v = policy_id p).
Proof.
  revert found. induction policies as [|q rest IH]; intros found; simpl.
  - intros [= <-]. split; intros x Hx; by apply elem_of_nil in Hx.
  - intros H. apply res_bind_Ok in H as (passed & Hq & H).
    destruct passed; simpl in H.
    + destruct (IH _ H) as [IH1 IH2]. split.
      * intros v Hv. destruct (IH1 v Hv) as (p & Hp & Hid).
        exists p. split; [by apply elem_of_cons; right|done].
      * intros p Hp. apply elem_of_cons in Hp as [->|Hp]; [by left|auto].
    + apply res_bind_Ok in H as (violation & Hv & H).
      apply res_bind_Ok in H as (found' & Hrest & H). injection H as <-.
      apply make_violation_id in Hv.
      destruct (IH _ Hrest) as [IH1 IH2]. split.
      * intros v Hin. apply elem_of_cons in Hin as [->|Hin].
        -- exists q. split; [by apply elem_of_cons; left|done].
        -- destruct (IH1 v Hin) as (p & Hp & Hid).
           exists p. split; [by apply elem_of_cons; right|done].
      * intros p Hp. apply elem_of_cons in Hp as [->|Hp].
        -- right. exists violation. split; [by apply elem_of_cons; left|done].
        -- destruct (IH2 p Hp) as [?|(v & Hv' & Hid)]; [by left|].
           right. exists v. split; [by apply elem_of_cons; right|done].
Qed.

(** The corrected violations are the found ones whose policy is
    resolved, in order. *)
Lemma correction_pass_length policies found cm h final corrected h' :
  correction_pass policies found cm h = (Ok (final, corrected), h') →
  length corrected
  = length (filter (fun v => is_Some (matching policies (v_policy_id v))) found).
Proof.
  revert cm h final corrected h'.
  induction found as [|v rest IH]; intros cm h final corrected h'; simpl.
  - intros H. apply ret_Ok in H as [[= _ ->] _]. done.
  - destruct (matching policies (v_policy_id v)) as [p|] eqn:Hm.
    + intros H. apply bind_Ok in H as (cm1 & h1 & S1 & H).
      apply bind_Ok in H as ([final' corrected'] & h2 & S2 & H).
      apply ret_Ok in H as [[= _ ->] _].
      rewrite filter_cons_True by (rewrite Hm; by eexists).
      simpl. f_equal. eauto.
    + intros H. rewrite filter_cons_False by (rewrite Hm; by intros [? ?]).
      eauto.
Qed.

Lemma filter_all {A} (P : A -> Prop) `{!∀ x, Decision (P x)} (l : list A) :
  (∀ x, x ∈ l → P x) → filter P l = l.
Proof.
  induction l as [|x l IH]; intros Hall; [done|].
  rewrite filter_cons_True by (apply Hall; by apply elem_of_cons; left).
  f_equal. apply IH. intros y Hy. apply Hall. by apply elem_of_cons; right.
Qed.

Lemma correction_pass_all_resolved policies found cm h final corrected h' :
  (∀ v, v ∈ found → is_Some (matching policies (v_policy_id v))) →
  correction_pass policies found cm h = (Ok (final, corrected), h') →
  length corrected = length found.
Proof.
  intros Hall H. rewrite (correction_pass_length _ _ _ _ _ _ _ H).
  by rewrite filter_all.
Qed.

Lemma correction_pass_unresolved policies found cm h final corrected h' v :
  v ∈ found → matching policies (v_policy_id v) = None →
  correction_pass policies found cm h = (Ok (final, corrected), h') →
  (length corrected < length found)%nat.
Proof.
  intros Hin Hm H. rewrite (correction_pass_length _ _ _ _ _ _ _ H).
  eapply length_filter_lt; [done|]. rewrite Hm. by intros [? ?].
Qed.

(** The correction loop makes every resolved policy pass, and keeps
    what passed before. *)
Lemma correction_pass_sound policies found cm h final corrected h' :
  Forall correctable policies →
  correction_pass policies found cm h = (Ok (final, corrected), h') →
  final = cm ∧ evolves h h'
  ∧ ∀ v p b, v ∈ found → matching policies (v_policy_id v) = Some p →
             check_fn p h' cm = Ok b → b = true.
Proof.
  intros Hok. revert cm h final corrected h'.
  induction found as [|v rest IH]; intros cm h final corrected h'; simpl.
  - intros H. apply ret_Ok in H as [[= -> _] ->].
    split; [done|]. split; [apply evolves_refl|].
    intros v p b Hv. by apply elem_of_nil in Hv.
  - destruct (matching policies (v_policy_id v)) as [q|] eqn:Hm.
    + intros H. apply bind_Ok in H as (cm1 & h1 & S1 & H).
      apply bind_Ok in H as ([final' corrected'] & h2 & S2 & H).
      apply ret_Ok in H as [[= -> _] ->].
      pose proof (matching_Some _ _ _ Hm) as [Hq _].
      rewrite Forall_forall in Hok. destruct (Hok q Hq) as [sat Hsat].
      destruct (sat_of_fix _ _ Hsat _ _ _ _ S1) as (-> & E1 & d1 & Hd1 & Hs1).
      destruct (IH _ _ _ _ _ S2) as (-> & E2 & Hrest).
      split; [done|]. split; [eauto using evolves_trans|].
      intros v' p b Hv' Hp Hc. apply elem_of_cons in Hv' as [->|Hv'].
      * assert (p = q) as -> by congruence.
        destruct (as_dict_evolves _ _ _ _ E2 Hd1) as (d2 & Hd2 & Hdd).
        eapply (pass_of_sat _ _ Hsat); [done| |done].
        by eapply (sat_mono _ _ Hsat).
      * eauto.
    + intros H. destruct (IH _ _ _ _ _ H) as (-> & E & Hrest).
      split; [done|]. split; [done|].
      intros v' p b Hv' Hp Hc. apply elem_of_cons in Hv' as [->|Hv'].
      * congruence.
      * eauto.
Qed.

Lemma revalidate_nil h cm policies remaining :
  (∀ p b, p ∈ policies → check_fn p h cm = Ok b → b = true) →
  revalidate h cm policies = Ok remaining → remaining = [].
Proof.
  revert remaining. induction policies as [|p rest IH]; intros remaining Hall; simpl.
  - congruence.
  - intros H. apply res_bind_Ok in H as (passed & Hp & H).
    apply res_bind_Ok in H as (rem' & Hrest & H). injection H as <-.
    rewrite (Hall p passed) by (done || by apply elem_of_cons; left). simpl.
    apply IH; [|done]. intros q b Hq. apply Hall. by apply elem_of_cons; right.
Qed.

Lemma registry_ids_NoDup : NoDup (policy_id <$> POLICY_KNOWLEDGE_BASE).
Proof. apply (bool_decide_unpack _). vm_compute. exact I. Qed.

Lemma selected_ids_NoDup names :
  NoDup (policy_id <$> get_policies_for_frameworks names).
Proof.
  rewrite get_policies_filter.
  apply (sublist_NoDup _ (policy_id <$> POLICY_KNOWLEDGE_BASE)).
  - apply registry_ids_NoDup.
  - apply fmap_sublist, sublist_filter.
Qed.

Lemma selected_correctable names :
  Forall correctable (get_policies_for_frameworks names).
Proof.
  rewrite get_policies_filter. apply Forall_forall. intros p Hp.
  apply list_elem_of_filter in Hp as [_ Hp].
  pose proof registry_correctable as H. rewrite Forall_forall in H. auto.
Qed.

Lemma dict_copy_Ok am h c h2 :
  dict_copy am h = (Ok c, h2) →
  ∃ d, as_dict h am = Some d ∧ as_dict h2 c = Some d ∧ evolves h h2.
Proof.
  unfold dict_copy. destruct (as_dict h am) as [d|] eqn:Hd; [|discriminate].
  unfold new_dict. intros [= <- <-]. exists d. split; [done|]. split.
  - unfold as_dict. by rewrite lookup_app_r, Nat.sub_diag by lia.
  - apply evolves_alloc.
Qed.

(** After the corrections every check that returns, returns [True]:
    the policies that passed before still pass, those that failed were
    corrected. *)
Lemma corrections_sufficient E policies h am found c h2 final corrected h3 :
  Forall correctable policies → NoDup (policy_id <$> policies) →
  audit_pass E h am policies = Ok found →
  dict_copy am h = (Ok c, h2) →
  correction_pass policies found c h2 = (Ok (final, corrected), h3) →
  final = c ∧ ∀ p b, p ∈ policies → check_fn p h3 final = Ok b → b = true.
Proof.
  intros Hok Hnd Haudit Hcopy Hloop.
  apply dict_copy_Ok in Hcopy as (da & Hda & Hdc & E1).
  destruct (correction_pass_sound _ _ _ _ _ _ _ Hok Hloop) as (-> & E2 & Hfixed).
  split; [done|]. intros p b Hp Hc.
  destruct (audit_pass_Ok _ _ _ _ _ Haudit) as [_ Hcases].
  destruct (Hcases p Hp) as [Hpass|(v & Hv & Hid)].
  - pose proof Hok as Hok'. rewrite Forall_forall in Hok'.
    destruct (Hok' p Hp) as [sat Hsat].
    destruct (as_dict_evolves _ _ _ _ E2 Hdc) as (d3 & Hd3 & Hdd).
    eapply (pass_of_sat _ _ Hsat); [done| |done].
    eapply (sat_mono _ _ Hsat); [done..|].
    eapply (sat_mono _ _ Hsat h h2 da da); [done| |].
    + intros k. apply key_evolves_refl.
    + by eapply (sat_of_pass _ _ Hsat).
  - eapply Hfixed; [done| |done]. rewrite Hid. by apply matching_NoDup.
Qed.

Lemma revalidate_all_pass h cm policies :
  revalidate h cm policies = Ok [] → ∀ p, p ∈ policies → check_fn p h cm = Ok true.
Proof.
  induction policies as [|q rest IH]; simpl; intros H p Hp.
  - by apply elem_of_nil in Hp.
  - apply res_bind_Ok in H as (passed & Hq & H).
    apply res_bind_Ok in H as (rem' & Hrest & H). injection H as H.
    destruct passed; simpl in H; [|discriminate H]. subst rem'.
    apply elem_of_cons in Hp as [->|Hp]; auto.
Qed.

(** ** The stage as a whole *)

Lemma correct_and_report_Ok E md fw am policies found h r rem h' :
  correct_and_report E md fw am policies found h = (Ok (r, rem), h') →
  ∃ c h2 final corrected h3,
    dict_copy am h = (Ok c, h2)
    ∧ match found with
      | [] => final = c ∧ corrected = [] ∧ rem = None ∧ h3 = h2
      | _ :: _ =>
          correction_pass policies found c h2 = (Ok (final, corrected), h3)
          ∧ ∃ remaining, revalidate h3 final policies = Ok remaining
                         ∧ rem = Some remaining
      end
    ∧ violations_found r = found
    ∧ violations_corrected r = corrected
    ∧ (status r, final_compliance_score r) = determine_status found corrected.
Proof.
  unfold correct_and_report. intros H.
  apply bind_Ok in H as (c & h2 & Scopy & H).
  apply bind_Ok in H as ([[final corrected] rem0] & h3 & Sloop & H).
  apply bind_Ok in H as (svcs & hx & S & H). apply read_Ok in S as [_ ->].
  apply bind_Ok in H as (items & hx & S & H). apply read_Ok in S as [_ ->].
  apply bind_Ok in H as (csvcs & hx & S & H). apply read_Ok in S as [_ ->].
  apply bind_Ok in H as (pname & hx & S & H). apply read_Ok in S as [_ ->].
  apply bind_Ok in H as (descr & hx & S & H). apply read_Ok in S as [_ ->].
  apply bind_Ok in H as (net & h4 & _ & H).
  apply bind_Ok in H as (sec & h5 & _ & H).
  apply bind_Ok in H as (cost & hx & S & H). apply read_Ok in S as [_ ->].
  apply bind_Ok in H as (diagram & hx & S & H). apply read_Ok in S as [_ ->].
  destruct (determine_status found corrected) as [st sc] eqn:Hst.
  apply bind_Ok in H as (fws & hx & S & H). apply read_Ok in S as [_ ->].
  apply ret_Ok in H as [[= -> ->] ->]. simpl.
  exists c, h2, final, corrected, h3. split; [done|]. split; [|done].
  destruct found as [|v rest].
  - apply ret_Ok in Sloop as [[= -> -> ->] ->]. done.
  - apply bind_Ok in Sloop as ([final' corrected'] & h3' & Sc & Sloop).
    apply bind_Ok in Sloop as (remaining & hx & S & Sloop).
    apply read_Ok in S as [S ->].
    apply ret_Ok in Sloop as [[= -> -> ->] ->]. eauto.
Qed.

Lemma guardrail_body_Ok E architect_result intent_result h r rem h' :
  guardrail_body E architect_result intent_result h = (Ok (r, rem), h') →
  ∃ md fw am da policies found h1,
    select_policies h1 fw = Ok policies
    ∧ as_dict h1 am = Some da
    ∧ audit_pass E h1 am policies = Ok found
    ∧ correct_and_report E md fw am policies found h1 = (Ok (r, rem), h').
Proof.
  unfold guardrail_body. intros H.
  apply bind_Ok in H as (md & hx & S & H). apply read_Ok in S as [_ ->].
  apply bind_Ok in H as (sens & hx & S & H). apply read_Ok in S as [_ ->].
  apply bind_Ok in H as (asked & hx & S & H). apply read_Ok in S as [_ ->].
  apply bind_Ok in H as (fw & h0 & _ & H).
  apply bind_Ok in H as (entries & hx & S & H). apply read_Ok in S as [_ ->].
  apply bind_Ok in H as (am & h1 & Snew & H).
  apply bind_Ok in H as (policies & hx & S & H). apply read_Ok in S as [Ssel ->].
  apply bind_Ok in H as (found & hx & S & H). apply read_Ok in S as [Saudit ->].
  unfold new_dict in Snew. injection Snew as <- <-.
  eexists md, fw, _, _, policies, found, _. split; [done|]. split; [|done].
  unfold as_dict. by rewrite lookup_app_r, Nat.sub_diag by lia.
Qed.

Lemma select_policies_Ok h fw policies :
  select_policies h fw = Ok policies →
  ∃ names, policies = get_policies_for_frameworks names.
Proof.
  unfold select_policies. intros H.
  apply res_bind_Ok in H as (items & _ & H).
  apply res_bind_Ok in H as (names & _ & H). injection H as <-. eauto.
Qed.

Lemma passes_leave_nothing
    (E : env) (names : list string) (h : heap) (audit_manifest : val)
    (found : list PolicyViolation) (working : val) (h2 : heap)
    (final : val) (corrected : list PolicyViolation) (h3 : heap)
    (remaining : list string) :
  audit_pass E h audit_manifest (get_policies_for_frameworks names) = Ok found →
  dict_copy audit_manifest h = (Ok working, h2) →
  correction_pass (get_policies_for_frameworks names) found working h2
  = (Ok (final, corrected), h3) →
  revalidate h3 final (get_policies_for_frameworks names) = Ok remaining →
  remaining = []
  ∧ ∀ p, p ∈ get_policies_for_frameworks names → check_fn p h3 final = Ok true.
Proof.
  intros Haudit Hcopy Hloop Hre.
  destruct (corrections_sufficient E _ _ _ _ _ _ _ _ _
              (selected_correctable names) (selected_ids_NoDup names)
              Haudit Hcopy Hloop) as [-> Hall].
  assert (remaining = []) as ->.
  { eapply revalidate_nil; [|done]. intros p b Hp. by apply Hall. }
  split; [done|]. by apply revalidate_all_pass.
Qed.

(** In a call that returns, the re-audit list is empty whenever pass 2
    ran, and pass 2 is skipped only when pass 1 found nothing. *)
Lemma guardrail_remaining_empty E architect_result intent_result h r rem h' :
  guardrail_body E architect_result intent_result h = (Ok (r, rem), h') →
  match rem with
  | Some remaining => remaining = [] ∧ violations_found r ≠ []
  | None => violations_found r = []
  end.
Proof.
  intros H.
  apply guardrail_body_Ok in H as (md & fw & am & da & policies & found & h1
                                   & Hsel & Hda & Haudit & H).
  apply select_policies_Ok in Hsel as (names & ->).
  apply correct_and_report_Ok in H
    as (c & h2 & final & corrected & h3 & Hcopy & Hloop & -> & _ & _).
  destruct found as [|v rest].
  - by destruct Hloop as (_ & _ & -> & _).
  - destruct Hloop as (Hloop & remaining & Hre & ->).
    split; [|done].
    by destruct (passes_leave_nothing E names _ _ _ _ _ _ _ _ _
                   Haudit Hcopy Hloop Hre).
Qed.

(** ** Unresolved violations *)

Lemma determine_status_resolved found corrected :
  length corrected = length found →
  ((determine_status found corrected).1 = PASSED
   ∨ (determine_status found corrected).1 = CORRECTED)
  ∧ 60 <= (determine_status found corrected).2.
Proof.
  intros Hlen. destruct found as [|v rest].
  - simpl. split; [by left|lia].
  - rewrite determine_status_corrected by done. simpl.
    split; [by right|]. unfold corrected_score. lia.
Qed.

Lemma determine_status_unresolved found corrected :
  (length corrected < length found)%nat →
  determine_status found corrected = (FAILED, 40).
Proof.
  intros Hlt. destruct found as [|v vs]; simpl in *; [lia|].
  destruct (Nat.eqb_spec (length corrected) (S (length vs))); [lia|done].
Qed.

(** C9. In every call whose body raises no exception, every violation of
    pass 1 carries the id of a policy of the selected list, which the
    correction loop resolves; so as many violations are corrected as were
    found, the status is PASSED or CORRECTED, never FAILED, and the score
    is at least 60, never 40. *)
Theorem no_exception_means_not_failed
    (E : env) (architect_result intent_result : val) (h h' : heap)
    (r : GovernanceReport) (rem : option (list string)) :
  guardrail_body E architect_result intent_result h = (Ok (r, rem), h') →
  (∃ names,
      tokens_used r = Z.of_nat (length (get_policies_for_frameworks names)) * 50
      ∧ ∀ v, v ∈ violations_found r →
             ∃ p, p ∈ get_policies_for_frameworks names
                  ∧ policy_id p = v_policy_id v
                  ∧ matching (get_policies_for_frameworks names) (v_policy_id v)
                    = Some p)
  ∧ length (violations_corrected r) = length (violations_found r)
  ∧ (status r = PASSED ∨ status r = CORRECTED)
  ∧ status r ≠ FAILED
  ∧ 60 <= final_compliance_score r
  ∧ final_compliance_score r ≠ 40
  ∧ (run_governance_guardrail E architect_result intent_result h).1
    = {| stage_id := 3;
         stage_name := "Governance Guardrail";
         stage_status := status r;
         duration_ms := elapsed_ms E;
         result := Some r;
         error := None |}.
Proof.
  intros Hbody. pose proof Hbody as H.
  apply guardrail_body_Ok in H as (md & fw & am & da & policies & found & h1
                                   & Hsel & Hda & Haudit & H).
  apply select_policies_Ok in Hsel as (names & ->).
  pose proof H as Hrep.
  apply correct_and_report_Ok in H
    as (c & h2 & final & corrected & h3 & Hcopy & Hloop & Hf & Hc & Hst).
  destruct (audit_pass_Ok _ _ _ _ _ Haudit) as [Hids _].
  assert (Hres : ∀ v, v ∈ found →
            ∃ p, p ∈ get_policies_for_frameworks names
                 ∧ policy_id p = v_policy_id v
                 ∧ matching (get_policies_for_frameworks names) (v_policy_id v)
                   = Some p).
  { intros v Hv. destruct (Hids v Hv) as (p & Hp & Hid).
    exists p. split; [done|]. split; [done|]. rewrite Hid.
    apply matching_NoDup; [apply selected_ids_NoDup|done]. }
  assert (Hlen : length corrected = length found).
  { destruct found as [|v rest].
    - by destruct Hloop as (_ & -> & _).
    - destruct Hloop as (Hloop & _).
      eapply correction_pass_all_resolved; [|done].
      intros x Hx. destruct (Hres x Hx) as (p & _ & _ & ->). by eexists. }
  destruct (determine_status_resolved found corrected Hlen) as [Hs Hsc].
  rewrite <- Hst in Hs, Hsc. simpl in Hs, Hsc.
  split.
  { exists names. rewrite Hf. split; [|done].
    unfold correct_and_report in Hrep. clear -Hrep.
    apply bind_Ok in Hrep as (c & h2 & _ & H).
    apply bind_Ok in H as ([[final corrected] rem0] & h3 & _ & H).
    do 5 (apply bind_Ok in H as (? & ? & _ & H)).
    do 4 (apply bind_Ok in H as (? & ? & _ & H)).
    destruct (determine_status found corrected) as [st sc].
    apply bind_Ok in H as (? & ? & _ & H).
    apply ret_Ok in H as [[= -> _] _]. done. }
  rewrite Hf, Hc. split; [done|]. split; [done|].
  split; [destruct Hs as [-> | ->]; discriminate|].
  split; [done|]. split; [lia|].
  unfold run_governance_guardrail. rewrite Hbody. done.
Qed.

(** The example call: it returns, with status CORRECTED and score 60. *)
Lemma no_exception_means_not_failed_witness :
  (status example_report = CORRECTED
   ∧ final_compliance_score example_report = 60)
  ∧ length (violations_corrected example_report)
    = length (violations_found example_report)
  ∧ status example_report ≠ FAILED.
Proof.
  split; [split; reflexivity|].
  destruct (no_exception_means_not_failed example_env example_architect_result
              example_intent_result example_heap example_run.2 example_report
              (Some []))
    as (_ & Hlen & _ & Hnf & _); [reflexivity|].
  split; [exact Hlen|exact Hnf].
Defined.

(** ** Violations and their policies *)

(** The loop has no branch of its own for a violation whose policy is not
    found: it would go on with the next violation. *)
Lemma correction_pass_skip policies v rest cm :
  matching policies (v_policy_id v) = None →
  correction_pass policies (v :: rest) cm = correction_pass policies rest cm.
Proof. intros Hm. simpl. by rewrite Hm. Qed.

(** When every lookup succeeds, the loop re-emits each violation with the
    correction note of its policy. *)
Lemma correction_pass_shape policies found cm h final corrected h' :
  (∀ v, v ∈ found → is_Some (matching policies (v_policy_id v))) →
  correction_pass policies found cm h = (Ok (final, corrected), h') →
  Forall2 (fun v c => ∃ p, matching policies (v_policy_id v) = Some p
                           ∧ c = with_correction v (correction_description p))
          found corrected.
Proof.
  revert cm h final corrected h'.
  induction found as [|v rest IH]; intros cm h final corrected h' Hall; simpl.
  - intros H. apply ret_Ok in H as [[= _ ->] _]. constructor.
  - destruct (Hall v) as [p Hp]; [by apply elem_of_cons; left|]. rewrite Hp.
    intros H. apply bind_Ok in H as (cm1 & h1 & S1 & H).
    apply bind_Ok in H as ([final' corrected'] & h2 & S2 & H).
    apply ret_Ok in H as [[= _ ->] _].
    constructor; [by exists p|].
    eapply IH; [|done]. intros x Hx. apply Hall. by apply elem_of_cons; right.
Qed.

Lemma correct_and_report_tokens E md fw am policies found h r rem h' :
  correct_and_report E md fw am policies found h = (Ok (r, rem), h') →
  tokens_used r = Z.of_nat (length policies) * 50.
Proof.
  unfold correct_and_report. intros H.
  apply bind_Ok in H as (c & h2 & _ & H).
  apply bind_Ok in H as ([[final corrected] rem0] & h3 & _ & H).
  do 5 (apply bind_Ok in H as (? & ? & _ & H)).
  do 4 (apply bind_Ok in H as (? & ? & _ & H)).
  destruct (determine_status found corrected) as [st sc].
  apply bind_Ok in H as (? & ? & _ & H).
  apply ret_Ok in H as [[= -> _] _]. done.
Qed.



(** ** Sufficiency of single corrections *)

Lemma setitem_run l k v h d :
  h !! l = Some (ODict d) →
  setitem (VRef l) k v h = (Ok tt, <[l := ODict (<[k := v]> d)]> h).
Proof. intros Hl. unfold setitem. by rewrite Hl. Qed.

Lemma setitem2_run m k1 k2 v h d n nd :
  h !! m = Some (ODict d) → d !! k1 = Some (VRef n) →
  h !! n = Some (ODict nd) → k1 ≠ k2 →
  ∃ h', setitem2 (VRef m) k1 k2 v h = (Ok tt, h')
        ∧ h' !! n = Some (ODict (<[k2 := v]> nd))
        ∧ ∃ d', h' !! m = Some (ODict d') ∧ ∀ k, k ≠ k2 → d' !! k = d !! k.
Proof.
  intros Hm Hk1 Hn Hne.
  assert (n < length h)%nat by (by eapply lookup_lt_Some).
  exists (<[n := ODict (<[k2 := v]> nd)]> h). split; [|split].
  - unfold setitem2, bind, read, getitem. rewrite Hm, Hk1.
    by apply setitem_run.
  - by apply list_lookup_insert_eq.
  - destruct (decide (m = n)) as [->|Hmn].
    + exists (<[k2 := v]> nd). split; [by apply list_lookup_insert_eq|].
      intros k Hk. rewrite lookup_insert_ne by done. congruence.
    + exists d. split; [|done]. by rewrite list_lookup_insert_ne.
Qed.

(** C6. For every manifest with [detected_sensitivity = "PHI"] and
    [networking.vpc_enabled = False], the correction of the VPC-isolation
    policy returns the manifest with [vpc_enabled], [subnet_isolation] and
    [private_endpoints] of its networking block all [True], and the
    VPC-isolation check passes on it. *)
Theorem vpc_correction_sufficient
    (h : heap) (m n : loc) (d nd : gmap string val) :
  h !! m = Some (ODict d) →
  d !! "detected_sensitivity" = Some (VStr "PHI") →
  d !! "networking" = Some (VRef n) →
  h !! n = Some (ODict nd) →
  nd !! "vpc_enabled" = Some (VBool false) →
  ∃ h', correct_vpc_isolation (VRef m) h = (Ok (VRef m), h')
        ∧ (∃ d' nd', h' !! m = Some (ODict d')
                     ∧ d' !! "networking" = Some (VRef n)
                     ∧ h' !! n = Some (ODict nd')
                     ∧ nd' !! "vpc_enabled" = Some (VBool true)
                     ∧ nd' !! "subnet_isolation" = Some (VBool true)
                     ∧ nd' !! "private_endpoints" = Some (VBool true))
        ∧ check_vpc_isolation h' (VRef m) = Ok true.
Proof.
  intros Hm Hsens Hnet Hn _.
  destruct (setitem2_run m "networking" "vpc_enabled" (VBool true) h d n nd)
    as (h1 & S1 & Hn1 & d1 & Hm1 & Hd1); [done..|].
  destruct (setitem2_run m "networking" "subnet_isolation" (VBool true) h1 d1 n
              (<["vpc_enabled" := VBool true]> nd))
    as (h2 & S2 & Hn2 & d2 & Hm2 & Hd2); [done|by rewrite Hd1|done..|].
  destruct (setitem2_run m "networking" "private_endpoints" (VBool true) h2 d2 n
              (<["subnet_isolation" := VBool true]>
                 (<["vpc_enabled" := VBool true]> nd)))
    as (h3 & S3 & Hn3 & d3 & Hm3 & Hd3);
    [done|by rewrite Hd2, Hd1|done..|].
  assert (Hnet3 : d3 !! "networking" = Some (VRef n))
    by (by rewrite Hd3, Hd2, Hd1).
  assert (Hsens3 : d3 !! "detected_sensitivity" = Some (VStr "PHI"))
    by (by rewrite Hd3, Hd2, Hd1).
  exists h3. split; [|split].
  - unfold correct_vpc_isolation, bind.
    assert (setdefault_dict (VRef m) "networking" h = (Ok tt, h)) as ->.
    { unfold setdefault_dict, as_dict. by rewrite Hm, Hnet. }
    by rewrite S1, S2, S3.
  - eexists d3, _. split; [done|]. split; [done|]. split; [done|].
    by simplify_map_eq.
  - unfold check_vpc_isolation, get_new.
    assert (Hd : as_dict h3 (VRef m) = Some d3) by (unfold as_dict; by rewrite Hm3).
    rewrite (get_or_dict _ _ _ _ _ Hd), (get_dict _ _ _ _ Hd). simpl res_bind.
    rewrite Hsens3, Hnet3. simpl.
    assert (Hnd : as_dict h3 (VRef n) = Some _) by (unfold as_dict; by rewrite Hn3).
    rewrite (get_or_dict _ _ _ _ _ Hnd). by simplify_map_eq.
Qed.

(** The example store after the intent has been attached: the audit
    manifest (8) says PHI and its networking block (2) has no VPC. *)
Lemma vpc_correction_sufficient_witness :
  ∃ h', correct_vpc_isolation example_audit_manifest example_audit_heap
        = (Ok example_audit_manifest, h')
        ∧ check_vpc_isolation h' example_audit_manifest = Ok true.
Proof.
  destruct (vpc_correction_sufficient example_audit_heap 8 2
              (list_to_map
                 [("project_name", VStr "clinic-portal");
                  ("description", VStr "Patient portal");
                  ("services", VRef 4%nat);
                  ("networking", VRef 2%nat);
                  ("security_config", VRef 3%nat);
                  ("detected_sensitivity", VStr "PHI");
                  ("applicable_frameworks", VRef 7%nat)])
              {[ "vpc_enabled" := VBool false ]})
    as (h' & Hrun & _ & Hcheck); [reflexivity..|].
  exists h'. split; [exact Hrun|exact Hcheck].
Defined.

Lemma evolves_list h h' l xs :
  evolves h h' → h !! l = Some (OList xs) → h' !! l = Some (OList xs).
Proof.
  intros He Hl. destruct (He _ _ Hl) as (o' & Ho' & Hoo).
  destruct o'; simpl in Hoo; [done|]. by subst.
Qed.

Lemma dict_ref_evolves h h' v : evolves h h' → dict_ref h v → dict_ref h' v.
Proof.
  intros He (l & dv & -> & Hl).
  destruct (evolves_is_dict h h' l He) as [dv' Hl']; [by exists dv|].
  by exists l, dv'.
Qed.

Lemma move_to_eu_run items h :
  Forall (dict_ref h) items → ∃ h', move_to_eu items h = (Ok tt, h').
Proof.
  revert h. induction items as [|svc rest IH]; intros h HF.
  - by exists h.
  - apply Forall_cons in HF as [(l & dv & -> & Hl) HF]. simpl.
    unfold bind at 1. unfold read at 1.
    assert (Hd : as_dict h (VRef l) = Some dv) by (unfold as_dict; by rewrite Hl).
    rewrite (get_or_dict _ _ _ _ _ Hd).
    destruct (eq_str (default VNone (dv !! "role")) "database").
    + unfold bind at 1. rewrite (setitem_run _ _ _ _ _ Hl).
      apply IH. eapply Forall_impl; [exact HF|]. intros v. apply dict_ref_evolves.
      apply evolves_write with dv; [done|]. apply write_ok_evolves.
      right. left. done.
    + unfold bind at 1. simpl. by apply IH.
Qed.

Lemma region_loop_run h items :
  Forall (dict_ref h) items → Forall (item_ok in_eu h) items →
  region_loop h items = Ok true.
Proof.
  induction 1 as [|svc rest (l & dv & -> & Hl) _ IH]; intros HF; [done|].
  apply Forall_cons in HF as [(dv' & Hl' & Heu) HF]. simpl.
  rewrite Hl in Hl'. injection Hl' as <-.
  assert (Hd : as_dict h (VRef l) = Some dv) by (unfold as_dict; by rewrite Hl).
  rewrite !(get_or_dict _ _ _ _ _ Hd). simpl.
  unfold in_eu, is_database in Heu.
  destruct (eq_str (default VNone (dv !! "role")) "database"); simpl.
  - rewrite Heu by done. simpl. auto.
  - auto.
Qed.

(** C7. For every manifest whose applicable frameworks include GDPR and
    whose services include a database service in region [us-south], the
    correction of the region-compliance policy returns the manifest with
    that service's region set to [eu-gb], one of the EU regions, and the
    region-compliance check passes on it.  The services of a manifest are
    service entries, that is, dictionaries. *)
Theorem region_correction_sufficient
    (h : heap) (m f s l : loc) (d dv : gmap string val) (fws svcs : list val) :
  h !! m = Some (ODict d) →
  d !! "applicable_frameworks" = Some (VRef f) →
  h !! f = Some (OList fws) →
  VStr "GDPR" ∈ fws →
  d !! "services" = Some (VRef s) →
  h !! s = Some (OList svcs) →
  Forall (dict_ref h) svcs →
  VRef l ∈ svcs →
  h !! l = Some (ODict dv) →
  dv !! "role" = Some (VStr "database") →
  dv !! "region" = Some (VStr "us-south") →
  ∃ h', correct_region_gdpr (VRef m) h = (Ok (VRef m), h')
        ∧ (∃ dv', h' !! l = Some (ODict dv')
                  ∧ dv' !! "region" = Some (VStr "eu-gb")
                  ∧ in_strs (VStr "eu-gb") ["eu-gb"; "eu-de"; "eu-fr"] = true)
        ∧ check_region_compliance h' (VRef m) = Ok true.
Proof.
  intros Hm Hfw Hf Hgdpr Hsv Hs Hdicts Hin Hl Hrole Hregion.
  destruct (move_to_eu_run svcs h Hdicts) as (h' & Hrun).
  destruct (move_to_eu_Ok _ _ _ _ Hrun) as [He Heu].
  assert (Hd : as_dict h (VRef m) = Some d) by (unfold as_dict; by rewrite Hm).
  exists h'. split; [|split].
  - unfold correct_region_gdpr, bind, read, get_new.
    rewrite (get_dict _ _ _ _ Hd), Hsv. simpl. rewrite Hs, Hrun. done.
  - rewrite Forall_forall in Heu. destruct (Heu _ Hin) as (dv' & Hl' & Hdv').
    exists dv'. split; [done|]. split; [|reflexivity].
    destruct (He _ _ Hl) as (o' & Ho' & Hoo). rewrite Hl' in Ho'.
    injection Ho' as <-. simpl in Hoo.
    assert (Hdb : is_database dv' = true).
    { rewrite (is_database_evolves h' dv dv') by done.
      unfold is_database. by rewrite Hrole. }
    specialize (Hdv' Hdb).
    destruct (Hoo "region") as [H|[[H _]|[[_ H]|[[H _]|(H & _)]]]].
    + rewrite H, Hregion in Hdv'. discriminate Hdv'.
    + absurd_key.
    + done.
    + discriminate H.
    + absurd_key.
  - destruct (as_dict_evolves _ _ _ _ He Hd) as (d' & Hd' & Hdd).
    unfold check_region_compliance, get_new.
    rewrite !(get_dict _ _ _ _ Hd'). simpl res_bind.
    rewrite !(stable_lookup h' d d') by done. rewrite Hfw, Hsv. simpl.
    rewrite (evolves_list _ _ _ _ He Hf), (evolves_list _ _ _ _ He Hs).
    assert (existsb (fun x => eq_str x "GDPR") fws = true) as ->.
    { apply existsb_exists. exists (VStr "GDPR").
      split; [by apply list_elem_of_In|done]. }
    simpl. apply region_loop_run; [|done].
    eapply Forall_impl; [exact Hdicts|]. intros v. by apply dict_ref_evolves.
Qed.

(** The example store: the audit manifest (8) is under GDPR and its one
    service (5) is a database in us-south. *)
Lemma region_correction_sufficient_witness :
  ∃ h', correct_region_gdpr example_audit_manifest example_audit_heap
        = (Ok example_audit_manifest, h')
        ∧ (∃ dv', h' !! 5%nat = Some (ODict dv')
                  ∧ dv' !! "region" = Some (VStr "eu-gb"))
        ∧ check_region_compliance h' example_audit_manifest = Ok true.
Proof.
  destruct (region_correction_sufficient example_audit_heap 8 7 4 5
              (list_to_map
                 [("project_name", VStr "clinic-portal");
                  ("description", VStr "Patient portal");
                  ("services", VRef 4%nat);
                  ("networking", VRef 2%nat);
                  ("security_config", VRef 3%nat);
                  ("detected_sensitivity", VStr "PHI");
                  ("applicable_frameworks", VRef 7%nat)])
              (list_to_map
                 [("service_name", VStr "Databases for PostgreSQL");
                  ("service_id", VStr "databases-for-postgresql");
                  ("role", VStr "database");
                  ("region", VStr "us-south");
                  ("plan", VStr "standard")])
              [VStr "HIPAA"; VStr "GDPR"] [VRef 5%nat])
    as (h' & Hrun & (dv' & Hl' & Hr & _) & Hcheck).
  - reflexivity.
  - reflexivity.
  - reflexivity.
  - apply elem_of_cons. right. apply elem_of_cons. left. reflexivity.
  - reflexivity.
  - reflexivity.
  - apply Forall_cons. split; [|apply Forall_nil_2].
    eexists 5%nat, _. split; reflexivity.
  - apply elem_of_cons. left. reflexivity.
  - reflexivity.
  - reflexivity.
  - reflexivity.
  - exists h'. split; [exact Hrun|]. split; [|exact Hcheck].
    exists dv'. split; [exact Hl'|exact Hr].
Defined.

(** ** The input manifest *)

(** C1 does not hold of the code.  The audit manifest and the working
    copy are shallow copies: their [networking], [security_config] and
    [services] entries are the very objects of the input manifest, and the
    corrections write into them.  In the example call the networking block
    of the caller's manifest has [vpc_enabled = False] before and all
    three flags [True] after, its security block is filled in, and its
    database service has moved to [eu-gb] on a dedicated plan; only the
    top-level entries of the manifest are as before. *)
Theorem input_manifest_is_mutated :
  example_heap !! 2%nat = Some (ODict {[ "vpc_enabled" := VBool false ]})
  ∧ example_after !! 2%nat
    = Some (ODict (list_to_map
                     [("vpc_enabled", VBool true);
                      ("subnet_isolation", VBool true);
                      ("private_endpoints", VBool true)]))
  ∧ example_after !! 3%nat
    = Some (ODict (list_to_map
                     [("encryption_at_rest", VBool true);
                      ("audit_logging", VBool true);
                      ("encryption_in_transit", VBool true);
                      ("iam_policies", VBool true)]))
  ∧ example_after !! 5%nat
    = Some (ODict (list_to_map
                     [("service_name", VStr "Databases for PostgreSQL");
                      ("service_id", VStr "databases-for-postgresql");
                      ("role", VStr "database");
                      ("region", VStr "eu-gb");
                      ("plan", VStr "dedicated")]))
  ∧ example_after !! 1%nat = example_heap !! 1%nat
  ∧ snapshot 4 example_after example_manifest ≠ snapshot 4 example_heap example_manifest.
Proof.
  repeat split; try reflexivity.
  intros H. vm_compute in H. discriminate H.
Qed.

(** ** Manifests of the expected shape: every pass returns *)

Lemma as_dict_ref h l d : h !! l = Some (ODict d) → as_dict h (VRef l) = Some d.
Proof. intros Hl. unfold as_dict. by rewrite Hl. Qed.

Lemma block_wf_evolves h h' d d' block :
  block ∈ block_keys → evolves h h' → dict_evolves h' d d' →
  block_wf h (d !! block) → block_wf h' (d' !! block).
Proof.
  intros Hb He Hd Hwf. destruct (d !! block) as [v|] eqn:Hv.
  - rewrite (block_kept h' d d' block v) by done. simpl.
    by eapply dict_ref_evolves.
  - destruct (Hd block) as [H|[[H _]|[[H _]|[[H _]|(_ & _ & n & H & Hn)]]]].
    + by rewrite H, Hv.
    + apply list_elem_of_In in Hb, H. simpl in Hb, H.
      destruct Hb as [<-|[<-|[]]]; intuition discriminate.
    + subst. absurd_key.
    + subst. absurd_key.
    + rewrite H. simpl. destruct Hn as [dn Hn]. by exists n, dn.
Qed.

Lemma manifest_wf_evolves h h' d d' :
  evolves h h' → dict_evolves h' d d' → manifest_wf h d → manifest_wf h' d'.
Proof.
  intros He Hd (Hn & Hs & Hsv & Hf). repeat split.
  - eapply block_wf_evolves; [auto with keys|done..].
  - eapply block_wf_evolves; [auto with keys|done..].
  - rewrite (stable_lookup h' d d') by done.
    destruct (d !! "services") as [v|]; [|done].
    destruct Hsv as (s & svcs & -> & Hl & HF). exists s, svcs.
    split; [done|]. split; [by eapply evolves_list|].
    eapply Forall_impl; [exact HF|]. intros x. by apply dict_ref_evolves.
  - rewrite (stable_lookup h' d d') by done.
    destruct (d !! "applicable_frameworks") as [v|]; [|done].
    destruct Hf as (f & fws & -> & Hl). exists f, fws.
    split; [done|]. by eapply evolves_list.
Qed.

Lemma sub_get_or_total h o k dflt :
  block_wf h o → ∃ x, sub_get_or h o k dflt = Ok x.
Proof.
  destruct o as [v|]; simpl; [|by eexists].
  intros (l & dv & -> & Hl). rewrite (get_or_dict _ _ _ _ _ (as_dict_ref _ _ _ Hl)).
  by eexists.
Qed.

Lemma flag_check_total applies block flag h m d :
  h !! m = Some (ODict d) → block_wf h (d !! block) →
  ∃ b, flag_check applies block flag h (VRef m) = Ok b.
Proof.
  intros Hm Hwf. apply as_dict_ref in Hm. unfold flag_check, get_new.
  rewrite (get_or_dict _ _ _ _ _ Hm), (get_dict _ _ _ _ Hm). simpl res_bind.
  destruct (applies _); simpl; [|by eexists].
  destruct (sub_get_or_total h (d !! block) flag (VBool false) Hwf) as [x ->].
  simpl. destruct (truthy h x); by eexists.
Qed.

Lemma any_database_total h items :
  Forall (dict_ref h) items → ∃ b, any_database h items = Ok b.
Proof.
  induction 1 as [|svc rest (l & dv & -> & Hl) _ [b IH]]; simpl; [by eexists|].
  rewrite (get_or_dict _ _ _ _ _ (as_dict_ref _ _ _ Hl)). simpl.
  destruct (eq_str _ _); by eexists.
Qed.

Lemma region_loop_total h items :
  Forall (dict_ref h) items → ∃ b, region_loop h items = Ok b.
Proof.
  induction 1 as [|svc rest (l & dv & -> & Hl) _ [b IH]]; simpl; [by eexists|].
  rewrite !(get_or_dict _ _ _ _ _ (as_dict_ref _ _ _ Hl)). simpl.
  destruct (eq_str _ _); simpl; [|by eexists].
  destruct (negb _); by eexists.
Qed.

Lemma iter_services_total h o :
  services_wf h o → ∃ items, iter_sub h o = Ok items ∧ Forall (dict_ref h) items.
Proof.
  destruct o as [v|]; simpl.
  - intros (s & svcs & -> & Hl & HF). exists svcs. simpl. by rewrite Hl.
  - intros _. by exists [].
Qed.

(** [setdefault] on a block of a manifest of the expected shape. *)
Lemma setdefault_run h m d block :
  h !! m = Some (ODict d) → block_wf h (d !! block) →
  ∃ h1 d1 n nd,
    setdefault_dict (VRef m) block h = (Ok tt, h1)
    ∧ h1 !! m = Some (ODict d1) ∧ d1 !! block = Some (VRef n)
    ∧ h1 !! n = Some (ODict nd).
Proof.
  intros Hm Hwf. unfold setdefault_dict. rewrite (as_dict_ref _ _ _ Hm).
  assert (m < length h)%nat by (by eapply lookup_lt_Some).
  destruct (d !! block) as [v|] eqn:Hv.
  - destruct Hwf as (n & nd & -> & Hn). by exists h, d, n, nd.
  - unfold bind, new_dict.
    rewrite (setitem_run m block (VRef (length h)) (h ++ [ODict ∅]) d)
      by (by apply lookup_app_l_Some).
    eexists _, _, (length h), ∅. split; [done|]. split; [|split].
    + apply list_lookup_insert_eq. rewrite length_app. lia.
    + by rewrite lookup_insert_eq.
    + rewrite list_lookup_insert_ne by lia.
      by rewrite lookup_app_r, Nat.sub_diag by lia.
Qed.

Lemma one_flag_fix_total h m d block flag :
  block ≠ flag → h !! m = Some (ODict d) → block_wf h (d !! block) →
  ∃ h', bind (setdefault_dict (VRef m) block)
             (fun _ => bind (setitem2 (VRef m) block flag (VBool true))
                            (fun _ => ret (VRef m))) h
        = (Ok (VRef m), h').
Proof.
  intros Hne Hm Hwf.
  destruct (setdefault_run h m d block Hm Hwf)
    as (h1 & d1 & n & nd & S0 & Hm1 & Hb1 & Hn1).
  destruct (setitem2_run m block flag (VBool true) h1 d1 n nd)
    as (h2 & S1 & _); [done..|].
  exists h2. unfold bind at 1. rewrite S0. unfold bind at 1. by rewrite S1.
Qed.

Lemma correct_vpc_isolation_total h m d :
  h !! m = Some (ODict d) → block_wf h (d !! "networking") →
  ∃ h', correct_vpc_isolation (VRef m) h = (Ok (VRef m), h').
Proof.
  intros Hm Hwf.
  destruct (setdefault_run h m d "networking" Hm Hwf)
    as (h0 & d0 & n & nd & S0 & Hm0 & Hb0 & Hn0).
  destruct (setitem2_run m "networking" "vpc_enabled" (VBool true) h0 d0 n nd)
    as (h1 & S1 & Hn1 & d1 & Hm1 & Hd1); [done..|].
  destruct (setitem2_run m "networking" "subnet_isolation" (VBool true) h1 d1 n
              (<["vpc_enabled" := VBool true]> nd))
    as (h2 & S2 & Hn2 & d2 & Hm2 & Hd2); [done|by rewrite Hd1|done..|].
  destruct (setitem2_run m "networking" "private_endpoints" (VBool true) h2 d2 n
              (<["subnet_isolation" := VBool true]>
                 (<["vpc_enabled" := VBool true]> nd)))
    as (h3 & S3 & _); [done|by rewrite Hd2, Hd1|done..|].
  exists h3. unfold correct_vpc_isolation, bind. by rewrite S0, S1, S2, S3.
Qed.

Lemma upgrade_plans_run items h :
  Forall (dict_ref h) items → ∃ h', upgrade_plans items h = (Ok tt, h').
Proof.
  revert h. induction items as [|svc rest IH]; intros h HF.
  - by exists h.
  - apply Forall_cons in HF as [(l & dv & -> & Hl) HF]. simpl.
    unfold bind at 1. unfold read at 1.
    rewrite (get_or_dict _ _ _ _ _ (as_dict_ref _ _ _ Hl)).
    destruct (eq_str (default VNone (dv !! "role")) "database").
    + unfold bind at 1. rewrite (setitem_run _ _ _ _ _ Hl).
      apply IH. eapply Forall_impl; [exact HF|]. intros v. apply dict_ref_evolves.
      apply evolves_write with dv; [done|]. apply write_ok_evolves.
      right. right. done.
    + unfold bind at 1. simpl. by apply IH.
Qed.

Lemma correct_encryption_at_rest_total h m d :
  h !! m = Some (ODict d) → manifest_wf h d →
  ∃ h', correct_encryption_at_rest (VRef m) h = (Ok (VRef m), h').
Proof.
  intros Hm Hwf. pose proof Hwf as (_ & Hsec & _).
  destruct (setdefault_run h m d "security_config" Hm Hsec)
    as (h0 & d0 & n & nd & S0 & Hm0 & Hb0 & Hn0).
  destruct (setitem2_run m "security_config" "encryption_at_rest" (VBool true)
              h0 d0 n nd) as (h1 & S1 & Hn1 & d1 & Hm1 & Hd1); [done..|].
  assert (E01 : evolves h h1).
  { eapply evolves_trans.
    - eapply setdefault_dict_evolves; [done|auto with keys].
    - eapply setitem2_evolves; [done| |done]. left. split; [flag_key|done]. }
  destruct (as_dict_evolves _ _ _ _ E01 (as_dict_ref _ _ _ Hm)) as (d1' & Hd1' & Hdd).
  rewrite (as_dict_ref _ _ _ Hm1) in Hd1'. injection Hd1' as <-.
  pose proof (manifest_wf_evolves _ _ _ _ E01 Hdd Hwf) as (_ & _ & Hsv1 & _).
  destruct (iter_services_total _ _ Hsv1) as (items & Hit & HF).
  destruct (upgrade_plans_run items h1 HF) as (h2 & S2).
  unfold correct_encryption_at_rest. unfold bind at 1. rewrite S0.
  unfold bind at 1. rewrite S1. unfold bind at 1. unfold read at 1.
  rewrite (get_or_dict _ _ _ _ _ (as_dict_ref _ _ _ Hm1)).
  destruct (eq_str _ "PHI").
  - exists h2. unfold bind at 1. unfold bind at 1. unfold read at 1, get_new.
    rewrite (get_dict _ _ _ _ (as_dict_ref _ _ _ Hm1)).
    unfold bind at 1. unfold read at 1. rewrite Hit. by rewrite S2.
  - by exists h1.
Qed.

Lemma correct_region_gdpr_total h m d :
  h !! m = Some (ODict d) → manifest_wf h d →
  ∃ h', correct_region_gdpr (VRef m) h = (Ok (VRef m), h').
Proof.
  intros Hm (_ & _ & Hsv & _).
  destruct (iter_services_total _ _ Hsv) as (items & Hit & HF).
  destruct (move_to_eu_run items h HF) as (h' & S).
  exists h'. unfold correct_region_gdpr, bind, read, get_new.
  rewrite (get_dict _ _ _ _ (as_dict_ref _ _ _ Hm)). by rewrite Hit, S.
Qed.

Lemma registry_total : Forall total_policy POLICY_KNOWLEDGE_BASE.
Proof.
  unfold POLICY_KNOWLEDGE_BASE.
  repeat apply Forall_cons_2; [..|apply Forall_nil_2]; split;
    intros h m d Hm Hwf; pose proof Hwf as (Hnet & Hsec & Hsv & Hfw); simpl.
  - by eapply (flag_check_total _ "networking" "vpc_enabled").
  - by eapply correct_vpc_isolation_total.
  - unfold check_encryption_at_rest, get_new.
    rewrite !(get_dict _ _ _ _ (as_dict_ref _ _ _ Hm)). simpl res_bind.
    destruct (iter_services_total _ _ Hsv) as (items & -> & HF). simpl.
    destruct (any_database_total _ _ HF) as [[|] ->]; simpl; [|by eexists].
    destruct (sub_get_or_total h (d !! "security_config") "encryption_at_rest"
                (VBool false) Hsec) as [x ->].
    simpl. destruct (truthy h x); by eexists.
  - by eapply correct_encryption_at_rest_total.
  - by eapply (flag_check_total _ "security_config" "audit_logging").
  - by eapply (one_flag_fix_total h m d "security_config" "audit_logging").
  - rewrite check_encryption_in_transit_flag. by eapply flag_check_total.
  - by eapply (one_flag_fix_total h m d "security_config" "encryption_in_transit").
  - by eapply (flag_check_total _ "networking" "private_endpoints").
  - by eapply (one_flag_fix_total h m d "networking" "private_endpoints").
  - unfold check_no_public_api_for_sensitive_data, get_new.
    rewrite (get_or_dict _ _ _ _ _ (as_dict_ref _ _ _ Hm)),
      (get_dict _ _ _ _ (as_dict_ref _ _ _ Hm)). simpl res_bind.
    destruct (in_strs _ _); [|by eexists].
    destruct (sub_get_or_total h (d !! "networking") "vpc_enabled"
                (VBool false) Hnet) as [x ->]. simpl.
    destruct (truthy h x); simpl; [|by eexists].
    destruct (sub_get_or_total h (d !! "networking") "subnet_isolation"
                (VBool false) Hnet) as [y ->]. simpl.
    destruct (truthy h y); by eexists.
  - by eapply correct_vpc_isolation_total.
  - by eapply (flag_check_total _ "security_config" "iam_policies").
  - by eapply (one_flag_fix_total h m d "security_config" "iam_policies").
  - unfold check_region_compliance, get_new.
    rewrite !(get_dict _ _ _ _ (as_dict_ref _ _ _ Hm)). simpl res_bind.
    assert (∃ g, contains_sub h (d !! "applicable_frameworks") "GDPR" = Ok g)
      as [g ->].
    { destruct (d !! "applicable_frameworks") as [v|]; [|by eexists].
      destruct Hfw as (f & fws & -> & Hf). simpl. rewrite Hf. by eexists. }
    simpl. destruct g; [|by eexists].
    destruct (iter_services_total _ _ Hsv) as (items & -> & HF). simpl.
    by apply region_loop_total.
  - by eapply correct_region_gdpr_total.
Qed.

Lemma registry_severities :
  Forall (fun p => ∃ sev, SeverityLevel_of (severity p) = Ok sev)
         POLICY_KNOWLEDGE_BASE.
Proof.
  unfold POLICY_KNOWLEDGE_BASE.
  repeat apply Forall_cons_2; [..|apply Forall_nil_2]; by eexists.
Qed.

Lemma make_violation_total E p :
  frameworks_known E → p ∈ POLICY_KNOWLEDGE_BASE →
  ∃ v, make_violation E p = Ok v.
Proof.
  intros HE Hp. unfold make_violation.
  pose proof registry_severities as Hsev. rewrite Forall_forall in Hsev.
  destruct (Hsev p Hp) as [sev ->]. simpl.
  unfold ComplianceFramework_of. rewrite bool_decide_eq_true_2 by auto.
  simpl. by eexists.
Qed.

Lemma selected_in_registry names p :
  p ∈ get_policies_for_frameworks names → p ∈ POLICY_KNOWLEDGE_BASE.
Proof.
  rewrite get_policies_filter. intros Hp.
  by apply list_elem_of_filter in Hp as [_ Hp].
Qed.

Lemma selected_total names : Forall total_policy (get_policies_for_frameworks names).
Proof.
  apply Forall_forall. intros p Hp. apply selected_in_registry in Hp.
  pose proof registry_total as H. rewrite Forall_forall in H. auto.
Qed.

Lemma audit_pass_total E policies h m d :
  frameworks_known E →
  (∀ p, p ∈ policies → p ∈ POLICY_KNOWLEDGE_BASE) →
  h !! m = Some (ODict d) → manifest_wf h d →
  ∃ found, audit_pass E h (VRef m) policies = Ok found.
Proof.
  intros HE Hsub Hm Hwf. induction policies as [|p rest IH]; simpl.
  - by eexists.
  - destruct IH as [found IH].
    { intros q Hq. apply Hsub. by apply elem_of_cons; right. }
    assert (Hp : p ∈ POLICY_KNOWLEDGE_BASE) by (apply Hsub; by apply elem_of_cons; left).
    pose proof registry_total as Htot. rewrite Forall_forall in Htot.
    destruct (Htot p Hp) as [Hcheck _].
    destruct (Hcheck h m d Hm Hwf) as [b ->]. simpl.
    destruct b; simpl.
    + by eexists.
    + destruct (make_violation_total E p HE Hp) as [v ->]. simpl.
      rewrite IH. simpl. by eexists.
Qed.

Lemma correction_pass_total policies found h m d :
  Forall total_policy policies → Forall correctable policies →
  h !! m = Some (ODict d) → manifest_wf h d →
  ∃ corrected h' d',
    correction_pass policies found (VRef m) h = (Ok (VRef m, corrected), h')
    ∧ h' !! m = Some (ODict d') ∧ manifest_wf h' d'.
Proof.
  intros Htot Hok. revert h d.
  induction found as [|v rest IH]; intros h d Hm Hwf; simpl.
  - by exists [], h, d.
  - destruct (matching policies (v_policy_id v)) as [q|] eqn:Hq;
      [|by apply (IH h d)].
    apply matching_Some in Hq as [Hq _].
    rewrite Forall_forall in Htot, Hok.
    destruct (Htot q Hq) as [_ Hfix]. destruct (Hok q Hq) as [sat Hsat].
    destruct (Hfix h m d Hm Hwf) as [h1 S1].
    destruct (sat_of_fix _ _ Hsat _ _ _ _ S1) as (_ & E1 & _).
    destruct (as_dict_evolves _ _ _ _ E1 (as_dict_ref _ _ _ Hm))
      as (d1 & Hd1 & Hdd).
    apply as_dict_Some in Hd1 as (m' & [= <-] & Hm1).
    pose proof (manifest_wf_evolves _ _ _ _ E1 Hdd Hwf) as Hwf1.
    destruct (IH h1 d1 Hm1 Hwf1) as (corrected & h' & d' & S2 & Hm' & Hwf').
    eexists _, h', d'. split; [|done].
    unfold bind at 1. rewrite S1. unfold bind at 1. rewrite S2. done.
Qed.

Lemma revalidate_total policies h m d :
  Forall total_policy policies →
  h !! m = Some (ODict d) → manifest_wf h d →
  ∃ remaining, revalidate h (VRef m) policies = Ok remaining.
Proof.
  intros Htot Hm Hwf. induction policies as [|p rest IH]; simpl.
  - by eexists.
  - apply Forall_cons in Htot as [[Hcheck _] Hrest].
    destruct (Hcheck h m d Hm Hwf) as [b ->]. simpl.
    destruct (IH Hrest) as [remaining ->]. simpl. by eexists.
Qed.

(** On a manifest of the expected shape the three passes return, and
    leave nothing for the second audit. *)
Lemma passes_return_and_leave_nothing
    (E : env) (names : list string) (h : heap) (m : loc) (d : gmap string val) :
  frameworks_known E → h !! m = Some (ODict d) → manifest_wf h d →
  ∃ found working h2 corrected h3,
    audit_pass E h (VRef m) (get_policies_for_frameworks names) = Ok found
    ∧ dict_copy (VRef m) h = (Ok working, h2)
    ∧ correction_pass (get_policies_for_frameworks names) found working h2
      = (Ok (working, corrected), h3)
    ∧ length corrected = length found
    ∧ revalidate h3 working (get_policies_for_frameworks names) = Ok []
    ∧ ∀ p, p ∈ get_policies_for_frameworks names →
           check_fn p h3 working = Ok true.
Proof.
  intros HE Hm Hwf.
  destruct (audit_pass_total E (get_policies_for_frameworks names) h m d HE)
    as [found Haudit]; [apply selected_in_registry|done..|].
  assert (Hcopy : dict_copy (VRef m) h
                  = (Ok (VRef (length h)), (h ++ [ODict d])%list)).
  { unfold dict_copy. by rewrite (as_dict_ref _ _ _ Hm). }
  assert (Hc : (h ++ [ODict d])%list !! length h = Some (ODict d))
    by (by rewrite lookup_app_r, Nat.sub_diag by lia).
  assert (Hwf2 : manifest_wf (h ++ [ODict d])%list d).
  { eapply manifest_wf_evolves; [apply evolves_alloc| |done].
    intros k. apply key_evolves_refl. }
  destruct (correction_pass_total (get_policies_for_frameworks names) found
              _ _ _ (selected_total names) (selected_correctable names) Hc Hwf2)
    as (corrected & h3 & d3 & Hloop & Hm3 & Hwf3).
  destruct (revalidate_total _ _ _ _ (selected_total names) Hm3 Hwf3)
    as [remaining Hre].
  destruct (passes_leave_nothing E names _ _ _ _ _ _ _ _ _
              Haudit Hcopy Hloop Hre) as [-> Hall].
  exists found, (VRef (length h)), (h ++ [ODict d])%list, corrected, h3.
  repeat split; try done.
  eapply correction_pass_all_resolved; [|done].
  intros v Hv. destruct (audit_pass_Ok _ _ _ _ _ Haudit) as [Hids _].
  destruct (Hids v Hv) as (p & Hp & ->). by apply matching_elem.
Qed.

(** C10. For every manifest and every policy set selected from the
    registry: once pass 1 has found its violations and the correction
    pass has applied their corrections to the working copy, the pass-2
    re-audit of the corrected manifest finds no remaining violation, and
    every selected policy's check passes on it.  First for any store
    whatever, whenever the passes return; then for a manifest of the shape
    of the data model, where the passes do return. *)
Theorem revalidation_finds_no_violation :
  (∀ (E : env) (names : list string) (h : heap) (audit_manifest : val)
     (found : list PolicyViolation) (working : val) (h2 : heap)
     (final : val) (corrected : list PolicyViolation) (h3 : heap)
     (remaining : list string),
      audit_pass E h audit_manifest (get_policies_for_frameworks names) = Ok found →
      dict_copy audit_manifest h = (Ok working, h2) →
      correction_pass (get_policies_for_frameworks names) found working h2
      = (Ok (final, corrected), h3) →
      revalidate h3 final (get_policies_for_frameworks names) = Ok remaining →
      remaining = []
      ∧ ∀ p, p ∈ get_policies_for_frameworks names →
             check_fn p h3 final = Ok true)
  ∧ (∀ (E : env) (names : list string) (h : heap) (m : loc)
       (d : gmap string val),
        frameworks_known E → h !! m = Some (ODict d) → manifest_wf h d →
        ∃ found working h2 corrected h3,
          audit_pass E h (VRef m) (get_policies_for_frameworks names) = Ok found
          ∧ dict_copy (VRef m) h = (Ok working, h2)
          ∧ correction_pass (get_policies_for_frameworks names) found working h2
            = (Ok (working, corrected), h3)
          ∧ length corrected = length found
          ∧ revalidate h3 working (get_policies_for_frameworks names) = Ok []
          ∧ ∀ p, p ∈ get_policies_for_frameworks names →
                 check_fn p h3 working = Ok true).
Proof.
  split.
  - apply passes_leave_nothing.
  - apply passes_return_and_leave_nothing.
Qed.

Lemma example_env_frameworks_known : frameworks_known example_env.
Proof.
  intros p Hp. apply list_elem_of_In in Hp. simpl in Hp.
  apply list_elem_of_In. simpl.
  repeat (destruct Hp as [<-|Hp]; [simpl; tauto|]). done.
Qed.

(** The example manifest: the passes return, with eight violations
    found and corrected, and nothing left on the second pass. *)
Lemma revalidation_finds_no_violation_witness :
  ∃ found working h2 corrected h3,
    audit_pass example_env example_audit_heap example_audit_manifest
      example_policies = Ok found
    ∧ dict_copy example_audit_manifest example_audit_heap = (Ok working, h2)
    ∧ correction_pass example_policies found working h2
      = (Ok (working, corrected), h3)
    ∧ length corrected = length found
    ∧ revalidate h3 working example_policies = Ok []
    ∧ ∀ p, p ∈ example_policies → check_fn p h3 working = Ok true.
Proof.
  apply (proj2 revalidation_finds_no_violation example_env ["HIPAA"; "GDPR"]
           example_audit_heap 8%nat
           (list_to_map
              [("project_name", VStr "clinic-portal");
               ("description", VStr "Patient portal");
               ("services", VRef 4%nat);
               ("networking", VRef 2%nat);
               ("security_config", VRef 3%nat);
               ("detected_sensitivity", VStr "PHI");
               ("applicable_frameworks", VRef 7%nat)])).
  - apply example_env_frameworks_known.
  - reflexivity.
  - repeat split.
    + eexists 2%nat, _. split; reflexivity.
    + eexists 3%nat, _. split; reflexivity.
    + eexists 4%nat, _. split; [reflexivity|]. split; [reflexivity|].
      apply Forall_cons. split; [|apply Forall_nil_2].
      eexists 5%nat, _. split; reflexivity.
    + eexists 7%nat, _. split; reflexivity.
Defined.

(** * Further properties of the code *)

(** ** The framework selector, beyond its specification *)

Lemma filter_ext_elem {A} (P Q : A -> Prop)
    `{!∀ x, Decision (P x)} `{!∀ x, Decision (Q x)} (l : list A) :
  (∀ x, x ∈ l → (P x ↔ Q x)) → filter P l = filter Q l.
Proof.
  induction l as [|x l IH]; intros Hall; [done|].
  rewrite !filter_cons.
  assert (Hx : P x ↔ Q x) by (apply Hall; by apply elem_of_cons; left).
  rewrite IH by (intros y Hy; apply Hall; by apply elem_of_cons; right).
  destruct (decide (P x)), (decide (Q x)); tauto.
Qed.

Lemma registry_frameworks p :
  p ∈ POLICY_KNOWLEDGE_BASE →
  framework p = "HIPAA" ∨ framework p = "IBM_BASELINE" ∨ framework p = "GDPR".
Proof.
  intros Hp. apply list_elem_of_In in Hp. simpl in Hp.
  repeat (destruct Hp as [<-|Hp]; [simpl; tauto|]). done.
Qed.

(** The selection depends only on which names are requested, not on
    their order or on repetitions: the request is turned into a set. *)
Theorem selection_ignores_order_and_repeats (fs fs' : list string) :
  (∀ x, x ∈ fs ↔ x ∈ fs') →
  get_policies_for_frameworks fs = get_policies_for_frameworks fs'.
Proof.
  intros H. rewrite !get_policies_filter. apply list_filter_iff.
  intros p. by rewrite H.
Qed.

Lemma selection_ignores_order_and_repeats_witness :
  get_policies_for_frameworks ["HIPAA"; "GDPR"; "HIPAA"]
  = get_policies_for_frameworks ["GDPR"; "HIPAA"].
Proof.
  apply (selection_ignores_order_and_repeats ["HIPAA"; "GDPR"; "HIPAA"]
           ["GDPR"; "HIPAA"]).
  intros x. rewrite !elem_of_cons, !elem_of_nil. tauto.
Defined.

(** A requested name other than HIPAA and GDPR selects nothing: the
    baseline itself, SOC2 (which tags no policy), a name in the wrong
    case, an unknown name.  No error is raised for it. *)
Theorem selection_ignores_other_names (x : string) (fs : list string) :
  x ≠ "HIPAA" → x ≠ "GDPR" →
  get_policies_for_frameworks (x :: fs) = get_policies_for_frameworks fs.
Proof.
  intros H1 H2. rewrite !get_policies_filter. apply filter_ext_elem.
  intros p Hp. rewrite elem_of_cons. split; [|tauto].
  intros [[Hx|H]|H]; [|tauto..].
  destruct (registry_frameworks p Hp) as [Hf|[Hf|Hf]];
    [congruence|by right|congruence].
Qed.

Lemma selection_ignores_other_names_witness :
  get_policies_for_frameworks ["hipaa"; "GDPR"]
  = get_policies_for_frameworks ["GDPR"].
Proof.
  apply (selection_ignores_other_names "hipaa" ["GDPR"]); discriminate.
Defined.

Lemma selected_sublist (fs fs' : list string) :
  fs ⊆ fs' →
  sublist (get_policies_for_frameworks fs) (get_policies_for_frameworks fs').
Proof.
  intros Hsub. rewrite !get_policies_filter.
  assert (filter (fun p => framework p ∈ fs ∨ framework p = "IBM_BASELINE")
                 POLICY_KNOWLEDGE_BASE
          = filter (fun p => framework p ∈ fs ∨ framework p = "IBM_BASELINE")
              (filter (fun p => framework p ∈ fs' ∨ framework p = "IBM_BASELINE")
                      POLICY_KNOWLEDGE_BASE)) as ->.
  { rewrite list_filter_filter. apply list_filter_iff. intros p.
    split; [|tauto]. intros [H|H]; [|tauto]. split; left; auto. }
  apply sublist_filter.
Qed.

(** Asking for more frameworks never drops a policy: the selection for
    a smaller request is a sublist of the selection for a larger one. *)
Theorem selection_monotone (fs fs' : list string) :
  fs ⊆ fs' →
  sublist (get_policies_for_frameworks fs) (get_policies_for_frameworks fs').
Proof. apply selected_sublist. Qed.

Lemma selection_monotone_witness :
  sublist (get_policies_for_frameworks ["GDPR"])
          (get_policies_for_frameworks ["HIPAA"; "GDPR"]).
Proof.
  apply (selection_monotone ["GDPR"] ["HIPAA"; "GDPR"]).
  intros x Hx. apply elem_of_cons. right. exact Hx.
Defined.

(** Every selection contains the four baseline policies and has between
    four and eight policies; it is the whole registry exactly when both
    HIPAA and GDPR are requested. *)
Theorem selection_bounds (fs : list string) :
  sublist (get_policies_for_frameworks []) (get_policies_for_frameworks fs)
  ∧ (4 <= length (get_policies_for_frameworks fs) <= 8)%nat
  ∧ (get_policies_for_frameworks fs = POLICY_KNOWLEDGE_BASE
     ↔ "HIPAA" ∈ fs ∧ "GDPR" ∈ fs).
Proof.
  assert (Hbase : sublist (get_policies_for_frameworks [])
                          (get_policies_for_frameworks fs)).
  { apply selected_sublist. intros x Hx. by apply elem_of_nil in Hx. }
  split; [done|]. split.
  - split.
    + apply sublist_length in Hbase. exact Hbase.
    + rewrite get_policies_filter.
      etrans; [apply length_filter|]. reflexivity.
  - split.
    + intros Heq.
      assert (H1 : POL_HIPAA_001 ∈ get_policies_for_frameworks fs).
      { rewrite Heq. apply list_elem_of_In. simpl. tauto. }
      assert (H8 : POL_GDPR_001 ∈ get_policies_for_frameworks fs).
      { rewrite Heq. apply list_elem_of_In. simpl. tauto. }
      rewrite get_policies_filter in H1, H8.
      apply list_elem_of_filter in H1 as [[H1|H1] _], H8 as [[H8|H8] _];
        try discriminate. done.
    + intros [H1 H8]. rewrite get_policies_filter. apply filter_all.
      intros p Hp.
      destruct (registry_frameworks p Hp) as [Hf|[Hf|Hf]]; rewrite Hf; tauto.
Qed.

(** Within a selection every policy id names one policy, which the
    lookup by id of the correction loop finds. *)
Theorem selected_policy_found_by_id (fs : list string) (p : GovernancePolicy) :
  p ∈ get_policies_for_frameworks fs →
  matching (get_policies_for_frameworks fs) (policy_id p) = Some p
  ∧ NoDup (policy_id <$> get_policies_for_frameworks fs).
Proof.
  intros Hp. split; [|apply selected_ids_NoDup].
  apply matching_NoDup; [apply selected_ids_NoDup|done].
Qed.

Lemma selected_policy_found_by_id_witness :
  matching (get_policies_for_frameworks ["GDPR"]) "POL-GDPR-001"
  = Some POL_GDPR_001.
Proof.
  apply (selected_policy_found_by_id ["GDPR"] POL_GDPR_001).
  rewrite get_policies_filter. apply list_elem_of_filter. split.
  - left. apply elem_of_cons. left. reflexivity.
  - apply list_elem_of_In. simpl. tauto.
Defined.

Lemma hashable_chars h s :
  ∃ names, hashable_strings h (chars s) = Ok names
           ∧ Forall (fun x => String.length x = 1%nat) names.
Proof.
  induction s as [|c s (names & IH & HF)]; simpl.
  - by exists [].
  - rewrite IH. simpl. eexists. split; [done|]. by constructor.
Qed.

(** A frameworks value that is a string, not a list of strings, is
    taken character by character, so whatever the string says only the
    baseline policies are selected. *)
Theorem string_frameworks_select_baseline (h : heap) (s : string) :
  select_policies h (VStr s) = Ok (get_policies_for_frameworks []).
Proof.
  unfold select_policies. simpl.
  destruct (hashable_chars h s) as (names & -> & HF). simpl. f_equal.
  rewrite !get_policies_filter. apply filter_ext_elem. intros p Hp.
  split; [|intros [H|H]; [by apply elem_of_nil in H|by right]].
  intros [H|H]; [|by right]. exfalso.
  rewrite Forall_forall in HF. specialize (HF _ H).
  destruct (registry_frameworks p Hp) as [Hf|[Hf|Hf]]; rewrite Hf in HF;
    discriminate HF.
Qed.

(** ** The checks at the edges of their input *)

Lemma in_registry_cases (P : GovernancePolicy -> Prop) :
  P POL_HIPAA_001 → P POL_HIPAA_002 → P POL_HIPAA_003 → P POL_IBM_001 →
  P POL_IBM_002 → P POL_SEC_001 → P POL_SEC_002 → P POL_GDPR_001 →
  ∀ p, p ∈ POLICY_KNOWLEDGE_BASE → P p.
Proof.
  intros ? ? ? ? ? ? ? ? p Hp. apply list_elem_of_In in Hp. simpl in Hp.
  repeat (destruct Hp as [<-|Hp]; [done|]). done.
Qed.

(** On a manifest that is not a dictionary every check of the registry
    raises the [AttributeError] of the missing [get], and every correction
    raises an [AttributeError] before it has written anything. *)
Theorem non_dict_manifest_raises
    (p : GovernancePolicy) (h : heap) (m : val) :
  p ∈ POLICY_KNOWLEDGE_BASE → as_dict h m = None →
  check_fn p h m = Raise (no_attribute h m "get")
  ∧ ∃ attr, correction_fn p m h = (Raise (no_attribute h m attr), h).
Proof.
  intros Hp Hm. revert p Hp.
  apply in_registry_cases; simpl; (split; [|eexists]).
  all: try (unfold check_vpc_isolation, check_encryption_at_rest,
              check_audit_logging_for_phi, check_encryption_in_transit,
              check_private_endpoints, check_no_public_api_for_sensitive_data,
              check_iam_policies_present, check_region_compliance,
              get_new, get_or, get; by rewrite Hm).
  all: try (unfold correct_vpc_isolation, correct_encryption_at_rest,
              correct_audit_logging, correct_encryption_in_transit,
              correct_private_endpoints, correct_public_api_exposure,
              correct_iam_policies, bind, setdefault_dict; by rewrite Hm).
  unfold correct_region_gdpr, bind, read, get_new, get. by rewrite Hm.
Qed.

Lemma non_dict_manifest_raises_witness :
  check_fn POL_IBM_001 example_heap VNone
  = Raise (Exn AttributeError "'NoneType' object has no attribute 'get'").
Proof.
  apply (non_dict_manifest_raises POL_IBM_001 example_heap VNone).
  - apply list_elem_of_In. simpl. tauto.
  - reflexivity.
Defined.

Lemma in_strs_cons v s ss : in_strs v (s :: ss) = eq_str v s || in_strs v ss.
Proof. reflexivity. Qed.

(** For data that is not PHI, PII or PCI (a missing sensitivity counts
    as public) the five sensitivity-driven checks pass without looking
    into the networking or security blocks, whatever those are. *)
Theorem insensitive_data_passes (h : heap) (m : val) (d : gmap string val) :
  as_dict h m = Some d →
  in_strs (default (VStr "public") (d !! "detected_sensitivity"))
          ["PHI"; "PII"; "PCI"] = false →
  check_vpc_isolation h m = Ok true
  ∧ check_audit_logging_for_phi h m = Ok true
  ∧ check_private_endpoints h m = Ok true
  ∧ check_no_public_api_for_sensitive_data h m = Ok true
  ∧ check_iam_policies_present h m = Ok true.
Proof.
  intros Hd Hs. rewrite !in_strs_cons in Hs.
  apply orb_false_iff in Hs as [H1 Hs]. apply orb_false_iff in Hs as [H2 Hs].
  apply orb_false_iff in Hs as [H3 _].
  unfold check_vpc_isolation, check_audit_logging_for_phi,
    check_private_endpoints, check_no_public_api_for_sensitive_data,
    check_iam_policies_present, get_new.
  rewrite !(get_or_dict _ _ _ _ _ Hd), !(get_dict _ _ _ _ Hd). simpl res_bind.
  rewrite !in_strs_cons, H1, H2, H3. done.
Qed.

(** The example manifest with its sensitivity left out: the networking
    entry may even be a string. *)
Lemma insensitive_data_passes_witness :
  check_vpc_isolation [ODict {[ "networking" := VStr "none" ]}] (VRef 0%nat)
  = Ok true.
Proof.
  apply (insensitive_data_passes [ODict {[ "networking" := VStr "none" ]}]
           (VRef 0%nat) {[ "networking" := VStr "none" ]}); reflexivity.
Defined.

(** The VPC-isolation check is implied by the public-API check: a
    manifest that passes the latter passes the former. *)
Theorem public_api_check_implies_vpc_check (h : heap) (m : val) :
  check_no_public_api_for_sensitive_data h m = Ok true →
  check_vpc_isolation h m = Ok true.
Proof.
  intros Hc.
  destruct (as_dict h m) as [d|] eqn:Hd.
  - pose proof (sat_of_pass _ _ POL_SEC_001_sound h m d Hd Hc) as Hsat.
    unfold check_vpc_isolation, get_new.
    rewrite (get_or_dict _ _ _ _ _ Hd), (get_dict _ _ _ _ Hd). simpl res_bind.
    fold (sens_of d). destruct Hsat as [Hs|[Hv _]].
    + rewrite !in_strs_cons in Hs. rewrite !in_strs_cons.
      apply orb_false_iff in Hs as [-> Hs]. apply orb_false_iff in Hs as [-> _].
      done.
    + destruct (in_strs (sens_of d) ["PHI"; "PII"]); [|done].
      apply flag_on_get in Hv as (x & -> & Hx). simpl. by rewrite Hx.
  - unfold check_no_public_api_for_sensitive_data, get_or, get in Hc.
    rewrite Hd in Hc. discriminate Hc.
Qed.

Lemma public_api_check_implies_vpc_check_witness :
  check_vpc_isolation
    [ODict (list_to_map [("detected_sensitivity", VStr "PII");
                         ("networking", VRef 1%nat)]);
     ODict (list_to_map [("vpc_enabled", VBool true);
                         ("subnet_isolation", VBool true)])]
    (VRef 0%nat)
  = Ok true.
Proof.
  apply public_api_check_implies_vpc_check. reflexivity.
Defined.

Lemma flag_check_value applies block flag h m d :
  as_dict h m = Some d → block_wf h (d !! block) →
  flag_check applies block flag h m
  = Ok (negb (applies (sens_of d)) || truthy h (flag_value h d block flag)).
Proof.
  intros Hd Hwf. unfold flag_check, get_new, flag_value.
  rewrite (get_or_dict _ _ _ _ _ Hd), (get_dict _ _ _ _ Hd). simpl res_bind.
  fold (sens_of d). destruct (applies (sens_of d)); [|done]. simpl.
  destruct (d !! block) as [v|]; simpl; [|done].
  destruct Hwf as (l & dv & -> & Hl).
  rewrite (get_or_dict _ _ _ _ _ (as_dict_ref _ _ _ Hl)).
  unfold svc_entries. rewrite (as_dict_ref _ _ _ Hl). simpl.
  by destruct (truthy h _).
Qed.

(** A flag is judged by its truth value, read as [False] when the block
    or the flag is missing: for a manifest whose networking and security
    blocks are absent or dictionaries, each single-flag check returns
    whether the check does not apply to the sensitivity or the flag is
    true.  Any true value enables a flag, a non-empty string included. *)
Theorem flag_checks_read_truth_values (h : heap) (m : val) (d : gmap string val) :
  as_dict h m = Some d →
  block_wf h (d !! "networking") → block_wf h (d !! "security_config") →
  let sens := default (VStr "public") (d !! "detected_sensitivity") in
  check_vpc_isolation h m
  = Ok (negb (in_strs sens ["PHI"; "PII"])
        || truthy h (flag_value h d "networking" "vpc_enabled"))
  ∧ check_encryption_in_transit h m
    = Ok (truthy h (flag_value h d "security_config" "encryption_in_transit"))
  ∧ check_audit_logging_for_phi h m
    = Ok (negb (eq_str sens "PHI")
          || truthy h (flag_value h d "security_config" "audit_logging"))
  ∧ check_private_endpoints h m
    = Ok (negb (in_strs sens ["PHI"; "PCI"])
          || truthy h (flag_value h d "networking" "private_endpoints"))
  ∧ check_iam_policies_present h m
    = Ok (negb (in_strs sens ["PHI"; "PCI"])
          || truthy h (flag_value h d "security_config" "iam_policies")).
Proof.
  intros Hd Hn Hs sens. repeat split.
  - by apply (flag_check_value (fun s => in_strs s ["PHI"; "PII"])).
  - rewrite check_encryption_in_transit_flag.
    by rewrite (flag_check_value (fun _ => true) _ _ _ _ d).
  - by apply (flag_check_value (fun s => eq_str s "PHI")).
  - by apply (flag_check_value (fun s => in_strs s ["PHI"; "PCI"])).
  - by apply (flag_check_value (fun s => in_strs s ["PHI"; "PCI"])).
Qed.

(** PHI data whose [vpc_enabled] is the string "false": the check
    passes, the string being a true value; with no security block the
    encryption-in-transit check fails. *)
Lemma flag_checks_read_truth_values_witness :
  check_vpc_isolation
    [ODict (list_to_map [("detected_sensitivity", VStr "PHI");
                         ("networking", VRef 1%nat)]);
     ODict {[ "vpc_enabled" := VStr "false" ]}]
    (VRef 0%nat) = Ok true
  ∧ check_encryption_in_transit
      [ODict (list_to_map [("detected_sensitivity", VStr "PHI");
                           ("networking", VRef 1%nat)]);
       ODict {[ "vpc_enabled" := VStr "false" ]}]
      (VRef 0%nat) = Ok false.
Proof.
  destruct (flag_checks_read_truth_values
              [ODict (list_to_map [("detected_sensitivity", VStr "PHI");
                                   ("networking", VRef 1%nat)]);
               ODict {[ "vpc_enabled" := VStr "false" ]}]
              (VRef 0%nat)
              (list_to_map [("detected_sensitivity", VStr "PHI");
                            ("networking", VRef 1%nat)]))
    as (H1 & H2 & _).
  - reflexivity.
  - eexists 1%nat, _. split; reflexivity.
  - exact I.
  - split; [exact H1|exact H2].
Defined.

Lemma svc_entries_ref h l dv : h !! l = Some (ODict dv) → svc_entries h (VRef l) = dv.
Proof. intros Hl. unfold svc_entries. by rewrite (as_dict_ref _ _ _ Hl). Qed.

Lemma any_database_existsb h items :
  Forall (dict_ref h) items →
  any_database h items
  = Ok (existsb (fun v => is_database (svc_entries h v)) items).
Proof.
  induction 1 as [|svc rest (l & dv & -> & Hl) _ IH]; simpl; [done|].
  rewrite (get_or_dict _ _ _ _ _ (as_dict_ref _ _ _ Hl)). simpl.
  rewrite (svc_entries_ref _ _ _ Hl). unfold is_database at 1.
  by destruct (eq_str _ _).
Qed.

Lemma region_loop_forallb h items :
  Forall (dict_ref h) items →
  region_loop h items = Ok (forallb (fun v => region_ok (svc_entries h v)) items).
Proof.
  induction 1 as [|svc rest (l & dv & -> & Hl) _ IH]; simpl; [done|].
  rewrite !(get_or_dict _ _ _ _ _ (as_dict_ref _ _ _ Hl)). simpl.
  rewrite (svc_entries_ref _ _ _ Hl). unfold region_ok, is_database.
  destruct (eq_str _ "database"); simpl; [|done].
  by destruct (in_strs _ _).
Qed.

(** On a manifest whose services are dictionaries the two loops with
    early exit compute what they look like: encryption at rest is
    required exactly when some service is a database, and region
    compliance under GDPR holds exactly when every database service is in
    eu-gb, eu-de or eu-fr; services of other roles are not looked at. *)
Theorem service_checks_declarative
    (h : heap) (m : val) (d : gmap string val) (svcs : list val) (gdpr : bool) :
  as_dict h m = Some d →
  block_wf h (d !! "security_config") →
  iter_sub h (d !! "services") = Ok svcs → Forall (dict_ref h) svcs →
  contains_sub h (d !! "applicable_frameworks") "GDPR" = Ok gdpr →
  check_encryption_at_rest h m
  = Ok (negb (existsb (fun v => is_database (svc_entries h v)) svcs)
        || truthy h (flag_value h d "security_config" "encryption_at_rest"))
  ∧ check_region_compliance h m
    = Ok (negb gdpr || forallb (fun v => region_ok (svc_entries h v)) svcs).
Proof.
  intros Hd Hsec Hit HF Hg. split.
  - unfold check_encryption_at_rest, get_new, flag_value.
    rewrite !(get_dict _ _ _ _ Hd). simpl res_bind. rewrite Hit. simpl.
    rewrite (any_database_existsb _ _ HF). simpl.
    destruct (existsb _ svcs); [|done]. simpl.
    destruct (d !! "security_config") as [v|]; simpl; [|done].
    destruct Hsec as (l & dv & -> & Hl).
    rewrite (get_or_dict _ _ _ _ _ (as_dict_ref _ _ _ Hl)).
    rewrite (svc_entries_ref _ _ _ Hl). simpl. by destruct (truthy h _).
  - unfold check_region_compliance, get_new.
    rewrite !(get_dict _ _ _ _ Hd). simpl res_bind. rewrite Hg. simpl.
    destruct gdpr; [|done]. rewrite Hit. simpl.
    by apply region_loop_forallb.
Qed.

(** The example audit manifest: its one service is a database in
    us-south, so both checks fail. *)
Lemma service_checks_declarative_witness :
  check_encryption_at_rest example_audit_heap example_audit_manifest = Ok false
  ∧ check_region_compliance example_audit_heap example_audit_manifest = Ok false.
Proof.
  destruct (service_checks_declarative example_audit_heap example_audit_manifest
           (list_to_map
              [("project_name", VStr "clinic-portal");
               ("description", VStr "Patient portal");
               ("services", VRef 4%nat);
               ("networking", VRef 2%nat);
               ("security_config", VRef 3%nat);
               ("detected_sensitivity", VStr "PHI");
               ("applicable_frameworks", VRef 7%nat)])
           [VRef 5%nat] true) as [H1 H2].
  - reflexivity.
  - eexists 3%nat, _. split; reflexivity.
  - reflexivity.
  - apply Forall_cons. split; [|apply Forall_nil_2].
    eexists 5%nat, _. split; reflexivity.
  - reflexivity.
  - split; [exact H1|exact H2].
Defined.

(** ** The corrections, beyond their specification *)

Lemma evolves_length h h' : evolves h h' → (length h <= length h')%nat.
Proof.
  intros He. destruct (decide (length h = 0)%nat) as [->|Hne]; [lia|].
  destruct (lookup_lt_is_Some_2 h (length h - 1)) as [o Ho]; [lia|].
  destruct (He _ _ Ho) as (o' & Ho' & _).
  apply lookup_lt_Some in Ho'. lia.
Qed.

(** What a correction may touch.  A correction of the registry that
    returns hands back the manifest reference it was given; it removes no
    object and no dictionary entry, changes no list, and leaves alone every
    entry whose key is not one of the seven flags, [region], [plan],
    [networking] or [security_config]. *)
Theorem corrections_frame
    (p : GovernancePolicy) (m r : val) (h h' : heap) :
  p ∈ POLICY_KNOWLEDGE_BASE →
  correction_fn p m h = (Ok r, h') →
  r = m
  ∧ (length h <= length h')%nat
  ∧ (∀ l xs, h !! l = Some (OList xs) → h' !! l = Some (OList xs))
  ∧ (∀ l d, h !! l = Some (ODict d) →
            ∃ d', h' !! l = Some (ODict d')
                  ∧ (∀ k, is_Some (d !! k) → is_Some (d' !! k))
                  ∧ (∀ k, stable_key k = true → d' !! k = d !! k)).
Proof.
  intros Hp Hc. pose proof registry_correctable as Hok.
  rewrite Forall_forall in Hok. destruct (Hok p Hp) as [sat Hsat].
  destruct (sat_of_fix _ _ Hsat _ _ _ _ Hc) as (-> & He & _).
  split; [done|]. split; [by apply evolves_length|]. split.
  - intros l xs. by apply evolves_list.
  - intros l d Hl. destruct (He _ _ Hl) as (o' & Ho' & Hoo).
    destruct o' as [d'|]; simpl in Hoo; [|done].
    exists d'. split; [done|]. split.
    + intros k. exact (dict_evolves_is_Some h' d d' k Hoo).
    + intros k Hk. exact (stable_lookup h' d d' k Hk Hoo).
Qed.

(** The region correction on the example: the service keeps its role
    and its name. *)
Lemma corrections_frame_witness :
  ∃ d', (correct_region_gdpr example_audit_manifest example_audit_heap).2
        !! 5%nat = Some (ODict d')
        ∧ d' !! "role" = Some (VStr "database")
        ∧ d' !! "service_name" = Some (VStr "Databases for PostgreSQL").
Proof.
  destruct (corrections_frame POL_GDPR_001 example_audit_manifest
              example_audit_manifest example_audit_heap
              (correct_region_gdpr example_audit_manifest example_audit_heap).2)
    as (_ & _ & _ & Hd).
  - apply list_elem_of_In. simpl. tauto.
  - reflexivity.
  - destruct (Hd 5%nat
                (list_to_map
                   [("service_name", VStr "Databases for PostgreSQL");
                    ("service_id", VStr "databases-for-postgresql");
                    ("role", VStr "database");
                    ("region", VStr "us-south");
                    ("plan", VStr "standard")]))
      as (d' & Hl & _ & Hst); [reflexivity|].
    exists d'. split; [exact Hl|]. split.
    + rewrite (Hst "role"); reflexivity.
    + rewrite (Hst "service_name"); reflexivity.
Defined.

Lemma flag_check_on applies block flag h m d :
  as_dict h m = Some d → flag_on h d block flag →
  flag_check applies block flag h m = Ok true.
Proof.
  intros Hd Hon. unfold flag_check, get_new.
  rewrite (get_or_dict _ _ _ _ _ Hd), (get_dict _ _ _ _ Hd). simpl res_bind.
  destruct (applies _); [|done].
  apply flag_on_get in Hon as (x & -> & Hx). simpl. by rewrite Hx.
Qed.

(** One correction, three policies: once [correct_vpc_isolation] (which
    [correct_public_api_exposure] repeats line for line) has returned, the
    VPC-isolation, private-endpoints and public-API checks all pass. *)
Theorem vpc_correction_satisfies_three_checks (m r : val) (h h' : heap) :
  correct_vpc_isolation m h = (Ok r, h') →
  correct_public_api_exposure m h = (Ok r, h')
  ∧ check_vpc_isolation h' m = Ok true
  ∧ check_private_endpoints h' m = Ok true
  ∧ check_no_public_api_for_sensitive_data h' m = Ok true.
Proof.
  intros Hc. split; [exact Hc|].
  apply correct_vpc_isolation_Ok in Hc as (_ & _ & d' & Hd' & F1 & F2 & F3).
  split; [|split].
  - by apply (flag_check_on (fun s => in_strs s ["PHI"; "PII"]) _ _ _ _ d').
  - by apply (flag_check_on (fun s => in_strs s ["PHI"; "PCI"]) _ _ _ _ d').
  - unfold check_no_public_api_for_sensitive_data, get_new.
    rewrite (get_or_dict _ _ _ _ _ Hd'), (get_dict _ _ _ _ Hd'). simpl res_bind.
    destruct (in_strs _ _); [|done].
    apply flag_on_get in F1 as (x & -> & Hx), F2 as (y & -> & Hy). simpl.
    by rewrite Hx, Hy.
Qed.

Lemma vpc_correction_satisfies_three_checks_witness :
  check_private_endpoints
    (correct_vpc_isolation example_audit_manifest example_audit_heap).2
    example_audit_manifest = Ok true.
Proof.
  apply (vpc_correction_satisfies_three_checks example_audit_manifest
           example_audit_manifest example_audit_heap
           (correct_vpc_isolation example_audit_manifest example_audit_heap).2).
  reflexivity.
Defined.

(** Every correction of the registry is sufficient for its own check:
    on a manifest whose [networking] and [security_config] blocks are
    absent or dictionaries, whose [services] entry is absent or a list of
    dictionaries, and whose [applicable_frameworks] entry is absent or a
    list, the correction returns and the policy's check then passes. *)
Theorem every_correction_fixes_its_check
    (p : GovernancePolicy) (h : heap) (m : loc) (d : gmap string val) :
  p ∈ POLICY_KNOWLEDGE_BASE →
  h !! m = Some (ODict d) → manifest_wf h d →
  ∃ h', correction_fn p (VRef m) h = (Ok (VRef m), h')
        ∧ check_fn p h' (VRef m) = Ok true.
Proof.
  intros Hp Hm Hwf.
  pose proof registry_correctable as Hok. rewrite Forall_forall in Hok.
  pose proof registry_total as Htot. rewrite Forall_forall in Htot.
  destruct (Hok p Hp) as [sat Hsat]. destruct (Htot p Hp) as [Hcheck Hfix].
  destruct (Hfix h m d Hm Hwf) as [h' Hc]. exists h'. split; [done|].
  destruct (sat_of_fix _ _ Hsat _ _ _ _ Hc) as (_ & He & d' & Hd' & Hs).
  pose proof Hd' as Hd''. apply as_dict_Some in Hd'' as (m' & [= <-] & Hm').
  destruct (as_dict_evolves _ _ _ _ He (as_dict_ref _ _ _ Hm)) as (d2 & Hd2 & Hdd).
  rewrite Hd' in Hd2. injection Hd2 as <-.
  pose proof (manifest_wf_evolves _ _ _ _ He Hdd Hwf) as Hwf'.
  destruct (Hcheck h' m d' Hm' Hwf') as [b Hb]. rewrite Hb. f_equal.
  by eapply (pass_of_sat _ _ Hsat).
Qed.

Lemma every_correction_fixes_its_check_witness :
  ∃ h', correct_encryption_at_rest example_audit_manifest example_audit_heap
        = (Ok example_audit_manifest, h')
        ∧ check_encryption_at_rest h' example_audit_manifest = Ok true.
Proof.
  apply (every_correction_fixes_its_check POL_HIPAA_002 example_audit_heap 8%nat
           (list_to_map
              [("project_name", VStr "clinic-portal");
               ("description", VStr "Patient portal");
               ("services", VRef 4%nat);
               ("networking", VRef 2%nat);
               ("security_config", VRef 3%nat);
               ("detected_sensitivity", VStr "PHI");
               ("applicable_frameworks", VRef 7%nat)])).
  - apply list_elem_of_In. simpl. tauto.
  - reflexivity.
  - repeat split.
    + eexists 2%nat, _. split; reflexivity.
    + eexists 3%nat, _. split; reflexivity.
    + eexists 4%nat, _. split; [reflexivity|]. split; [reflexivity|].
      apply Forall_cons. split; [|apply Forall_nil_2].
      eexists 5%nat, _. split; reflexivity.
    + eexists 7%nat, _. split; reflexivity.
Defined.

(** *** Running a correction again *)

Lemma setitem_noop l k v h d :
  h !! l = Some (ODict d) → d !! k = Some v →
  setitem (VRef l) k v h = (Ok tt, h).
Proof.
  intros Hl Hk. rewrite (setitem_run _ _ _ _ _ Hl).
  rewrite (insert_id d k v Hk). by rewrite (list_insert_id h l _ Hl).
Qed.

Lemma setitem2_noop m k1 k2 v h d n nd :
  as_dict h m = Some d → d !! k1 = Some n →
  as_dict h n = Some nd → nd !! k2 = Some v →
  setitem2 m k1 k2 v h = (Ok tt, h).
Proof.
  intros Hd Hk1 Hnd Hk2.
  apply as_dict_Some in Hd as (l & -> & Hl).
  apply as_dict_Some in Hnd as (ln & -> & Hln).
  unfold setitem2, bind, read, getitem. rewrite Hl, Hk1.
  by apply setitem_noop with nd.
Qed.

Lemma setdefault_noop m k h d :
  as_dict h m = Some d → is_Some (d !! k) →
  setdefault_dict m k h = (Ok tt, h).
Proof.
  intros Hd [x Hx]. unfold setdefault_dict. by rewrite Hd, Hx.
Qed.

Lemma flag_true_evolves h h' d d' block flag :
  block ∈ block_keys → flag ∈ flag_keys →
  evolves h h' → dict_evolves h' d d' →
  flag_true h d block flag → flag_true h' d' block flag.
Proof.
  intros Hb Hf He Hd (n & nd & Hn & Hnd & Hv).
  destruct (as_dict_evolves _ _ _ _ He Hnd) as (nd' & Hnd' & Hndd).
  exists n, nd'. split; [by eapply block_kept|]. split; [done|].
  destruct (Hndd flag) as [H|[[_ H]|[[H _]|[[H _]|(H & _)]]]].
  - congruence.
  - done.
  - subst. absurd_key.
  - subst. absurd_key.
  - apply list_elem_of_In in Hf, H. simpl in Hf, H.
    destruct H as [<-|[<-|[]]]; intuition discriminate.
Qed.

Lemma set_flag_true m block flag h h' u :
  block ∈ block_keys → flag ∈ flag_keys →
  setitem2 m block flag (VBool true) h = (Ok u, h') →
  evolves h h' ∧ ∃ d', as_dict h' m = Some d' ∧ flag_true h' d' block flag.
Proof.
  intros Hb Hf Hs.
  apply setitem2_evolves in Hs as (He & d & n & nd & Hd & Hn & Hnd & Hv).
  - split; [done|]. exists d. split; [done|]. by exists n, nd.
  - left. done.
  - intros ->. apply list_elem_of_In in Hb, Hf. simpl in Hb, Hf.
    destruct Hb as [<-|[<-|[]]]; intuition discriminate.
Qed.

Lemma flag_true_later h h' m d block flag :
  block ∈ block_keys → flag ∈ flag_keys →
  as_dict h m = Some d → flag_true h d block flag → evolves h h' →
  ∃ d', as_dict h' m = Some d' ∧ flag_true h' d' block flag.
Proof.
  intros Hb Hf Hd Hon He.
  destruct (as_dict_evolves _ _ _ _ He Hd) as (d' & Hd' & Hdd).
  exists d'. split; [done|]. by eapply flag_true_evolves.
Qed.

Lemma set_flag_noop m block flag h d :
  as_dict h m = Some d → flag_true h d block flag →
  setdefault_dict m block h = (Ok tt, h)
  ∧ setitem2 m block flag (VBool true) h = (Ok tt, h).
Proof.
  intros Hd (n & nd & Hn & Hnd & Hv). split.
  - eapply setdefault_noop; [done|]. by eexists.
  - by eapply setitem2_noop.
Qed.

Section WriteLoop.
(** The two loops over the services, [upgrade_plans] and [move_to_eu],
    differ only in the entry they write. *)
Variables (loop : list val -> M unit) (k : string) (v : val).
Hypothesis loop_nil : loop [] = ret tt.
Hypothesis loop_cons : ∀ svc rest,
  loop (svc :: rest)
  = bind (read (fun h => get_or h svc "role" VNone))
         (fun ro => bind (if eq_str ro "database" then setitem svc k v else ret tt)
                         (fun _ => loop rest)).
Hypothesis loop_write : write_ok k v.

Lemma written_evolves h h' x : evolves h h' → written k v h x → written k v h' x.
Proof.
  intros He (l & dv & -> & Hl & Hk).
  destruct (He _ _ Hl) as (o' & Ho' & Hoo).
  destruct o' as [dv'|]; simpl in Hoo; [|done].
  exists l, dv'. split; [done|]. split; [done|].
  rewrite (is_database_evolves h' dv dv') by done. intros Hdb.
  specialize (Hk Hdb).
  destruct (Hoo k) as [H|[[H1 H]|[[H1 H]|[[H1 H]|(_ & H & _)]]]];
    [congruence| | | |congruence];
    rewrite H; destruct loop_write as [[Hw ->]|[[Hw ->]|[Hw ->]]];
    try done; subst; absurd_key.
Qed.

Lemma loop_Ok items h h' u :
  loop items h = (Ok u, h') → evolves h h' ∧ Forall (written k v h') items.
Proof.
  revert h. induction items as [|svc rest IH]; intros h.
  - rewrite loop_nil. intros H. apply ret_Ok in H as [_ ->].
    split; [apply evolves_refl|constructor].
  - rewrite loop_cons. intros H.
    apply bind_Ok in H as (ro & h0 & S0 & H). apply read_Ok in S0 as [S0 ->].
    apply get_or_Ok in S0 as (dv & Hdv & ->).
    apply bind_Ok in H as (u1 & h1 & S1 & H).
    apply IH in H as [E1 HF].
    assert (evolves h h1 ∧ written k v h1 svc) as [E0 Hsvc].
    { apply as_dict_Some in Hdv as (l & -> & Hl).
      destruct (eq_str (default VNone (dv !! "role")) "database") eqn:Hdb.
      - apply setitem_evolves in S1 as [He (d' & Hd' & Hr)]; [|done].
        split; [done|]. apply as_dict_Some in Hd' as (l' & [= <-] & Hl').
        by exists l, d'.
      - apply ret_Ok in S1 as [_ ->]. split; [apply evolves_refl|].
        exists l, dv. split; [done|]. split; [done|].
        unfold is_database. rewrite Hdb. discriminate. }
    split; [eauto using evolves_trans|]. constructor; [|done].
    by eapply written_evolves.
Qed.

Lemma loop_noop items h :
  Forall (written k v h) items → loop items h = (Ok tt, h).
Proof.
  induction 1 as [|svc rest (l & dv & -> & Hl & Hk) _ IH].
  - by rewrite loop_nil.
  - rewrite loop_cons. unfold bind at 1. unfold read at 1.
    rewrite (get_or_dict _ _ _ _ _ (as_dict_ref _ _ _ Hl)).
    unfold is_database in Hk. unfold bind at 1.
    destruct (eq_str (default VNone (dv !! "role")) "database").
    + rewrite (setitem_noop _ _ _ _ _ Hl (Hk eq_refl)). exact IH.
    + simpl. exact IH.
Qed.

Lemma loop_iter_stable o items h h' u :
  iter_sub h o = Ok items → loop items h = (Ok u, h') →
  iter_sub h' o = Ok items.
Proof.
  intros Hi Hl. destruct items as [|x rest].
  - rewrite loop_nil in Hl. apply ret_Ok in Hl as [_ ->]. done.
  - destruct (loop_Ok _ _ _ _ Hl) as [He HF].
    apply Forall_cons in HF as [(l & dv & -> & _) _].
    destruct o as [w|]; [|discriminate Hi].
    destruct w as [| | |s|ls]; try discriminate Hi.
    + simpl in Hi. destruct s; simpl in Hi; discriminate Hi.
    + unfold iter_sub, iter in *.
      destruct (h !! ls) as [[dd|xs]|] eqn:Hls; [| |discriminate Hi].
      * injection Hi as Hi. destruct (map_to_list dd).*1; discriminate Hi.
      * injection Hi as ->. by rewrite (evolves_list _ _ _ _ He Hls).
Qed.

End WriteLoop.

Lemma one_flag_fix_again block flag h h' m r :
  block ∈ block_keys → flag ∈ flag_keys →
  bind (setdefault_dict m block)
       (fun _ => bind (setitem2 m block flag (VBool true)) (fun _ => ret m)) h
  = (Ok r, h') →
  bind (setdefault_dict m block)
       (fun _ => bind (setitem2 m block flag (VBool true)) (fun _ => ret m)) h'
  = (Ok m, h').
Proof.
  intros Hb Hf H.
  apply bind_Ok in H as (u0 & h0 & S0 & H).
  apply bind_Ok in H as (u1 & h1 & S1 & H).
  apply ret_Ok in H as [-> ->].
  apply set_flag_true in S1 as (E1 & d1 & Hd1 & F1); [|done..].
  destruct (set_flag_noop _ _ _ _ _ Hd1 F1) as [N0 N1].
  unfold bind. by rewrite N0, N1.
Qed.

Lemma correct_vpc_isolation_again h h' m r :
  correct_vpc_isolation m h = (Ok r, h') →
  correct_vpc_isolation m h' = (Ok m, h').
Proof.
  unfold correct_vpc_isolation. intros H.
  apply bind_Ok in H as (u0 & h0 & S0 & H).
  apply bind_Ok in H as (u1 & h1 & S1 & H).
  apply bind_Ok in H as (u2 & h2 & S2 & H).
  apply bind_Ok in H as (u3 & h3 & S3 & H).
  apply ret_Ok in H as [-> ->].
  apply set_flag_true in S1 as (E1 & d1 & Hd1 & F1); [|auto with keys|flag_key].
  apply set_flag_true in S2 as (E2 & d2 & Hd2 & F2); [|auto with keys|flag_key].
  apply set_flag_true in S3 as (E3 & d3 & Hd3 & F3); [|auto with keys|flag_key].
  destruct (flag_true_later h1 h3 m d1 "networking" "vpc_enabled")
    as (d3' & Hd3' & F1'); [auto with keys|flag_key|done|done|eauto using evolves_trans|].
  destruct (flag_true_later h2 h3 m d2 "networking" "subnet_isolation")
    as (d3'' & Hd3'' & F2'); [auto with keys|flag_key|done|done|done|].
  rewrite Hd3 in Hd3', Hd3''. injection Hd3' as <-. injection Hd3'' as <-.
  destruct (set_flag_noop _ _ _ _ _ Hd3 F1') as [N0 N1].
  destruct (set_flag_noop _ _ _ _ _ Hd3 F2') as [_ N2].
  destruct (set_flag_noop _ _ _ _ _ Hd3 F3) as [_ N3].
  unfold bind. by rewrite N0, N1, N2, N3.
Qed.

Lemma correct_encryption_at_rest_again h h' m r :
  correct_encryption_at_rest m h = (Ok r, h') →
  correct_encryption_at_rest m h' = (Ok m, h').
Proof.
  unfold correct_encryption_at_rest. intros H.
  apply bind_Ok in H as (u0 & h0 & S0 & H).
  apply bind_Ok in H as (u1 & h1 & S1 & H).
  apply bind_Ok in H as (sens & h2 & S2 & H). apply read_Ok in S2 as [S2 ->].
  apply bind_Ok in H as (u3 & h3 & S3 & H).
  apply ret_Ok in H as [-> ->].
  apply set_flag_true in S1 as (E1 & d1 & Hd1 & F1); [|auto with keys|flag_key].
  rewrite (get_or_dict _ _ _ _ _ Hd1) in S2. injection S2 as <-.
  assert (Hloop : evolves h1 h3
            ∧ bind (if eq_str (default VNone (d1 !! "detected_sensitivity")) "PHI"
                    then bind (read (fun h => get_new h m "services"))
                           (fun services =>
                              bind (read (fun h => iter_sub h services))
                                   (fun items => upgrade_plans items))
                    else ret tt) (fun _ => ret m) h3 = (Ok m, h3)).
  { destruct (eq_str _ "PHI").
    - apply bind_Ok in S3 as (svcs & h4 & S4 & S3). apply read_Ok in S4 as [S4 ->].
      apply bind_Ok in S3 as (items & h5 & S5 & S3). apply read_Ok in S5 as [S5 ->].
      unfold get_new in S4. rewrite (get_dict _ _ _ _ Hd1) in S4. injection S4 as <-.
      destruct (loop_Ok upgrade_plans "plan" (VStr "dedicated") eq_refl
                  (fun _ _ => eq_refl) (or_intror (or_intror (conj eq_refl eq_refl)))
                  _ _ _ _ S3) as [E3 HF].
      split; [done|].
      destruct (as_dict_evolves _ _ _ _ E3 Hd1) as (d3 & Hd3 & Hdd).
      unfold bind, read, get_new. rewrite (get_dict _ _ _ _ Hd3).
      rewrite (stable_lookup h3 d1 d3) by done.
      rewrite (loop_iter_stable upgrade_plans "plan" (VStr "dedicated") eq_refl
                 (fun _ _ => eq_refl) (or_intror (or_intror (conj eq_refl eq_refl)))
                 _ _ _ _ _ S5 S3).
      by rewrite (loop_noop upgrade_plans "plan" (VStr "dedicated") eq_refl
                    (fun _ _ => eq_refl) _ _ HF).
    - apply ret_Ok in S3 as [_ ->]. split; [apply evolves_refl|done]. }
  destruct Hloop as [E3 Hrest].
  destruct (flag_true_later h1 h3 m d1 "security_config" "encryption_at_rest")
    as (d3 & Hd3 & F3); [auto with keys|flag_key|done..|].
  destruct (set_flag_noop _ _ _ _ _ Hd3 F3) as [N0 N1].
  unfold bind at 1. rewrite N0. unfold bind at 1. rewrite N1.
  unfold bind at 1. unfold read at 1. rewrite (get_or_dict _ _ _ _ _ Hd3).
  rewrite (stable_lookup h3 d1 d3); [exact Hrest|done|].
  destruct (as_dict_evolves _ _ _ _ E3 Hd1) as (d3' & Hd3' & Hdd).
  rewrite Hd3 in Hd3'. injection Hd3' as <-. exact Hdd.
Qed.

Lemma correct_region_gdpr_again h h' m r :
  correct_region_gdpr m h = (Ok r, h') →
  correct_region_gdpr m h' = (Ok m, h').
Proof.
  unfold correct_region_gdpr. intros H.
  apply bind_Ok in H as (svcs & h0 & S0 & H). apply read_Ok in S0 as [S0 ->].
  apply bind_Ok in H as (items & h1 & S1 & H). apply read_Ok in S1 as [S1 ->].
  apply bind_Ok in H as (u & h2 & S2 & H). apply ret_Ok in H as [-> ->].
  apply get_Ok in S0 as (d & Hd & ->).
  destruct (loop_Ok move_to_eu "region" (VStr "eu-gb") eq_refl
              (fun _ _ => eq_refl) (or_intror (or_introl (conj eq_refl eq_refl)))
              _ _ _ _ S2) as [E HF].
  destruct (as_dict_evolves _ _ _ _ E Hd) as (d' & Hd' & Hdd).
  unfold bind, read, get_new. rewrite (get_dict _ _ _ _ Hd').
  rewrite (stable_lookup h2 d d') by done.
  rewrite (loop_iter_stable move_to_eu "region" (VStr "eu-gb") eq_refl
             (fun _ _ => eq_refl) (or_intror (or_introl (conj eq_refl eq_refl)))
             _ _ _ _ _ S1 S2).
  by rewrite (loop_noop move_to_eu "region" (VStr "eu-gb") eq_refl
                (fun _ _ => eq_refl) _ _ HF).
Qed.

(** The corrections are idempotent: a correction of the registry that
    has returned, run again on the store it left, returns the same
    manifest and leaves that store exactly as it is. *)
Theorem corrections_idempotent
    (p : GovernancePolicy) (m r : val) (h h' : heap) :
  p ∈ POLICY_KNOWLEDGE_BASE →
  correction_fn p m h = (Ok r, h') →
  correction_fn p m h' = (Ok m, h').
Proof.
  intros Hp. revert h h' r. revert p Hp.
  apply (in_registry_cases
           (fun p => ∀ h h' r, correction_fn p m h = (Ok r, h') →
                               correction_fn p m h' = (Ok m, h')));
    simpl; intros h h' r.
  - apply correct_vpc_isolation_again.
  - apply correct_encryption_at_rest_again.
  - apply one_flag_fix_again; [auto with keys|flag_key].
  - apply one_flag_fix_again; [auto with keys|flag_key].
  - apply one_flag_fix_again; [auto with keys|flag_key].
  - apply correct_vpc_isolation_again.
  - apply one_flag_fix_again; [auto with keys|flag_key].
  - apply correct_region_gdpr_again.
Qed.

Lemma corrections_idempotent_witness :
  correct_encryption_at_rest example_audit_manifest
    (correct_encryption_at_rest example_audit_manifest example_audit_heap).2
  = (Ok example_audit_manifest,
     (correct_encryption_at_rest example_audit_manifest example_audit_heap).2).
Proof.
  apply (corrections_idempotent POL_HIPAA_002 example_audit_manifest
           example_audit_manifest example_audit_heap).
  - apply list_elem_of_In. simpl. tauto.
  - reflexivity.
Defined.

(** ** The guardrail stage, beyond its specification *)

Lemma new_dict_prefix d h v h' : new_dict d h = (Ok v, h') → h `prefix_of` h'.
Proof. unfold new_dict. intros [= _ <-]. by eexists. Qed.

Lemma get_or_new_dict_prefix recv k h v h' :
  get_or_new_dict recv k h = (Ok v, h') → h `prefix_of` h'.
Proof.
  unfold get_or_new_dict. intros H.
  apply bind_Ok in H as (o & h0 & S & H). apply read_Ok in S as [_ ->].
  destruct o.
  - apply ret_Ok in H as [_ ->]. done.
  - by eapply new_dict_prefix.
Qed.

Lemma guardrail_body_found E architect_result intent_result h r rem h' :
  guardrail_body E architect_result intent_result h = (Ok (r, rem), h') →
  ∃ md fw am names found h1,
    h `prefix_of` h1
    ∧ audit_pass E h1 am (get_policies_for_frameworks names) = Ok found
    ∧ correct_and_report E md fw am (get_policies_for_frameworks names) found h1
      = (Ok (r, rem), h').
Proof.
  unfold guardrail_body. intros H.
  apply bind_Ok in H as (md & hx & S & H). apply read_Ok in S as [_ ->].
  apply bind_Ok in H as (sens & hx & S & H). apply read_Ok in S as [_ ->].
  apply bind_Ok in H as (asked & hx & S & H). apply read_Ok in S as [_ ->].
  apply bind_Ok in H as (fw & h0 & Sfw & H).
  apply bind_Ok in H as (entries & hx & S & H). apply read_Ok in S as [_ ->].
  apply bind_Ok in H as (am & h1 & Snew & H).
  apply bind_Ok in H as (policies & hx & S & H). apply read_Ok in S as [Ssel ->].
  apply bind_Ok in H as (found & hx & S & H). apply read_Ok in S as [Saudit ->].
  apply select_policies_Ok in Ssel as (names & ->).
  exists md, fw, am, names, found, h1. split; [|done].
  trans h0; [|by eapply new_dict_prefix].
  destruct asked.
  - apply ret_Ok in Sfw as [_ ->]. done.
  - unfold new_list in Sfw. injection Sfw as _ <-. by eexists.
Qed.

(** A manifest without violation is left alone: when pass 1 finds
    nothing, the call only allocates; every object that was in the store
    is unchanged, and the report is PASSED with score 100 and no
    violation. *)
Theorem clean_manifest_is_untouched
    (E : env) (architect_result intent_result : val) (h h' : heap)
    (r : GovernanceReport) (rem : option (list string)) :
  guardrail_body E architect_result intent_result h = (Ok (r, rem), h') →
  violations_found r = [] →
  (∀ l o, h !! l = Some o → h' !! l = Some o)
  ∧ status r = PASSED
  ∧ final_compliance_score r = 100
  ∧ violations_corrected r = []
  ∧ rem = None.
Proof.
  intros H Hnone.
  apply guardrail_body_found in H
    as (md & fw & am & names & found & h1 & Hpre & Haudit & H).
  pose proof H as Hrep.
  apply correct_and_report_Ok in Hrep
    as (c & h2 & final & corrected & h3 & Hcopy & Hloop & Hf & Hc & Hst).
  rewrite Hnone in Hf. subst found. destruct Hloop as (-> & -> & -> & ->).
  simpl in Hst. injection Hst as -> ->. rewrite Hc.
  split; [|done].
  assert (Hpre' : h1 `prefix_of` h').
  { unfold correct_and_report in H.
    apply bind_Ok in H as (c' & h2' & Scopy & H).
    apply bind_Ok in H as ([[final' corrected'] rem0] & hx & S & H).
    apply ret_Ok in S as [_ ->].
    do 5 (apply bind_Ok in H as (? & hx & S & H); apply read_Ok in S as [_ ->]).
    apply bind_Ok in H as (net & h4 & Snet & H).
    apply bind_Ok in H as (sec & h5 & Ssec & H).
    do 2 (apply bind_Ok in H as (? & hx & S & H); apply read_Ok in S as [_ ->]).
    apply bind_Ok in H as (? & hx & S & H); apply read_Ok in S as [_ ->].
    apply ret_Ok in H as [_ ->].
    trans h2'.
    { unfold dict_copy in Scopy. destruct (as_dict h1 am); [|discriminate].
      by eapply new_dict_prefix. }
    trans h4; [by eapply get_or_new_dict_prefix|].
    by eapply get_or_new_dict_prefix. }
  intros l o Hl. eapply prefix_lookup_Some; [done|]. by trans h1.
Qed.

(** The compliant example: the call returns PASSED and the security
    block is as it was. *)
Lemma clean_manifest_is_untouched_witness :
  clean_run.2 !! 2%nat = Some (ODict {[ "encryption_in_transit" := VBool true ]})
  ∧ status (res_get (blank_report, None) clean_run.1).1 = PASSED.
Proof.
  destruct (clean_manifest_is_untouched example_env (VRef 0%nat) (VRef 3%nat)
              clean_heap clean_run.2
              (res_get (blank_report, None) clean_run.1).1 None)
    as (Hsame & Hst & _).
  - vm_compute. reflexivity.
  - vm_compute. reflexivity.
  - split; [|exact Hst]. apply Hsame. reflexivity.
Defined.

Lemma make_violation_fields E p v :
  make_violation E p = Ok v →
  v_policy_id v = policy_id p ∧ v_policy_name v = policy_name p
  ∧ v_framework v = framework p ∧ v_description v = description p
  ∧ auto_correction v = None
  ∧ SeverityLevel_of (severity p) = Ok (v_severity v).
Proof.
  unfold make_violation. intros H.
  apply res_bind_Ok in H as (sev & Hsev & H).
  apply res_bind_Ok in H as (fw & Hfw & H). injection H as <-. simpl.
  unfold ComplianceFramework_of in Hfw.
  destruct (bool_decide _); [|discriminate Hfw]. injection Hfw as <-. done.
Qed.

(** Pass 1 reports the failing policies, in the order of the policy
    list, each through [make_violation]. *)
Lemma audit_pass_shape E h m policies found :
  audit_pass E h m policies = Ok found →
  ∃ failing, sublist failing policies
             ∧ Forall2 (fun p v => make_violation E p = Ok v) failing found.
Proof.
  revert found. induction policies as [|q rest IH]; intros found; simpl.
  - intros [= <-]. exists []. split; constructor.
  - intros H. apply res_bind_Ok in H as (passed & Hq & H).
    destruct passed; simpl in H.
    + destruct (IH _ H) as (failing & Hsub & HF).
      exists failing. split; [by apply sublist_cons|done].
    + apply res_bind_Ok in H as (violation & Hv & H).
      apply res_bind_Ok in H as (found' & Hrest & H). injection H as <-.
      destruct (IH _ Hrest) as (failing & Hsub & HF).
      exists (q :: failing). split; [by apply sublist_skip|by constructor].
Qed.

Lemma annotated_by_own_policy E policies failing found corrected :
  NoDup (policy_id <$> policies) →
  (∀ p, p ∈ failing → p ∈ policies) →
  Forall2 (fun p v => make_violation E p = Ok v) failing found →
  Forall2 (fun v c => ∃ p, matching policies (v_policy_id v) = Some p
                           ∧ c = with_correction v (correction_description p))
          found corrected →
  Forall2 (fun p c => ∃ v, make_violation E p = Ok v
                           ∧ c = with_correction v (correction_description p))
          failing corrected.
Proof.
  intros Hnd Hin HF. revert corrected.
  induction HF as [|p x failing found Hpx HF IH]; intros corrected HC.
  - apply Forall2_nil_inv_l in HC as ->. constructor.
  - apply Forall2_cons_inv_l in HC as (c0 & corrected' & (q & Hq & ->) & HC & ->).
    constructor.
    + exists x. split; [done|].
      destruct (make_violation_fields _ _ _ Hpx) as (Hid & _).
      rewrite Hid in Hq.
      rewrite matching_NoDup in Hq; [congruence|done|].
      apply Hin. by apply elem_of_cons; left.
    + apply IH; [|done]. intros y Hy. apply Hin. by apply elem_of_cons; right.
Qed.

(** What a returning call found and corrected, in terms of the policies
    selected. *)
Lemma guardrail_body_lists E architect_result intent_result h r rem h' :
  guardrail_body E architect_result intent_result h = (Ok (r, rem), h') →
  ∃ names failing,
    sublist failing (get_policies_for_frameworks names)
    ∧ Forall2 (fun p v => make_violation E p = Ok v) failing (violations_found r)
    ∧ Forall2 (fun p c => ∃ v, make_violation E p = Ok v
                               ∧ c = with_correction v (correction_description p))
              failing (violations_corrected r)
    ∧ (status r, final_compliance_score r)
      = determine_status (violations_found r) (violations_corrected r).
Proof.
  intros H.
  apply guardrail_body_found in H
    as (md & fw & am & names & found & h1 & _ & Haudit & H).
  apply correct_and_report_Ok in H
    as (c & h2 & final & corrected & h3 & Hcopy & Hloop & Hf & Hc & Hst).
  destruct (audit_pass_shape _ _ _ _ _ Haudit) as (failing & Hsub & HF).
  exists names, failing. rewrite Hf, Hc. split; [done|]. split; [done|].
  split; [|done].
  destruct found as [|v rest].
  - destruct Hloop as (_ & -> & _). apply Forall2_nil_inv_r in HF as ->.
    constructor.
  - destruct Hloop as (Hloop & _).
    assert (Hall : ∀ x, x ∈ v :: rest →
              is_Some (matching (get_policies_for_frameworks names)
                         (v_policy_id x))).
    { intros x Hx. destruct (audit_pass_Ok _ _ _ _ _ Haudit) as [Hids _].
      destruct (Hids x Hx) as (p & Hp & ->). by apply matching_elem. }
    pose proof (correction_pass_shape _ _ _ _ _ _ _ Hall Hloop) as HC.
    eapply annotated_by_own_policy; [apply selected_ids_NoDup| |exact HF|exact HC].
    intros p Hp. by eapply elem_of_sublist.
Qed.

(** The corrected violations are the found ones, one for one and in the
    same order, each with nothing changed but the correction note, which
    is the correction description of the policy it names; a found
    violation carries no note. *)
Theorem corrected_violations_annotate_found
    (E : env) (architect_result intent_result : val) (h h' : heap)
    (r : GovernanceReport) (rem : option (list string)) :
  guardrail_body E architect_result intent_result h = (Ok (r, rem), h') →
  Forall2 (fun v c =>
             auto_correction v = None
             ∧ ∃ p, p ∈ POLICY_KNOWLEDGE_BASE ∧ policy_id p = v_policy_id v
                    ∧ c = with_correction v (correction_description p))
          (violations_found r) (violations_corrected r).
Proof.
  intros H. apply guardrail_body_lists in H
    as (names & failing & Hsub & HF & HC & _).
  assert (Hin : ∀ p, p ∈ failing → p ∈ POLICY_KNOWLEDGE_BASE).
  { intros p Hp. apply (selected_in_registry names).
    by eapply elem_of_sublist. }
  clear Hsub. revert HC Hin. generalize (violations_corrected r).
  induction HF as [|p v failing found Hpv HF IH]; intros corrected HC Hin.
  - apply Forall2_nil_inv_l in HC as ->. constructor.
  - apply Forall2_cons_inv_l in HC as (c & corrected' & (v' & Hv' & ->) & HC & ->).
    assert (v' = v) as -> by congruence.
    destruct (make_violation_fields _ _ _ Hpv) as (Hid & _ & _ & _ & Hnote & _).
    constructor.
    + split; [done|]. exists p. split; [|done].
      apply Hin. by apply elem_of_cons; left.
    + apply IH; [done|]. intros q Hq. apply Hin. by apply elem_of_cons; right.
Qed.

Lemma corrected_violations_annotate_found_witness :
  Forall2 (fun v c =>
             auto_correction v = None
             ∧ ∃ p, p ∈ POLICY_KNOWLEDGE_BASE ∧ policy_id p = v_policy_id v
                    ∧ c = with_correction v (correction_description p))
          (violations_found example_report) (violations_corrected example_report).
Proof.
  apply (corrected_violations_annotate_found example_env
           example_architect_result example_intent_result example_heap
           example_run.2 example_report (Some [])).
  vm_compute. reflexivity.
Defined.

Lemma Forall2_fmap_eq {A B C} (f : A -> C) (g : B -> C) (l : list A) (k : list B) :
  Forall2 (fun a b => f a = g b) l k → f <$> l = g <$> k.
Proof. induction 1 as [|a b l k Hab _ IH]; [done|]. rewrite !fmap_cons. by f_equal. Qed.

(** Violations are reported in registry order: the ids of the found
    violations, and likewise of the corrected ones, form a sublist of the
    registry's ids, so no policy is reported twice and at most eight
    violations are reported. *)
Theorem violations_follow_registry_order
    (E : env) (architect_result intent_result : val) (h h' : heap)
    (r : GovernanceReport) (rem : option (list string)) :
  guardrail_body E architect_result intent_result h = (Ok (r, rem), h') →
  sublist (v_policy_id <$> violations_found r) (policy_id <$> POLICY_KNOWLEDGE_BASE)
  ∧ v_policy_id <$> violations_corrected r = v_policy_id <$> violations_found r
  ∧ NoDup (v_policy_id <$> violations_found r)
  ∧ (length (violations_found r) <= 8)%nat.
Proof.
  intros H. apply guardrail_body_lists in H
    as (names & failing & Hsub & HF & HC & _).
  assert (Hf : v_policy_id <$> violations_found r = policy_id <$> failing).
  { symmetry. apply Forall2_fmap_eq. eapply Forall2_impl; [exact HF|].
    intros p v Hpv. simpl. symmetry. by apply make_violation_fields in Hpv as (? & _). }
  assert (Hc : v_policy_id <$> violations_corrected r = policy_id <$> failing).
  { symmetry. apply Forall2_fmap_eq. eapply Forall2_impl; [exact HC|].
    intros p c (v & Hpv & ->). simpl. symmetry.
    by apply make_violation_fields in Hpv as (? & _). }
  assert (Hs : sublist (v_policy_id <$> violations_found r)
                       (policy_id <$> POLICY_KNOWLEDGE_BASE)).
  { rewrite Hf. apply fmap_sublist. etrans; [exact Hsub|].
    rewrite get_policies_filter. apply sublist_filter. }
  split; [done|]. split; [congruence|]. split.
  - eapply sublist_NoDup; [apply registry_ids_NoDup|done].
  - apply sublist_length in Hs. rewrite !length_fmap in Hs. exact Hs.
Qed.

Lemma violations_follow_registry_order_witness :
  sublist (v_policy_id <$> violations_found example_report)
          (policy_id <$> POLICY_KNOWLEDGE_BASE)
  ∧ (length (violations_found example_report) <= 8)%nat.
Proof.
  destruct (violations_follow_registry_order example_env
              example_architect_result example_intent_result example_heap
              example_run.2 example_report (Some []))
    as (Hs & _ & _ & Hl).
  - vm_compute. reflexivity.
  - split; [exact Hs|exact Hl].
Defined.

Lemma Forall2_elem_of_r {A B} (R : A -> B -> Prop) (l : list A) (k : list B) y :
  Forall2 R l k → y ∈ k → ∃ x, x ∈ l ∧ R x y.
Proof.
  induction 1 as [|a b l k Hab _ IH]; intros Hy.
  - by apply elem_of_nil in Hy.
  - apply elem_of_cons in Hy as [->|Hy].
    + exists a. split; [by apply elem_of_cons; left|done].
    + destruct (IH Hy) as (x & Hx & HR).
      exists x. split; [by apply elem_of_cons; right|done].
Qed.

Lemma registry_severity_cases p sev :
  p ∈ POLICY_KNOWLEDGE_BASE → SeverityLevel_of (severity p) = Ok sev →
  sev = CRITICAL ∨ sev = WARNING.
Proof.
  intros Hp. revert sev.
  apply (in_registry_cases
           (fun p => ∀ sev, SeverityLevel_of (severity p) = Ok sev →
                            sev = CRITICAL ∨ sev = WARNING));
    [intros sev H; vm_compute in H; injection H as <-; auto ..|done].
Qed.

Lemma count_all_severities vs :
  (∀ v, v ∈ vs → v_severity v = CRITICAL ∨ v_severity v = WARNING) →
  count_severity CRITICAL vs + count_severity WARNING vs = Z.of_nat (length vs).
Proof.
  induction vs as [|v vs IH]; intros Hall; [done|].
  rewrite !count_severity_cons. simpl length.
  assert (Hrest : ∀ x, x ∈ vs → v_severity x = CRITICAL ∨ v_severity x = WARNING).
  { intros x Hx. apply Hall. by apply elem_of_cons; right. }
  specialize (IH Hrest).
  destruct (Hall v) as [Hv|Hv]; [by apply elem_of_cons; left|..];
    rewrite Hv; repeat case_decide; try congruence; lia.
Qed.

(** The report of a call that returns: every violation found is critical
    or a warning, never informational; with nothing found the report is
    PASSED with score 100; with something found it is CORRECTED with the
    score [max 60 (100 - 8c - 3w)], which lies between 60 and 97.  So the
    score is 100 exactly when nothing was found. *)
Theorem report_status_and_score
    (E : env) (architect_result intent_result : val) (h h' : heap)
    (r : GovernanceReport) (rem : option (list string)) :
  guardrail_body E architect_result intent_result h = (Ok (r, rem), h') →
  (∀ v, v ∈ violations_found r → v_severity v = CRITICAL ∨ v_severity v = WARNING)
  ∧ (violations_found r = [] →
     status r = PASSED ∧ final_compliance_score r = 100)
  ∧ (violations_found r ≠ [] →
     status r = CORRECTED
     ∧ final_compliance_score r
       = Z.max 60 (100 - 8 * count_severity CRITICAL (violations_found r)
                       - 3 * count_severity WARNING (violations_found r))
     ∧ 60 <= final_compliance_score r <= 97)
  ∧ (final_compliance_score r = 100 ↔ violations_found r = []).
Proof.
  intros H. apply guardrail_body_lists in H
    as (names & failing & Hsub & HF & HC & Hst).
  assert (Hlen : length (violations_corrected r) = length (violations_found r)).
  { apply Forall2_length in HF, HC. congruence. }
  assert (Hsev : ∀ v, v ∈ violations_found r →
                      v_severity v = CRITICAL ∨ v_severity v = WARNING).
  { intros v Hv. destruct (Forall2_elem_of_r _ _ _ _ HF Hv) as (p & Hp & Hpv).
    apply make_violation_fields in Hpv as (_ & _ & _ & _ & _ & Hs).
    eapply registry_severity_cases; [|exact Hs].
    apply (selected_in_registry names). by eapply elem_of_sublist. }
  pose proof (count_all_severities _ Hsev) as Hcount.
  pose proof (count_severity_nonneg CRITICAL (violations_found r)) as Hc.
  pose proof (count_severity_nonneg WARNING (violations_found r)) as Hw.
  assert (Hsome : violations_found r ≠ [] →
            status r = CORRECTED
            ∧ final_compliance_score r
              = Z.max 60 (100 - 8 * count_severity CRITICAL (violations_found r)
                              - 3 * count_severity WARNING (violations_found r))
            ∧ 60 <= final_compliance_score r <= 97).
  { intros Hne. rewrite determine_status_corrected in Hst by done.
    injection Hst as -> ->. unfold corrected_score.
    assert (0 < Z.of_nat (length (violations_found r))).
    { destruct (violations_found r); [done|]. simpl length. lia. }
    split; [done|]. split; [f_equal; lia|lia]. }
  assert (Hnone : violations_found r = [] →
            status r = PASSED ∧ final_compliance_score r = 100).
  { intros Hnil. rewrite Hnil in Hst. simpl in Hst. by injection Hst as -> ->. }
  split; [done|]. split; [done|]. split; [done|]. split.
  - intros Hs. destruct (violations_found r) eqn:Hv; [done|].
    destruct Hsome as (_ & _ & Hle); [done|]. lia.
  - intros Hnil. by apply Hnone.
Qed.

Lemma report_status_and_score_witness :
  status example_report = CORRECTED
  ∧ 60 <= final_compliance_score example_report <= 97.
Proof.
  destruct (report_status_and_score example_env
              example_architect_result example_intent_result example_heap
              example_run.2 example_report (Some []))
    as (_ & _ & Hsome & _).
  - vm_compute. reflexivity.
  - destruct Hsome as (Hst & _ & Hsc); [vm_compute; discriminate|].
    split; [exact Hst|exact Hsc].
Defined.

Lemma guardrail_status_not_failed E architect_result intent_result h r rem h' :
  guardrail_body E architect_result intent_result h = (Ok (r, rem), h') →
  status r ≠ FAILED.
Proof.
  intros H. apply guardrail_body_lists in H
    as (names & failing & Hsub & HF & HC & Hst).
  assert (Hlen : length (violations_corrected r) = length (violations_found r)).
  { apply Forall2_length in HF, HC. congruence. }
  destruct (determine_status_resolved _ _ Hlen) as [Hs _].
  rewrite <- Hst in Hs. simpl in Hs. destruct Hs as [-> | ->]; discriminate.
Qed.

(** For every input, the stage result is FAILED exactly when the body of
    the stage raised an exception, exactly when it carries no report, and
    exactly when it carries an error message; a result that carries a
    report has the status of that report and no error message. *)
Theorem failed_exactly_on_exception
    (E : env) (architect_result intent_result : val) (h : heap) :
  (stage_status (run_governance_guardrail E architect_result intent_result h).1
   = FAILED
   ↔ ∃ e h', guardrail_body E architect_result intent_result h = (Raise e, h'))
  ∧ (stage_status (run_governance_guardrail E architect_result intent_result h).1
     = FAILED
     ↔ result (run_governance_guardrail E architect_result intent_result h).1
       = None)
  ∧ (stage_status (run_governance_guardrail E architect_result intent_result h).1
     = FAILED
     ↔ ∃ msg, error (run_governance_guardrail E architect_result intent_result h).1
              = Some msg)
  ∧ (∀ r, result (run_governance_guardrail E architect_result intent_result h).1
          = Some r →
          stage_status (run_governance_guardrail E architect_result intent_result h).1
          = status r
          ∧ error (run_governance_guardrail E architect_result intent_result h).1
            = None).
Proof.
  unfold run_governance_guardrail.
  destruct (guardrail_body E architect_result intent_result h)
    as [[[r rem]|e] h'] eqn:Hbody; simpl.
  - pose proof (guardrail_status_not_failed _ _ _ _ _ _ _ Hbody) as Hnf.
    split; [split; [done|by intros (? & ? & ?)]|].
    split; [split; [done|discriminate]|].
    split; [split; [done|by intros (? & ?)]|].
    by intros r' [= <-].
  - split; [split; [eauto|done]|].
    split; [done|]. split; [split; [eauto|done]|]. discriminate.
Qed.

(** A frameworks entry that is present but null (or a number, or a
    boolean) is not replaced by the default list: the policy selection
    raises the [TypeError] of iterating it, and the stage returns FAILED
    with that message and no report. *)
Theorem non_iterable_frameworks_fail_the_stage
    (E : env) (architect_result intent_result : val) (h : heap)
    (da di entries : gmap string val) (v : val) :
  as_dict h architect_result = Some da →
  unpack h (da !! "manifest") = Ok entries →
  as_dict h intent_result = Some di →
  di !! "applicable_frameworks" = Some v →
  (v = VNone ∨ (∃ b, v = VBool b) ∨ ∃ n, v = VInt n) →
  (run_governance_guardrail E architect_result intent_result h).1
  = {| stage_id := 3;
       stage_name := "Governance Guardrail";
       stage_status := FAILED;
       duration_ms := elapsed_ms E;
       result := None;
       error := Some ("'" ++ type_name h v ++ "' object is not iterable") |}.
Proof.
  intros Ha Hentries Hi Hv Hshape.
  unfold run_governance_guardrail, guardrail_body, bind, read, get_new.
  rewrite (get_dict _ _ _ _ Ha), (get_or_dict _ _ _ _ _ Hi),
    (get_dict _ _ _ _ Hi), Hv.
  unfold ret. rewrite Hentries. unfold new_dict, select_policies.
  destruct Hshape as [->|[[b ->]|[n ->]]]; reflexivity.
Qed.

Lemma non_iterable_frameworks_fail_the_stage_witness :
  (run_governance_guardrail example_env (VRef 0%nat) (VRef 2%nat) null_heap).1
  = {| stage_id := 3;
       stage_name := "Governance Guardrail";
       stage_status := FAILED;
       duration_ms := elapsed_ms example_env;
       result := None;
       error := Some "'NoneType' object is not iterable" |}.
Proof.
  apply (non_iterable_frameworks_fail_the_stage example_env
           (VRef 0%nat) (VRef 2%nat) null_heap
           {[ "manifest" := VRef 1%nat ]} {[ "applicable_frameworks" := VNone ]}
           ∅ VNone).
  - reflexivity.
  - vm_compute. reflexivity.
  - reflexivity.
  - vm_compute. reflexivity.
  - left. reflexivity.
Defined.

(** When the intent result has no frameworks entry, the default list
    applies: only the four baseline policies are audited (200 tokens are
    reported), so at most four violations are found and each belongs to
    the baseline framework. *)
Theorem missing_frameworks_mean_baseline
    (E : env) (architect_result intent_result : val) (h h' : heap)
    (r : GovernanceReport) (rem : option (list string)) (di : gmap string val) :
  guardrail_body E architect_result intent_result h = (Ok (r, rem), h') →
  as_dict h intent_result = Some di →
  di !! "applicable_frameworks" = None →
  tokens_used r = 200
  ∧ (length (violations_found r) <= 4)%nat
  ∧ ∀ v, v ∈ violations_found r → v_framework v = "IBM_BASELINE".
Proof.
  intros H Hi Hk. unfold guardrail_body in H.
  apply bind_Ok in H as (md & hx & S & H). apply read_Ok in S as [_ ->].
  apply bind_Ok in H as (sens & hx & S & H). apply read_Ok in S as [_ ->].
  apply bind_Ok in H as (asked & hx & S & H). apply read_Ok in S as [Sasked ->].
  rewrite (get_dict _ _ _ _ Hi), Hk in Sasked. injection Sasked as <-.
  apply bind_Ok in H as (fw & h0 & Sfw & H).
  unfold new_list in Sfw. injection Sfw as <- <-.
  apply bind_Ok in H as (entries & hx & S & H). apply read_Ok in S as [_ ->].
  apply bind_Ok in H as (am & h1 & Snew & H).
  unfold new_dict in Snew. injection Snew as <- <-.
  apply bind_Ok in H as (policies & hx & S & H). apply read_Ok in S as [Ssel ->].
  apply bind_Ok in H as (found & hx & S & H). apply read_Ok in S as [Saudit ->].
  assert (Hpol : policies = get_policies_for_frameworks ["IBM_BASELINE"]).
  { unfold select_policies in Ssel.
    apply res_bind_Ok in Ssel as (items & Hit & Ssel).
    apply res_bind_Ok in Ssel as (names & Hn & Ssel). injection Ssel as <-.
    unfold iter in Hit.
    rewrite lookup_app_l in Hit by (rewrite length_app; simpl; lia).
    rewrite (list_lookup_middle h [] _ (length h) eq_refl) in Hit.
    injection Hit as <-. simpl in Hn. by injection Hn as <-. }
  subst policies.
  assert (Hfour : length (get_policies_for_frameworks ["IBM_BASELINE"]) = 4%nat).
  { vm_compute. reflexivity. }
  pose proof (correct_and_report_tokens _ _ _ _ _ _ _ _ _ _ H) as Htok.
  apply correct_and_report_Ok in H as (_ & _ & _ & _ & _ & _ & _ & Hf & _).
  destruct (audit_pass_shape _ _ _ _ _ Saudit) as (failing & Hsub & HF).
  rewrite Hf. split; [rewrite Htok, Hfour; done|]. split.
  - apply Forall2_length in HF. rewrite <- HF, <- Hfour.
    by apply sublist_length.
  - intros v Hv. destruct (Forall2_elem_of_r _ _ _ _ HF Hv) as (p & Hp & Hpv).
    apply make_violation_fields in Hpv as (_ & _ & -> & _).
    assert (Hsel : p ∈ get_policies_for_frameworks ["IBM_BASELINE"])
      by (by eapply elem_of_sublist).
    rewrite get_policies_filter in Hsel.
    apply list_elem_of_filter in Hsel as [[Hin|Hb] _]; [|done].
    by apply list_elem_of_singleton in Hin.
Qed.

Lemma missing_frameworks_mean_baseline_witness :
  tokens_used (res_get (blank_report, None) clean_run.1).1 = 200.
Proof.
  destruct (missing_frameworks_mean_baseline example_env
              (VRef 0%nat) (VRef 3%nat) clean_heap clean_run.2
              (res_get (blank_report, None) clean_run.1).1
              (res_get (blank_report, None) clean_run.1).2
              {[ "detected_sensitivity" := VStr "public" ]})
    as (Htok & _).
  - vm_compute. reflexivity.
  - reflexivity.
  - vm_compute. reflexivity.
  - exact Htok.
Defined.
